(** * Verification of the export reconciliation engine (exporter.py, sign.py)

    A shallow embedding of the policy resolver, the identifier codec, the
    signature gate, the cleanup pass and the reconciliation pass of the
    Ditto-to-BaSyx exporter, with the properties its specification states. *)

From Stdlib Require Import ZArith List Bool Lia String Ascii Permutation.
From Stdlib Require Import DecimalString.
Import ListNotations.

Local Open Scope Z_scope.

(** ** Python values shared by all components *)

(** A Python [str] is a sequence of Unicode code points. *)
Definition str := list Z.

(** A [bytes] object is a sequence of integers in [0, 256). *)
Definition bytes := list Z.

(** String literals of the source, written in ASCII. *)
Definition lit (s : string) : str :=
  map (fun a => Z.of_N (N_of_ascii a)) (list_ascii_of_string s).

Definition str_eqb (a b : str) : bool :=
  if list_eq_dec Z.eq_dec a b then true else false.

Definition str_in (x : str) (l : list str) : bool :=
  existsb (str_eqb x) l.

(** The exceptions the code can meet; all of them derive from [Exception]. *)
Inductive exn : Type :=
| TypeError
| ValueError
| KeyError
| AttributeError
| UnicodeEncodeError
| UnicodeDecodeError
| BinasciiError
| OSError
| InvalidSignature
| RequestException
| HTTPError.

(** The outcome of evaluating a Python expression: a value or a raised
    exception. *)
Inductive result (A : Type) : Type :=
| Ok (a : A)
| Raise (e : exn).
Arguments Ok {A} a.
Arguments Raise {A} e.

Definition rbind {A B} (m : result A) (k : A -> result B) : result B :=
  match m with
  | Ok a => k a
  | Raise e => Raise e
  end.

(** [try: m  except Exception as e: h e] *)
Definition try_except {A} (m : result A) (h : exn -> result A) : result A :=
  match m with
  | Ok a => Ok a
  | Raise e => h e
  end.

Declare Scope result_scope.
Delimit Scope result_scope with result.
Notation "x <- m ;; k" := (rbind m (fun x => k))
  (at level 61, m at next level, right associativity) : result_scope.

(** ** Identifier codec: [encode_id] *)

Module Codec.

(** [raw_id.encode('utf-8')] for one code point.  Surrogates (which a Python
    [str] can hold) make the encoder raise [UnicodeEncodeError]. *)
Definition utf8_encode_cp (c : Z) : result bytes :=
  if c <? 0 then Raise UnicodeEncodeError
  else if c <? 0x80 then Ok [c]
  else if c <? 0x800 then
    Ok [Z.lor 0xC0 (Z.shiftr c 6); Z.lor 0x80 (Z.land c 0x3F)]
  else if c <? 0x10000 then
    if (0xD800 <=? c) && (c <=? 0xDFFF) then Raise UnicodeEncodeError
    else Ok [Z.lor 0xE0 (Z.shiftr c 12);
             Z.lor 0x80 (Z.land (Z.shiftr c 6) 0x3F);
             Z.lor 0x80 (Z.land c 0x3F)]
  else if c <? 0x110000 then
    Ok [Z.lor 0xF0 (Z.shiftr c 18);
        Z.lor 0x80 (Z.land (Z.shiftr c 12) 0x3F);
        Z.lor 0x80 (Z.land (Z.shiftr c 6) 0x3F);
        Z.lor 0x80 (Z.land c 0x3F)]
  else Raise UnicodeEncodeError.

Fixpoint utf8_encode (s : str) : result bytes :=
  match s with
  | [] => Ok []
  | c :: s' =>
      (bs <- utf8_encode_cp c ;;
       rest <- utf8_encode s' ;;
       Ok (bs ++ rest))%result
  end.

(** The URL-safe alphabet: [A-Z a-z 0-9 - _]. *)
Definition urlsafe_char (i : Z) : Z :=
  if i <? 26 then 65 + i
  else if i <? 52 then 97 + (i - 26)
  else if i <? 62 then 48 + (i - 52)
  else if i =? 62 then 45
  else 95.

(** The padding character [=]. *)
Definition pad : Z := 61.

(** [base64.urlsafe_b64encode]: three bytes give four characters, the last
    group is padded. *)
Fixpoint urlsafe_b64encode (bs : bytes) : bytes :=
  match bs with
  | [] => []
  | [a] =>
      [urlsafe_char (Z.shiftr a 2);
       urlsafe_char (Z.shiftl (Z.land a 3) 4);
       pad; pad]
  | [a; b] =>
      [urlsafe_char (Z.shiftr a 2);
       urlsafe_char (Z.lor (Z.shiftl (Z.land a 3) 4) (Z.shiftr b 4));
       urlsafe_char (Z.shiftl (Z.land b 15) 2);
       pad]
  | a :: b :: c :: rest =>
      urlsafe_char (Z.shiftr a 2)
      :: urlsafe_char (Z.lor (Z.shiftl (Z.land a 3) 4) (Z.shiftr b 4))
      :: urlsafe_char (Z.lor (Z.shiftl (Z.land b 15) 2) (Z.shiftr c 6))
      :: urlsafe_char (Z.land c 63)
      :: urlsafe_b64encode rest
  end.

(** [b64_bytes.decode('ascii')] raises on a byte outside [0, 128). *)
Definition decode_ascii (bs : bytes) : result str :=
  if forallb (fun b => (0 <=? b) && (b <? 128)) bs then Ok bs
  else Raise UnicodeDecodeError.

Definition encode_id (raw_id : str) : result str :=
  (utf8_bytes <- utf8_encode raw_id ;;
   decode_ascii (urlsafe_b64encode utf8_bytes))%result.

End Codec.


(** ** Export policy (exporter_config.json)

    A rule is a JSON object read with [.get(key, default)]; a field of the
    records below holds the value [.get] yields, that is the default of the
    source when the key is absent.  Only [downtime], [start] and [end], which
    the source reads without a usable default, keep their absence visible. *)

Record FeatureRule : Type := {
  fr_feature_id : str;          (* feature_config.get("feature_id", "") *)
  fr_properties : list str      (* feature_config.get("properties", []) *)
}.

Record Downtime : Type := {
  dt_start : option str;        (* downtime.get("start") *)
  dt_end : option str           (* downtime.get("end") *)
}.

Record ThingRule : Type := {
  tr_thing_id : str;            (* thing_config.get("thing_id", "") *)
  tr_downtime : option Downtime; (* the "downtime" key, when present *)
  tr_features : list FeatureRule (* thing_config.get("features", []) *)
}.

Record SourceRule : Type := {
  sr_source_url : str;          (* source_config.get("source_url", "") *)
  sr_source_name : str;         (* .get("source_name", "unnamed_source") *)
  sr_auth_header : str;         (* source_config.get("auth_header", "") *)
  sr_things : list ThingRule    (* source_config.get("things", []) *)
}.

Record Config : Type := {
  cfg_sources : list SourceRule;   (* data_to_export.sources, default [] *)
  cfg_basyx_url : option str;      (* config.get("basyx", {}).get("url") *)
  cfg_verify_signatures : bool;    (* security.verify_signatures, False *)
  cfg_public_key_path : str;       (* security.public_key_path *)
  cfg_log_filtered_items : bool    (* logging.log_filtered_items, False *)
}.

(** A [datetime] is naive (no time zone) or aware; [datetime.now()] is naive.
    The integer is the instant, in any unit that preserves the order. *)
Inductive datetime : Type :=
| Naive (t : Z)
| Aware (t : Z).

(** [a <= b] on datetimes: comparing a naive with an aware one raises. *)
Definition dt_le (a b : datetime) : result bool :=
  match a, b with
  | Naive x, Naive y => Ok (x <=? y)
  | Aware x, Aware y => Ok (x <=? y)
  | _, _ => Raise TypeError
  end.

(** How a [for] loop with a [return] inside ends. *)
Inductive loop (A : Type) : Type :=
| Returned (a : A)
| Exhausted.
Arguments Returned {A} a.
Arguments Exhausted {A}.

(** [pattern == id or pattern == "*"] *)
Definition rule_matches (pattern id : str) : bool :=
  str_eqb pattern id || str_eqb pattern (lit "*").

(** [datetime.fromisoformat] on a string: the parsed datetime, or
    [ValueError].  The parser belongs to the Python library; the resolver is
    verified for every parser. *)
Class IsoParser : Type :=
  fromisoformat : str -> result datetime.

Section Resolver.

Context {parser : IsoParser}.

(** [datetime.fromisoformat(d.get(key))]: the argument is [None] when the key
    is absent, and [fromisoformat(None)] raises [TypeError]. *)
Definition fromisoformat_get (o : option str) : result datetime :=
  match o with
  | None => Raise TypeError
  | Some s => fromisoformat s
  end.

(** [thing_config.get("downtime", {})] *)
Definition downtime_of (t : ThingRule) : Downtime :=
  match tr_downtime t with
  | Some d => d
  | None => {| dt_start := None; dt_end := None |}
  end.

(** Lines 49-52: both bounds are parsed, then [downtime_start <= time_now <=
    downtime_end] is evaluated left to right, the second comparison only when
    the first holds.  [now] is the reading of [datetime.now()]; the clock
    is read again at every matched rule, and the readings of one call, and
    of one pass over the sources, are taken to be the same instant. *)
Definition in_downtime (now : Z) (t : ThingRule) : result bool :=
  (downtime_start <- fromisoformat_get (dt_start (downtime_of t)) ;;
   downtime_end <- fromisoformat_get (dt_end (downtime_of t)) ;;
   after_start <- dt_le downtime_start (Naive now) ;;
   if after_start then dt_le (Naive now) downtime_end else Ok false)%result.

(** Lines 55-60: the loop over the feature rules of one thing rule. *)
Fixpoint scan_features (feature_id : str) (features : list FeatureRule)
  : loop (list str) :=
  match features with
  | [] => Exhausted
  | feature_config :: rest =>
      if rule_matches (fr_feature_id feature_config) feature_id
      then Returned (fr_properties feature_config)
      else scan_features feature_id rest
  end.

(** Lines 43-60: the loop over the thing rules of one source rule.  A matched
    rule whose feature loop ends without a [return] does not end this loop. *)
Fixpoint scan_things (now : Z) (thing_id feature_id : str)
  (things : list ThingRule) : result (loop (option (list str))) :=
  match things with
  | [] => Ok Exhausted
  | thing_config :: rest =>
      if rule_matches (tr_thing_id thing_config) thing_id then
        match in_downtime now thing_config with
        | Raise e => Raise e
        | Ok true => Ok (Returned None)
        | Ok false =>
            match scan_features feature_id (tr_features thing_config) with
            | Returned props => Ok (Returned (Some props))
            | Exhausted => scan_things now thing_id feature_id rest
            end
        end
      else scan_things now thing_id feature_id rest
  end.

(** Lines 36-62: the loop over the source rules, and the final
    [return None]. *)
Fixpoint scan_sources (now : Z) (source_url thing_id feature_id : str)
  (sources : list SourceRule) : result (option (list str)) :=
  match sources with
  | [] => Ok None
  | source_config :: rest =>
      if str_eqb (sr_source_url source_config) source_url then
        match scan_things now thing_id feature_id (sr_things source_config) with
        | Raise e => Raise e
        | Ok (Returned r) => Ok r
        | Ok Exhausted => scan_sources now source_url thing_id feature_id rest
        end
      else scan_sources now source_url thing_id feature_id rest
  end.

Definition get_export_config (now : Z) (source_url thing_id feature_id : str)
  (config : Config) : result (option (list str)) :=
  scan_sources now source_url thing_id feature_id (cfg_sources config).

(** The resolver as the specification words it: only the first source rule
    with the queried url, and in it only the first thing rule that matches,
    are consulted; a loop that ends without a match gives [None].  The
    downtime test is the one of the code. *)
Definition first_match_resolve (now : Z) (source_url thing_id feature_id : str)
  (config : Config) : result (option (list str)) :=
  match find (fun s => str_eqb (sr_source_url s) source_url)
             (cfg_sources config) with
  | None => Ok None
  | Some source_config =>
      match find (fun t => rule_matches (tr_thing_id t) thing_id)
                 (sr_things source_config) with
      | None => Ok None
      | Some thing_config =>
          (suppressed <- in_downtime now thing_config ;;
           if suppressed then Ok None
           else
             match find (fun f => rule_matches (fr_feature_id f) feature_id)
                        (tr_features thing_config) with
             | Some feature_config => Ok (Some (fr_properties feature_config))
             | None => Ok None
             end)%result
      end
  end.

(** The thing rules the loops can reach for a query: those of every source
    rule with the queried url, in declaration order. *)
Definition candidate_things (source_url : str) (config : Config)
  : list ThingRule :=
  flat_map sr_things
    (filter (fun s => str_eqb (sr_source_url s) source_url)
            (cfg_sources config)).

(** The value [get_export_config] returns when the thing loops end as [r]. *)
Definition finish (r : result (loop (option (list str))))
  : result (option (list str)) :=
  match r with
  | Raise e => Raise e
  | Ok (Returned v) => Ok v
  | Ok Exhausted => Ok None
  end.

(** The window of a thing rule contains [now]: both bounds are present, parse
    to naive datetimes, and [start <= now <= end]. *)
Definition window_contains (now : Z) (t : ThingRule) : Prop :=
  exists a b s e,
    tr_downtime t = Some {| dt_start := Some a; dt_end := Some b |} /\
    fromisoformat a = Ok (Naive s) /\ fromisoformat b = Ok (Naive e) /\
    s <= now <= e.

End Resolver.

(** *** A parser for examples

    [fromisoformat_basic] accepts the timestamps of the form
    [YYYY-MM-DDTHH:MM:SS], one of the forms [datetime.fromisoformat] accepts,
    and yields the naive datetime whose instant is the number
    [YYYYMMDDHHMMSS]; readings of the clock are written the same way. *)
Definition digit (c : Z) : option Z :=
  if (48 <=? c) && (c <=? 57) then Some (c - 48) else None.

Definition two_digits (a b : Z) : option Z :=
  match digit a, digit b with
  | Some x, Some y => Some (10 * x + y)
  | _, _ => None
  end.

Definition in_range (lo hi : Z) (o : option Z) : option Z :=
  match o with
  | Some v => if (lo <=? v) && (v <=? hi) then Some v else None
  | None => None
  end.

Definition fromisoformat_basic (s : str) : result datetime :=
  match s with
  | [y1; y2; y3; y4; d1; m1; m2; d2; a1; a2; sep; h1; h2; c1; i1; i2; c2;
     s1; s2] =>
      if (d1 =? 45) && (d2 =? 45) && (sep =? 84) && (c1 =? 58) && (c2 =? 58)
      then
        match two_digits y1 y2, two_digits y3 y4,
              in_range 1 12 (two_digits m1 m2),
              in_range 1 31 (two_digits a1 a2),
              in_range 0 23 (two_digits h1 h2),
              in_range 0 59 (two_digits i1 i2),
              in_range 0 59 (two_digits s1 s2) with
        | Some yh, Some yl, Some mo, Some da, Some ho, Some mi, Some se =>
            Ok (Naive (((((((yh * 100 + yl) * 100 + mo) * 100 + da) * 100
                          + ho) * 100 + mi) * 100) + se))
        | _, _, _, _, _, _, _ => Raise ValueError
        end
      else Raise ValueError
  | _ => Raise ValueError
  end.

(** A window that lies in the past of the readings used in the examples. *)
Definition past_window : option Downtime :=
  Some {| dt_start := Some (lit "2020-01-01T00:00:00");
          dt_end := Some (lit "2020-01-02T00:00:00") |}.

(** A window that contains the readings used in the examples. *)
Definition open_window : option Downtime :=
  Some {| dt_start := Some (lit "2020-01-01T00:00:00");
          dt_end := Some (lit "2099-01-01T00:00:00") |}.

Definition sample_now : Z := 20250601120000.

Definition ditto_url : str := lit "http://ditto:8080/api/2".

Definition mk_config (sources : list SourceRule) : Config :=
  {| cfg_sources := sources;
     cfg_basyx_url := Some (lit "http://basyx:8081");
     cfg_verify_signatures := false;
     cfg_public_key_path := lit "public_key.pem";
     cfg_log_filtered_items := false |}.

Definition mk_source (url : str) (things : list ThingRule) : SourceRule :=
  {| sr_source_url := url;
     sr_source_name := lit "ditto";
     sr_auth_header := lit "Basic ZGl0dG86ZGl0dG8=";
     sr_things := things |}.

(** An exact rule for thing [plc] that knows feature [valve] only, followed by
    a wildcard rule that exports [level] of every feature. *)
Definition fallthrough_config : Config :=
  mk_config
    [mk_source ditto_url
       [{| tr_thing_id := lit "plc"; tr_downtime := past_window;
           tr_features := [{| fr_feature_id := lit "valve";
                              fr_properties := [lit "open"] |}] |};
        {| tr_thing_id := lit "*"; tr_downtime := past_window;
           tr_features := [{| fr_feature_id := lit "*";
                              fr_properties := [lit "level"] |}] |}]].

(** A wildcard rule declared before an exact rule for [plc]. *)
Definition wildcard_first_config : Config :=
  mk_config
    [mk_source ditto_url
       [{| tr_thing_id := lit "*"; tr_downtime := past_window;
           tr_features := [{| fr_feature_id := lit "*";
                              fr_properties := [lit "level"] |}] |};
        {| tr_thing_id := lit "plc"; tr_downtime := past_window;
           tr_features := [{| fr_feature_id := lit "valve";
                              fr_properties := [lit "open"] |}] |}]].

(** A rule for [plc] with no [downtime] block. *)
Definition no_downtime_config : Config :=
  mk_config
    [mk_source ditto_url
       [{| tr_thing_id := lit "plc"; tr_downtime := None;
           tr_features := [{| fr_feature_id := lit "valve";
                              fr_properties := [lit "open"] |}] |}]].

(** A rule for [plc] whose downtime window is open. *)
Definition downtime_config : Config :=
  mk_config
    [mk_source ditto_url
       [{| tr_thing_id := lit "plc"; tr_downtime := open_window;
           tr_features := [{| fr_feature_id := lit "*";
                              fr_properties := [lit "*"] |}] |}]].

(** ** JSON values and [json.dumps(payload, sort_keys=True)] *)

(** A decoded JSON document.  A [dict] keeps its items in insertion order and
    its keys are strings, pairwise distinct.  A float is held by the text
    [repr] gives for it, which is what the encoder writes. *)
Unset Elimination Schemes.
Inductive json : Type :=
| JNull
| JBool (b : bool)
| JInt (n : Z)
| JFloat (repr : str)
| JStr (s : str)
| JList (items : list json)
| JDict (items : list (str * json)).
Set Elimination Schemes.

(** The properties of a feature: a [dict] from property name to value. *)
Definition props := list (str * json).

Definition keys {V} (d : list (str * V)) : list str := map fst d.

(** [key in d] *)
Definition has_key {V} (key : str) (d : list (str * V)) : bool :=
  str_in key (keys d).

(** [d.get(key)] *)
Fixpoint dict_get {V} (key : str) (d : list (str * V)) : option V :=
  match d with
  | [] => None
  | (k, v) :: rest => if str_eqb k key then Some v else dict_get key rest
  end.

(** Truth value of a JSON value, as [not v] tests it. *)
Definition truthy (v : json) : bool :=
  match v with
  | JNull => false
  | JBool b => b
  | JInt n => negb (n =? 0)
  | JFloat r => negb (str_eqb r (lit "0.0") || str_eqb r (lit "-0.0"))
  | JStr s => match s with [] => false | _ => true end
  | JList l => match l with [] => false | _ => true end
  | JDict d => match d with [] => false | _ => true end
  end.

Module Json.

(** Order of two strings: code point by code point. *)
Fixpoint str_compare (a b : str) : comparison :=
  match a, b with
  | [], [] => Eq
  | [], _ :: _ => Lt
  | _ :: _, [] => Gt
  | x :: a', y :: b' =>
      match x ?= y with
      | Eq => str_compare a' b'
      | c => c
      end
  end.

Definition str_ltb (a b : str) : bool :=
  match str_compare a b with
  | Lt => true
  | _ => false
  end.

(** [sorted(dct.items())] on items with distinct keys: a stable insertion
    sort on the keys. *)
Fixpoint insert_item {V} (kv : str * V) (l : list (str * V))
  : list (str * V) :=
  match l with
  | [] => [kv]
  | h :: t =>
      if str_ltb (fst h) (fst kv) then h :: insert_item kv t
      else kv :: h :: t
  end.

Fixpoint sort_items {V} (l : list (str * V)) : list (str * V) :=
  match l with
  | [] => []
  | kv :: rest => insert_item kv (sort_items rest)
  end.

(** [sep.join(parts)] *)
Fixpoint join (sep : str) (parts : list str) : str :=
  match parts with
  | [] => []
  | [p] => p
  | p :: rest => p ++ sep ++ join sep rest
  end.

Definition hex_digit (d : Z) : Z := if d <? 10 then 48 + d else 87 + d.

(** ['{0:04x}'.format(n)] *)
Definition hex4 (n : Z) : str :=
  [hex_digit ((n / 4096) mod 16); hex_digit ((n / 256) mod 16);
   hex_digit ((n / 16) mod 16); hex_digit (n mod 16)].

(** [\uXXXX] *)
Definition u_escape (n : Z) : str := [92; 117] ++ hex4 n.

(** The replacement of one code point by [py_encode_basestring_ascii]:
    printable ASCII stays, the quote, the backslash and the short control
    escapes get a backslash, everything else becomes [\uXXXX], as a
    surrogate pair above the basic plane. *)
Definition escape_cp (c : Z) : str :=
  if c =? 34 then [92; 34]
  else if c =? 92 then [92; 92]
  else if c =? 8 then [92; 98]
  else if c =? 12 then [92; 102]
  else if c =? 10 then [92; 110]
  else if c =? 13 then [92; 114]
  else if c =? 9 then [92; 116]
  else if (32 <=? c) && (c <=? 126) then [c]
  else if c <? 65536 then u_escape c
  else
    let n := c - 65536 in
    u_escape (Z.lor 55296 (Z.land (Z.shiftr n 10) 1023))
    ++ u_escape (Z.lor 56320 (Z.land n 1023)).

Definition encode_basestring_ascii (s : str) : str :=
  [34] ++ flat_map escape_cp s ++ [34].

(** [int.__repr__] *)
Definition int_repr (n : Z) : str :=
  lit (NilZero.string_of_int (Z.to_int n)).

(** [json.dumps(v, sort_keys=True)] with the default separators and
    [ensure_ascii].  The items of a [dict] are rendered, then put in key
    order. *)
Fixpoint dumps (v : json) : str :=
  match v with
  | JNull => lit "null"
  | JBool true => lit "true"
  | JBool false => lit "false"
  | JInt n => int_repr n
  | JFloat r => r
  | JStr s => encode_basestring_ascii s
  | JList items => lit "[" ++ join (lit ", ") (map dumps items) ++ lit "]"
  | JDict items =>
      lit "{"
      ++ join (lit ", ")
           (map (fun kv => encode_basestring_ascii (fst kv) ++ lit ": "
                           ++ snd kv)
              (sort_items
                 (map (fun kv => match kv with (k, x) => (k, dumps x) end)
                    items)))
      ++ lit "}"
  end.

End Json.

(** *** The signed payload, on both sides *)

(** sign.py line 9: [json.dumps(payload, sort_keys=True).encode('utf-8')] *)
Definition signer_payload_bytes (payload : props) : result bytes :=
  Codec.utf8_encode (Json.dumps (JDict payload)).

(** exporter.py line 86: the properties without the [signature] key. *)
Definition without_signature (feature_data : props) : props :=
  filter (fun kv => negb (str_eqb (fst kv) (lit "signature"))) feature_data.

(** exporter.py lines 86-87 *)
Definition verifier_payload_bytes (feature_data : props) : result bytes :=
  Codec.utf8_encode (Json.dumps (JDict (without_signature feature_data))).

(** The payload a valve signs (valve.py lines 28-30), before and after the
    signature is stored in it, and the same bundle in another key order. *)
Definition valve_payload : props :=
  [(lit "open", JBool true);
   (lit "timestamp", JStr (lit "2025-06-01T12:00:00"))].

Definition valve_bundle : props :=
  [(lit "open", JBool true);
   (lit "timestamp", JStr (lit "2025-06-01T12:00:00"));
   (lit "signature", JStr (lit "c2ln"))].

Definition valve_bundle_reordered : props :=
  [(lit "timestamp", JStr (lit "2025-06-01T12:00:00"));
   (lit "signature", JStr (lit "c2ln"));
   (lit "open", JBool true)].

(** ** Signature gate: [verify_feature_signature] *)

(** The details of a feature as the source registry reports them: a JSON
    object whose [properties] key may be absent. *)
Record Feature : Type := {
  f_properties : option props
}.

(** What the gate takes from the Python libraries and the file system; the
    gate is verified for every behaviour of them. *)
Class Crypto : Type := {
  public_key : Type;
  (* base64.b64decode(signature_b64) *)
  b64decode : json -> result bytes;
  (* os.path.exists(public_key_path) *)
  path_exists : str -> bool;
  (* open(public_key_path, "rb").read() *)
  read_file : str -> result bytes;
  (* serialization.load_pem_public_key(data) *)
  load_pem_public_key : bytes -> result public_key;
  (* public_key.verify(signature, payload_bytes, PSS(MGF1(SHA256), MAX_LENGTH),
     SHA256), which raises InvalidSignature on a mismatch *)
  pss_verify : public_key -> bytes -> bytes -> result unit
}.

Section Gate.

Context {crypto : Crypto}.

Definition signature_key : str := lit "signature".

(** [feature_data.get("signature")]: [None] when the key is absent. *)
Definition signature_of (feature_data : props) : json :=
  match dict_get signature_key feature_data with
  | Some v => v
  | None => JNull
  end.

(** Lines 75-116, the body of the outer [try]. *)
Definition verify_body (feature_data : Feature) (public_key_path : str)
  : result bool :=
  (feature_data <- match f_properties feature_data with
                   | Some p => Ok p
                   | None => Raise KeyError
                   end ;;
   if negb (has_key signature_key feature_data) then Ok false
   else
     let signature_b64 := signature_of feature_data in
     if negb (truthy signature_b64) then Ok false
     else
       payload_bytes <- verifier_payload_bytes feature_data ;;
       match b64decode signature_b64 with
       | Raise _ => Ok false
       | Ok signature =>
           if negb (path_exists public_key_path) then Ok false
           else
             key_data <- read_file public_key_path ;;
             public_key <- load_pem_public_key key_data ;;
             _ <- pss_verify public_key signature payload_bytes ;;
             Ok true
       end)%result.

(** Lines 72-121: [try: ... except Exception: return False]. *)
Definition verify_feature_signature (feature_data : Feature)
  (public_key_path : str) : result bool :=
  try_except (verify_body feature_data public_key_path)
             (fun _ => Ok false).

(** The ways a verification can fail. *)
Inductive failure (feature_data : Feature) (public_key_path : str) : Prop :=
| no_properties :
    f_properties feature_data = None ->
    failure feature_data public_key_path
| missing_signature p :
    f_properties feature_data = Some p ->
    has_key signature_key p = false ->
    failure feature_data public_key_path
| empty_signature p :
    f_properties feature_data = Some p ->
    truthy (signature_of p) = false ->
    failure feature_data public_key_path
| unserializable_payload p e :
    f_properties feature_data = Some p ->
    verifier_payload_bytes p = Raise e ->
    failure feature_data public_key_path
| malformed_base64 p e :
    f_properties feature_data = Some p ->
    b64decode (signature_of p) = Raise e ->
    failure feature_data public_key_path
| missing_key_file :
    path_exists public_key_path = false ->
    failure feature_data public_key_path
| unreadable_key_file e :
    read_file public_key_path = Raise e ->
    failure feature_data public_key_path
| unparsable_key key_data e :
    read_file public_key_path = Ok key_data ->
    load_pem_public_key key_data = Raise e ->
    failure feature_data public_key_path
| cryptographic_mismatch p payload_bytes signature key_data key e :
    f_properties feature_data = Some p ->
    verifier_payload_bytes p = Ok payload_bytes ->
    b64decode (signature_of p) = Ok signature ->
    read_file public_key_path = Ok key_data ->
    load_pem_public_key key_data = Ok key ->
    pss_verify key signature payload_bytes = Raise e ->
    failure feature_data public_key_path.

End Gate.

(** *** A stand-in for the libraries, for examples

    The key file [public_key.pem] exists and holds the key [k]; a signature
    is the text of a JSON string, taken as it is; a key accepts the signature
    [sig] on every payload and no other. *)
Definition toy_crypto : Crypto :=
  {| public_key := bytes;
     b64decode := fun v => match v with
                           | JStr s => Ok s
                           | _ => Raise TypeError
                           end;
     path_exists := fun p => str_eqb p (lit "public_key.pem");
     read_file := fun p => if str_eqb p (lit "public_key.pem")
                           then Ok (lit "k") else Raise OSError;
     load_pem_public_key := fun d => Ok d;
     pss_verify := fun _ signature _ =>
                     if str_eqb signature (lit "sig") then Ok tt
                     else Raise InvalidSignature |}.

Definition signed_feature : Feature :=
  {| f_properties := Some [(lit "open", JBool true);
                           (lit "signature", JStr (lit "sig"))] |}.

Definition unsigned_feature : Feature :=
  {| f_properties := Some [(lit "open", JBool true)] |}.

Definition forged_feature : Feature :=
  {| f_properties := Some [(lit "open", JBool true);
                           (lit "signature", JStr (lit "bad"))] |}.

(** ** The two registries, over HTTP *)

Inductive method : Type := GET | POST | PATCH | DELETE.

(** The JSON bodies the exporter sends; each is determined by the values
    listed. *)
Inductive payload : Type :=
| ShellPayload (thing_id : str)                      (* lines 146-153 *)
| SubmodelPayload (submodel_id : str)                (* lines 331-338 *)
| ReferencePayload (submodel_id : str)               (* lines 346-349 *)
| PropertyPayload (element_id : str) (value : json)  (* lines 375-380 *)
| ValuePayload (value : json).                       (* line 386 *)

Record request : Type := {
  rq_method : method;
  rq_url : str;
  rq_authorization : option str;   (* the Authorization header, if any *)
  rq_json : option payload
}.

(** A thing of the source registry; [thingId] is [thing.get("thingId")]. *)
Record Thing : Type := {
  thingId : str
}.

(** The features of a thing: a [dict] from feature id to details. *)
Definition features_dict := list (str * Feature).

(** What [response.json()] gives. *)
Inductive content : Type :=
| Things (things : list Thing)
| Features (features : features_dict)
| Other.

Record response : Type := {
  status_code : Z;
  rs_json : content
}.

(** The network: the answer to a request, given the requests sent before it
    (oldest first); [requests] raises when there is no answer. *)
Class Network : Type :=
  send : list request -> request -> result response.

(** A computation that talks to the network: it starts from the requests sent
    so far and ends with a value or an exception, and the requests sent. *)
Definition io (A : Type) : Type := list request -> result A * list request.

Definition ret {A} (a : A) : io A := fun tr => (Ok a, tr).

Definition bind {A B} (m : io A) (k : A -> io B) : io B :=
  fun tr =>
    match m tr with
    | (Ok a, tr') => k a tr'
    | (Raise e, tr') => (Raise e, tr')
    end.

(** An expression without network access, inside a computation. *)
Definition lift {A} (r : result A) : io A := fun tr => (r, tr).

(** [try: m  except Exception as e: h e] *)
Definition try_io {A} (m : io A) (h : exn -> io A) : io A :=
  fun tr =>
    match m tr with
    | (Ok a, tr') => (Ok a, tr')
    | (Raise e, tr') => h e tr'
    end.

Declare Scope io_scope.
Delimit Scope io_scope with io.
Notation "x <- m ;; k" := (bind m (fun x => k))
  (at level 61, m at next level, right associativity) : io_scope.
Notation "m ;; k" := (bind m (fun _ => k))
  (at level 61, right associativity) : io_scope.

(** [response.raise_for_status()] *)
Definition raise_for_status (r : response) : result unit :=
  if (400 <=? status_code r) && (status_code r <? 600) then Raise HTTPError
  else Ok tt.

(** Truth value of a [Response]: [response.ok]. *)
Definition response_ok (r : response) : bool :=
  match raise_for_status r with
  | Ok _ => true
  | Raise _ => false
  end.

(** Truth value of what [get_basyx_shell] and [get_basyx_submodel] return. *)
Definition found (r : option response) : bool :=
  match r with
  | Some r => response_ok r
  | None => false
  end.

(** [{"Authorization": auth_header} if auth_header else {}] *)
Definition headers_of (auth_header : str) : option str :=
  match auth_header with
  | [] => None
  | _ => Some auth_header
  end.

(** [f"{thing_id}:{feature_id}"] *)
Definition submodel_id_of (thing_id feature_id : str) : str :=
  thing_id ++ lit ":" ++ feature_id.

Section Registry.

Context {network : Network}.

(** [requests.get], [requests.post], [requests.patch], [requests.delete] *)
Definition http (r : request) : io response :=
  fun tr => (send tr r, tr ++ [r]).

Definition requests_get (url : str) (headers : option str) : io response :=
  http {| rq_method := GET; rq_url := url; rq_authorization := headers;
          rq_json := None |}.

Definition requests_post (url : str) (json : payload) : io response :=
  http {| rq_method := POST; rq_url := url; rq_authorization := None;
          rq_json := Some json |}.

Definition requests_patch (url : str) (json : payload) : io response :=
  http {| rq_method := PATCH; rq_url := url; rq_authorization := None;
          rq_json := Some json |}.

Definition requests_delete (url : str) : io response :=
  http {| rq_method := DELETE; rq_url := url; rq_authorization := None;
          rq_json := None |}.

(** Lines 124-131.  A body that is not a list of things makes the loop over
    it raise. *)
Definition get_ditto_things (source_url : str) (headers : option str)
  : io (list Thing) :=
  (response <- requests_get (source_url ++ lit "/things") headers ;;
   lift (raise_for_status response) ;;
   match rs_json response with
   | Things things => ret things
   | _ => lift (Raise AttributeError)
   end)%io.

(** Lines 356-361 *)
Definition get_ditto_features (thing_id source_url : str)
  (headers : option str) : io features_dict :=
  (response <- requests_get
                 (source_url ++ lit "/things/" ++ thing_id ++ lit "/features")
                 headers ;;
   lift (raise_for_status response) ;;
   match rs_json response with
   | Features features => ret features
   | _ => lift (Raise AttributeError)
   end)%io.

(** Lines 134-141 *)
Definition get_basyx_shell (thing_id basyx_url : str)
  : io (option response) :=
  (encoded <- lift (Codec.encode_id thing_id) ;;
   response <- requests_get (basyx_url ++ lit "/shells/" ++ encoded) None ;;
   ret (if status_code response =? 404 then None else Some response))%io.

(** Lines 144-159 *)
Definition create_basyx_shell (thing_id basyx_url : str) : io unit :=
  (response <- requests_post (basyx_url ++ lit "/shells")
                 (ShellPayload thing_id) ;;
   lift (raise_for_status response))%io.

(** Lines 162-167 *)
Definition get_basyx_submodel (submodel_id basyx_url : str)
  : io (option response) :=
  (encoded <- lift (Codec.encode_id submodel_id) ;;
   response <- requests_get (basyx_url ++ lit "/submodels/" ++ encoded)
                 None ;;
   ret (if status_code response =? 404 then None else Some response))%io.

(** Lines 326-353 *)
Definition create_basyx_submodel (thing_id submodel_id basyx_url : str)
  : io unit :=
  (response <- requests_post (basyx_url ++ lit "/submodels")
                 (SubmodelPayload submodel_id) ;;
   lift (raise_for_status response) ;;
   encoded_shell <- lift (Codec.encode_id thing_id) ;;
   link_response <- requests_post
                      (basyx_url ++ lit "/shells/" ++ encoded_shell
                       ++ lit "/submodel-refs")
                      (ReferencePayload submodel_id) ;;
   lift (raise_for_status link_response))%io.

(** Lines 170-181 *)
Definition delete_basyx_shell (thing_id basyx_url : str) : io bool :=
  try_io
    (encoded <- lift (Codec.encode_id thing_id) ;;
     response <- requests_delete (basyx_url ++ lit "/shells/" ++ encoded) ;;
     ret (status_code response =? 200))%io
    (fun _ => ret false).

(** Lines 184-195 *)
Definition delete_basyx_submodel (submodel_id basyx_url : str) : io bool :=
  try_io
    (encoded <- lift (Codec.encode_id submodel_id) ;;
     response <- requests_delete
                   (basyx_url ++ lit "/submodels/" ++ encoded) ;;
     ret (status_code response =? 200))%io
    (fun _ => ret false).

(** Lines 198-209 *)
Definition delete_basyx_element (submodel_id element_id basyx_url : str)
  : io bool :=
  try_io
    (encoded_submodel <- lift (Codec.encode_id submodel_id) ;;
     response <- requests_delete
                   (basyx_url ++ lit "/submodels/" ++ encoded_submodel
                    ++ lit "/submodel-elements/" ++ element_id) ;;
     ret (status_code response =? 200))%io
    (fun _ => ret false).

(** Lines 364-387 *)
Definition update_basyx_element (submodel_id element_id : str) (value : json)
  (basyx_url : str) : io unit :=
  (encoded_submodel <- lift (Codec.encode_id submodel_id) ;;
   response <- requests_get
                 (basyx_url ++ lit "/submodels/" ++ encoded_submodel
                  ++ lit "/submodel-elements/" ++ element_id) None ;;
   if status_code response =? 404 then
     created <- requests_post
                  (basyx_url ++ lit "/submodels/" ++ encoded_submodel
                   ++ lit "/submodel-elements")
                  (PropertyPayload element_id value) ;;
     lift (raise_for_status created)
   else
     updated <- requests_patch
                  (basyx_url ++ lit "/submodels/" ++ encoded_submodel
                   ++ lit "/submodel-elements/" ++ element_id
                   ++ lit "/$value")
                  (ValuePayload value) ;;
     lift (raise_for_status updated))%io.

End Registry.

(** *** The requests a computation sends *)

(** The requests [m] adds when it starts after [tr]. *)
Definition sent_by {A} (m : io A) (tr : list request) : list request :=
  skipn (List.length tr) (snd (m tr)).

(** [m] only adds requests, and each request it adds satisfies [P]. *)
Definition sends {A} (P : request -> Prop) (m : io A) : Prop :=
  forall tr, snd (m tr) = tr ++ sent_by m tr /\ Forall P (sent_by m tr).

Definition delete_request (url : str) : request :=
  {| rq_method := DELETE; rq_url := url; rq_authorization := None;
     rq_json := None |}.

(** A request that writes or removes an element, or removes a shell or a
    submodel. *)
Definition writes_element_or_deletes (r : request) : bool :=
  match rq_method r, rq_json r with
  | DELETE, _ => true
  | PATCH, _ => true
  | _, Some (PropertyPayload _ _) => true
  | _, Some (ValuePayload _) => true
  | _, _ => false
  end.


(** Classes of requests. *)
Definition any_request (r : request) : Prop := True.
Definition only_get (r : request) : Prop := rq_method r = GET.
Definition harmless (r : request) : Prop :=
  writes_element_or_deletes r = false.
Definition no_delete (r : request) : Prop := rq_method r <> DELETE.


Section Deleted.

Context {network : Network}.

(** What a delete returns: [True] exactly when the answer has status 200. *)
Definition deleted (tr : list request) (url : result str) : bool :=
  match url with
  | Ok url =>
      match send tr (delete_request url) with
      | Ok response => status_code response =? 200
      | Raise _ => false
      end
  | Raise _ => false
  end.

Definition shell_url (basyx_url thing_id : str) : result str :=
  (encoded <- Codec.encode_id thing_id ;;
   Ok (basyx_url ++ lit "/shells/" ++ encoded))%result.

Definition submodel_url (basyx_url submodel_id : str) : result str :=
  (encoded <- Codec.encode_id submodel_id ;;
   Ok (basyx_url ++ lit "/submodels/" ++ encoded))%result.

Definition element_url (basyx_url submodel_id element_id : str)
  : result str :=
  (encoded <- Codec.encode_id submodel_id ;;
   Ok (basyx_url ++ lit "/submodels/" ++ encoded
       ++ lit "/submodel-elements/" ++ element_id))%result.

(** The requests a delete sends: one, when the identifier can be encoded. *)
Definition delete_sent (url : result str) : list request :=
  match url with
  | Ok url => [delete_request url]
  | Raise _ => []
  end.

End Deleted.

(** ** Cleanup pass: [cleanup_basyx_resources] *)

(** An entry of [items_to_remove]: [('shell', id)] or [('submodel', id)]. *)
Inductive item : Type :=
| ShellItem (thing_id : str)
| SubmodelItem (submodel_id : str).

(** An entry of [elements_to_remove]: [(submodel_id, prop_name)]. *)
Definition element_ref : Type := str * str.

(** The url of an item of [items_to_remove]. *)
Definition item_url (basyx_url : str) (i : item) : result str :=
  match i with
  | ShellItem thing_id => shell_url basyx_url thing_id
  | SubmodelItem submodel_id => submodel_url basyx_url submodel_id
  end.

(** The two lists the pass fills before it deletes anything. *)
Definition queues : Type := list item * list element_ref.

Definition enqueue (q new : queues) : queues :=
  (fst q ++ fst new, snd q ++ snd new).

(** [feature_details.get("properties", {})] *)
Definition properties_of (feature_details : Feature) : props :=
  match f_properties feature_details with
  | Some p => p
  | None => []
  end.

(** [if not basyx_url]: the url is absent or empty. *)
Definition basyx_url_of (config : Config) : option str :=
  match cfg_basyx_url config with
  | Some (c :: url) => Some (c :: url)
  | _ => None
  end.

(** Lines 293-299: the elements of a configured feature to remove. *)
Definition filtered_out_elements (submodel_id : str) (all_properties : props)
  (properties_to_export : list str) : list element_ref :=
  if str_in (lit "*") properties_to_export then []
  else
    map (fun prop_name => (submodel_id, prop_name))
      (filter (fun prop_name => negb (str_in prop_name properties_to_export))
         (keys all_properties)).

Section Cleanup.

Context {parser : IsoParser} {network : Network}.

Variable now : Z.
Variable config : Config.

(** Lines 259-266: does any feature of the thing resolve to a selector?  The
    loop stops at the first one that does. *)
Fixpoint thing_has_exports (source_url thing_id : str)
  (features : features_dict) : result bool :=
  match features with
  | [] => Ok false
  | (feature_id, _) :: rest =>
      (properties_to_export <-
         get_export_config now source_url thing_id feature_id config ;;
       match properties_to_export with
       | Some _ => Ok true
       | None => thing_has_exports source_url thing_id rest
       end)%result
  end.

(** Lines 280-299: the thing has exports; each feature is looked at. *)
Fixpoint check_features (source_url thing_id : str)
  (features : features_dict) : result queues :=
  match features with
  | [] => Ok ([], [])
  | (feature_id, feature_details) :: rest =>
      (properties_to_export <-
         get_export_config now source_url thing_id feature_id config ;;
       let submodel_id := submodel_id_of thing_id feature_id in
       let found_here :=
         match properties_to_export with
         | None => ([SubmodelItem submodel_id], [])
         | Some properties_to_export =>
             ([], filtered_out_elements submodel_id
                    (properties_of feature_details) properties_to_export)
         end in
       later <- check_features source_url thing_id rest ;;
       Ok (enqueue found_here later))%result
  end.

(** Lines 258-299: what one thing adds to the two lists. *)
Definition cleanup_thing (source_url thing_id : str)
  (features : features_dict) : result queues :=
  (has_exports <- thing_has_exports source_url thing_id features ;;
   if negb has_exports then
     Ok (ShellItem thing_id
         :: map (fun f => SubmodelItem (submodel_id_of thing_id (fst f)))
              features,
         [])
   else check_features source_url thing_id features)%result.

(** Lines 253-299: the loop over the things of one source. *)
Fixpoint cleanup_things (source_url : str) (headers : option str)
  (things : list Thing) (q : queues) : io queues :=
  match things with
  | [] => ret q
  | thing :: rest =>
      match thingId thing with
      | [] => cleanup_things source_url headers rest q
      | thing_id =>
          (features <- get_ditto_features thing_id source_url headers ;;
           new <- lift (cleanup_thing source_url thing_id features) ;;
           cleanup_things source_url headers rest (enqueue q new))%io
      end
  end.

(** Lines 243-299: the loop over the sources. *)
Fixpoint cleanup_sources (sources : list SourceRule) (q : queues)
  : io queues :=
  match sources with
  | [] => ret q
  | source_config :: rest =>
      let source_url := sr_source_url source_config in
      let headers := headers_of (sr_auth_header source_config) in
      (things <- get_ditto_things source_url headers ;;
       q' <- cleanup_things source_url headers things q ;;
       cleanup_sources rest q')%io
  end.

(** Lines 306-312: the shells and submodels are deleted and counted. *)
Fixpoint delete_items (basyx_url : str) (items : list item)
  (deleted : Z * Z) : io (Z * Z) :=
  match items with
  | [] => ret deleted
  | ShellItem item_id :: rest =>
      (ok <- delete_basyx_shell item_id basyx_url ;;
       delete_items basyx_url rest
         (if ok then (fst deleted + 1, snd deleted) else deleted))%io
  | SubmodelItem item_id :: rest =>
      (ok <- delete_basyx_submodel item_id basyx_url ;;
       delete_items basyx_url rest
         (if ok then (fst deleted, snd deleted + 1) else deleted))%io
  end.

(** Lines 315-317 *)
Fixpoint delete_elements (basyx_url : str) (elements : list element_ref)
  (deleted : Z) : io Z :=
  match elements with
  | [] => ret deleted
  | (submodel_id, element_id) :: rest =>
      (ok <- delete_basyx_element submodel_id element_id basyx_url ;;
       delete_elements basyx_url rest
         (if ok then deleted + 1 else deleted))%io
  end.

(** Lines 301-319: the numbers of shells, submodels and elements removed, as
    the pass prints them. *)
Definition run_deletions (basyx_url : str) (q : queues) : io (Z * Z * Z) :=
  (deleted <- delete_items basyx_url (fst q) (0, 0) ;;
   elements_deleted <- delete_elements basyx_url (snd q) 0 ;;
   ret (deleted, elements_deleted))%io.

(** Lines 226-323 *)
Definition cleanup_basyx_resources : io unit :=
  match basyx_url_of config with
  | None => ret tt
  | Some basyx_url =>
      try_io
        (q <- cleanup_sources (cfg_sources config) ([], []) ;;
         run_deletions basyx_url q ;;
         ret tt)%io
        (fun _ => ret tt)
  end.

End Cleanup.

(** ** Reconciliation pass: the body of the main loop *)

(** Lines 462-469 *)
Definition filter_properties (all_properties : props)
  (properties_to_export : list str) : props :=
  if str_in (lit "*") properties_to_export then all_properties
  else filter (fun kv => str_in (fst kv) properties_to_export) all_properties.

Section ExportPass.

Context {parser : IsoParser} {crypto : Crypto} {network : Network}.

Variable now : Z.
Variable config : Config.

(** Lines 472-473 *)
Fixpoint update_elements (submodel_id basyx_url : str)
  (filtered_properties : props) : io unit :=
  match filtered_properties with
  | [] => ret tt
  | (key, value) :: rest =>
      (update_basyx_element submodel_id key value basyx_url ;;
       update_elements submodel_id basyx_url rest)%io
  end.

(** Lines 438-449: the shell, on the first exported feature of the thing,
    and the submodel are created when they are not found. *)
Definition ensure_targets (thing_id feature_id basyx_url : str)
  (thing_has_exports : bool) : io unit :=
  ((if negb thing_has_exports then
      shell <- get_basyx_shell thing_id basyx_url ;;
      if negb (found shell) then create_basyx_shell thing_id basyx_url
      else ret tt
    else ret tt) ;;
   let submodel_id := submodel_id_of thing_id feature_id in
   submodel <- get_basyx_submodel submodel_id basyx_url ;;
   if negb (found submodel)
   then create_basyx_submodel thing_id submodel_id basyx_url
   else ret tt)%io.

(** Lines 453-459: the gate, when verification is enabled. *)
Definition gate (feature_details : Feature) : io bool :=
  if cfg_verify_signatures config then
    lift (verify_feature_signature feature_details
            (cfg_public_key_path config))
  else ret true.

(** Lines 432-479: one iteration of the loop over the features of a thing;
    the value is [thing_has_exports] after it. *)
Definition export_feature (basyx_url source_url thing_id : str)
  (thing_has_exports : bool) (feature : str * Feature) : io bool :=
  let (feature_id, feature_details) := feature in
  (properties_to_export <-
     lift (get_export_config now source_url thing_id feature_id config) ;;
   match properties_to_export with
   | None => ret thing_has_exports
   | Some properties_to_export =>
       ensure_targets thing_id feature_id basyx_url thing_has_exports ;;
       verified <- gate feature_details ;;
       if negb verified then ret true
       else
         update_elements (submodel_id_of thing_id feature_id) basyx_url
           (filter_properties (properties_of feature_details)
              properties_to_export) ;;
         ret true
   end)%io.

Fixpoint export_features (basyx_url source_url thing_id : str)
  (thing_has_exports : bool) (features : features_dict) : io unit :=
  match features with
  | [] => ret tt
  | feature :: rest =>
      (has <- export_feature basyx_url source_url thing_id
                thing_has_exports feature ;;
       export_features basyx_url source_url thing_id has rest)%io
  end.

(** Lines 420-479: the loop over the things of one source. *)
Fixpoint export_things (basyx_url source_url : str) (headers : option str)
  (things : list Thing) : io unit :=
  match things with
  | [] => ret tt
  | thing :: rest =>
      let thing_id := thingId thing in
      (features <- get_ditto_features thing_id source_url headers ;;
       export_features basyx_url source_url thing_id false features ;;
       export_things basyx_url source_url headers rest)%io
  end.

(** Lines 411-483: one source, inside its own [try]. *)
Definition export_source (basyx_url : str) (source_config : SourceRule)
  : io unit :=
  let source_url := sr_source_url source_config in
  let headers := headers_of (sr_auth_header source_config) in
  try_io
    (things <- get_ditto_things source_url headers ;;
     export_things basyx_url source_url headers things)%io
    (fun _ => ret tt).

(** Lines 410-483 *)
Fixpoint export_sources (basyx_url : str) (sources : list SourceRule)
  : io unit :=
  match sources with
  | [] => ret tt
  | source_config :: rest =>
      (export_source basyx_url source_config ;;
       export_sources basyx_url rest)%io
  end.

(** Lines 392-483: one turn of the main loop, with the configuration
    [load_config] gave: the cleanup, then the export to the target registry
    when its url is configured. *)
Definition cycle : io unit :=
  (cleanup_basyx_resources now config ;;
   match basyx_url_of config with
   | None => ret tt
   | Some basyx_url => export_sources basyx_url (cfg_sources config)
   end)%io.

(** The request that lists the things of a source. *)
Definition things_request (source_config : SourceRule) : request :=
  {| rq_method := GET;
     rq_url := sr_source_url source_config ++ lit "/things";
     rq_authorization := headers_of (sr_auth_header source_config);
     rq_json := None |}.

End ExportPass.

(** ** Sample registries and policies for the examples *)

(** A target registry that answers every request with the same status. *)
Definition answering (status : Z) : Network :=
  fun _ _ => Ok {| status_code := status; rs_json := Other |}.

(** A target registry that holds nothing yet and accepts what it is sent:
    every lookup is answered 404, every other request 200. *)
Definition empty_target : Network :=
  fun _ r =>
    match rq_method r with
    | GET => Ok {| status_code := 404; rs_json := Other |}
    | _ => Ok {| status_code := 200; rs_json := Other |}
    end.

Definition basyx : str := lit "http://basyx:8081".

Definition source_a_url : str := lit "http://ditto-a/api/2".
Definition source_b_url : str := lit "http://ditto-b/api/2".

Definition export_everything : list ThingRule :=
  [{| tr_thing_id := lit "*"; tr_downtime := past_window;
      tr_features := [{| fr_feature_id := lit "*";
                         fr_properties := [lit "*"] |}] |}].

Definition source_a : SourceRule := mk_source source_a_url export_everything.
Definition source_b : SourceRule := mk_source source_b_url export_everything.

Definition two_sources_config : Config := mk_config [source_a; source_b].

(** Source [a] cannot be reached; every other request is answered with
    status 200 and an empty list of things. *)
Definition source_a_down : Network :=
  fun _ r =>
    if str_eqb (rq_url r) (source_a_url ++ lit "/things")
    then Raise RequestException
    else Ok {| status_code := 200; rs_json := Things [] |}.

(** The live features of thing [plc]: a valve with three properties and a
    pump with one. *)
Definition plc_features : features_dict :=
  [(lit "valve",
    {| f_properties := Some [(lit "open", JBool true);
                             (lit "timestamp",
                              JStr (lit "2025-06-01T12:00:00"));
                             (lit "signature", JStr (lit "c2ln"))] |});
   (lit "pump", {| f_properties := Some [(lit "level", JInt 3)] |})].

(** Only property [open] of feature [valve] of [plc] is exported. *)
Definition valve_only_config : Config :=
  mk_config
    [mk_source ditto_url
       [{| tr_thing_id := lit "plc"; tr_downtime := past_window;
           tr_features := [{| fr_feature_id := lit "valve";
                              fr_properties := [lit "open"] |}] |}]].

(** No rule for [plc] at all. *)
Definition other_thing_config : Config :=
  mk_config
    [mk_source ditto_url
       [{| tr_thing_id := lit "hmi"; tr_downtime := past_window;
           tr_features := [{| fr_feature_id := lit "*";
                              fr_properties := [lit "*"] |}] |}]].

(** Everything is exported and signatures are verified. *)
Definition verifying_config : Config :=
  {| cfg_sources := [mk_source ditto_url export_everything];
     cfg_basyx_url := Some basyx;
     cfg_verify_signatures := true;
     cfg_public_key_path := lit "public_key.pem";
     cfg_log_filtered_items := false |}.

(** ** Further definitions for the properties of the code *)

(** A character that may stand in a path segment of a url as it is: a
    letter, a digit, [-], [_], or the padding [=]. *)
Definition is_urlsafe (c : Z) : bool :=
  ((65 <=? c) && (c <=? 90)) || ((97 <=? c) && (c <=? 122))
  || ((48 <=? c) && (c <=? 57)) || (c =? 45) || (c =? 95) || (c =? 61).

(** A Unicode scalar value: a code point that is not a surrogate. *)
Definition is_scalar (c : Z) : bool :=
  (0 <=? c) && (c <? 1114112) && negb ((55296 <=? c) && (c <=? 57343)).

Definition only_delete (r : request) : Prop := rq_method r = DELETE.

(** A request that creates a shell. *)
Definition creates_shell (r : request) : bool :=
  match rq_json r with
  | Some (ShellPayload _) => true
  | _ => false
  end.

Definition no_shell_creation (r : request) : Prop := creates_shell r = false.

(** The number of shells [m] asks to create when it starts after [tr]. *)
Definition shells_created {A} (m : io A) (tr : list request) : nat :=
  List.length (filter creates_shell (sent_by m tr)).

(** The request that creates element [key] with [value] in a submodel, and
    the one that overwrites its value (exporter.py lines 374-386). *)
Definition create_element_request (basyx_url encoded_submodel key : str)
  (value : json) : request :=
  {| rq_method := POST;
     rq_url := basyx_url ++ lit "/submodels/" ++ encoded_submodel
               ++ lit "/submodel-elements";
     rq_authorization := None;
     rq_json := Some (PropertyPayload key value) |}.

Definition update_element_request (basyx_url encoded_submodel key : str)
  (value : json) : request :=
  {| rq_method := PATCH;
     rq_url := basyx_url ++ lit "/submodels/" ++ encoded_submodel
               ++ lit "/submodel-elements/" ++ key ++ lit "/$value";
     rq_authorization := None;
     rq_json := Some (ValuePayload value) |}.

(** The registries answer every request, and accept every request that is
    not a lookup. *)
Definition accepting (network : Network) : Prop :=
  forall history r,
  exists response,
    send history r = Ok response /\
    (rq_method r <> GET -> response_ok response = true).

Section ExportConfigured.

Context {crypto : Crypto} {network : Network}.

Variable config : Config.

(** What [export_feature] does for a feature that resolves to a selector. *)
Definition export_configured (basyx_url thing_id feature_id : str)
  (has : bool) (fd : Feature) (selector : list str) : io bool :=
  bind (ensure_targets thing_id feature_id basyx_url has)
    (fun _ =>
       bind (gate config fd)
         (fun verified =>
            if negb verified then ret true
            else bind (update_elements (submodel_id_of thing_id feature_id)
                         basyx_url
                         (filter_properties (properties_of fd) selector))
                   (fun _ => ret true))).

End ExportConfigured.

(** *** [load_config] *)

(** The configuration file: whether [os.path.exists(CONFIG_FILE)] holds, and
    what opening and parsing it gives. *)
Class ConfigFile : Type := {
  config_file_exists : bool;
  read_config : result Config
}.

(** [{"data_to_export": {"sources": []}}], read with the defaults of the
    source. *)
Definition fallback_config : Config :=
  {| cfg_sources := [];
     cfg_basyx_url := None;
     cfg_verify_signatures := false;
     cfg_public_key_path := lit "public_key.pem";
     cfg_log_filtered_items := false |}.

Section MainLoop.

Context {parser : IsoParser} {crypto : Crypto} {network : Network}
        {file : ConfigFile}.

(** Lines 16-29 *)
Definition load_config : result Config :=
  try_except
    (if config_file_exists then read_config else Ok fallback_config)
    (fun _ => Ok fallback_config).

(** Lines 391-486: one turn of [while True], without the sleep. *)
Definition main_iteration (now : Z) : io unit :=
  (config <- lift load_config ;; cycle now config)%io.

End MainLoop.

(** A configuration file that exists and cannot be parsed. *)
Definition broken_config_file : ConfigFile :=
  {| config_file_exists := true; read_config := Raise ValueError |}.

(** *** Printable payloads *)

(** A printable ASCII character. *)
Definition printable (c : Z) : bool := (32 <=? c) && (c <=? 126).

Definition all_printable (s : str) : Prop :=
  Forall (fun c => printable c = true) s.

(** The floats of a JSON value are held by printable text, as [repr] gives
    it. *)
Fixpoint floats_printable (v : json) : bool :=
  match v with
  | JFloat r => forallb printable r
  | JList items => forallb floats_printable items
  | JDict items =>
      forallb (fun kv => match kv with (_, x) => floats_printable x end)
        items
  | _ => true
  end.

(** *** The signer: sign.py *)

(** [d[key] = value]: the value of an existing key is replaced where it is,
    a new key goes to the end. *)
Definition dict_set {V} (key : str) (value : V) (d : list (str * V))
  : list (str * V) :=
  if has_key key d
  then map (fun kv => if str_eqb (fst kv) key then (fst kv, value) else kv) d
  else d ++ [(key, value)].

(** What the signer takes from the Python libraries. *)
Class Signer : Type := {
  private_key : Type;
  (* serialization.load_pem_private_key(data, password=None) *)
  load_pem_private_key : bytes -> result private_key;
  (* private_key.sign(payload_bytes, PSS(MGF1(SHA256), MAX_LENGTH), SHA256) *)
  pss_sign : private_key -> bytes -> result bytes;
  (* base64.b64encode(signature).decode('utf-8') *)
  b64encode : bytes -> str
}.

Section Sign.

Context {crypto : Crypto} {signer : Signer}.

(** sign.py lines 6-27; the key file is read through the same file system
    as the verifier's. *)
Definition sign_json_payload (payload : props) (private_key_path : str)
  : result str :=
  (payload_bytes <- signer_payload_bytes payload ;;
   key_data <- read_file private_key_path ;;
   private_key <- load_pem_private_key key_data ;;
   signature <- pss_sign private_key payload_bytes ;;
   Ok (b64encode signature))%result.

(** notifier.py lines 35-36 and valve.py lines 29-30 and 53-54: the message
    gets its timestamp, is signed, and gets its signature. *)
Definition stamp_and_sign (msg : props) (timestamp private_key_path : str)
  : result props :=
  let msg := dict_set (lit "timestamp") (JStr timestamp) msg in
  (signature <- sign_json_payload msg private_key_path ;;
   Ok (dict_set (lit "signature") (JStr signature) msg))%result.

(** valve.py lines 28-30 and 52-54: the properties a valve writes. *)
Definition valve_properties (open : bool) (timestamp private_key_path : str)
  : result props :=
  stamp_and_sign [(lit "open", JBool open)] timestamp private_key_path.

(** The public key at [public_key_path] belongs to the private key at
    [private_key_path]: it accepts the signatures the private key makes, and
    a signature survives its base64 text. *)
Definition key_pair (private_key_path public_key_path : str) : Prop :=
  path_exists public_key_path = true /\
  exists public_data public,
    read_file public_key_path = Ok public_data /\
    load_pem_public_key public_data = Ok public /\
    forall private_data private payload_bytes signature,
      read_file private_key_path = Ok private_data ->
      load_pem_private_key private_data = Ok private ->
      pss_sign private payload_bytes = Ok signature ->
      pss_verify public signature payload_bytes = Ok tt /\
      b64decode (JStr (b64encode signature)) = Ok signature /\
      b64encode signature <> [].

End Sign.

(** A stand-in for a key pair: both key files exist, the private key signs
    every payload with [sig], which the public key accepts. *)
Definition toy_key_files : Crypto :=
  {| public_key := bytes;
     b64decode := fun v => match v with
                           | JStr s => Ok s
                           | _ => Raise TypeError
                           end;
     path_exists := fun p => str_eqb p (lit "public_key.pem")
                             || str_eqb p (lit "private_key.pem");
     read_file := fun p => if str_eqb p (lit "public_key.pem")
                              || str_eqb p (lit "private_key.pem")
                           then Ok p else Raise OSError;
     load_pem_public_key := fun d => Ok d;
     pss_verify := fun _ signature _ =>
                     if str_eqb signature (lit "sig") then Ok tt
                     else Raise InvalidSignature |}.

Definition toy_signer : Signer :=
  {| private_key := bytes;
     load_pem_private_key := fun d => Ok d;
     pss_sign := fun _ _ => Ok (lit "sig");
     b64encode := fun s => s |}.

(** ** The submodel name: exporter.py line 328, attack.py line 121 *)

(** [s.split(":")[-1]]: what follows the last [sep] of [s]; [acc] is what
    has been read since the last [sep]. *)
Fixpoint last_segment (sep : Z) (s acc : str) : str :=
  match s with
  | [] => acc
  | c :: rest =>
      if c =? sep then last_segment sep rest []
      else last_segment sep rest (acc ++ [c])
  end.

(** [submodel_id.split(":")[-1] if ":" in submodel_id else submodel_id] *)
Definition submodel_name (submodel_id : str) : str :=
  if existsb (Z.eqb 58) submodel_id
  then last_segment 58 submodel_id []
  else submodel_id.

(** ** The attack simulator: attack.py *)

Module Attack.

Definition BASYX_URL : str := lit "http://127.0.0.1:8091".
Definition DITTO_URL : str := lit "http://127.0.0.1:8080/api/2".
Definition DITTO_HEADERS : option str := Some (lit "Basic ZGl0dG86ZGl0dG8=").
Definition BASYX_SHELLS_ENDPOINT : str := BASYX_URL ++ lit "/shells".
Definition BASYX_SUBMODELS_ENDPOINT : str := BASYX_URL ++ lit "/submodels".

(** The exceptions [except requests.RequestException] catches. *)
Definition is_request_exception (e : exn) : bool :=
  match e with
  | RequestException | HTTPError => true
  | _ => false
  end.

(** [try: m  except requests.RequestException: h] *)
Definition try_requests {A} (m h : io A) : io A :=
  fun tr =>
    match m tr with
    | (Raise e, tr') =>
        if is_request_exception e then h tr' else (Raise e, tr')
    | r => r
    end.

(** An entry of [attack_targets], read with [.get]: a field is [None] when
    its key is absent. *)
Record Target : Type := {
  tg_thing_id : option str;
  tg_feature_id : option str;
  tg_property_id : option str;
  tg_attack_value : option json
}.

(** The counters of a cycle. *)
Record Results : Type := {
  successful : nat;
  failed : nat;
  total : nat
}.

(** Truth value of [target.get(key)]. *)
Definition given (o : option str) : bool :=
  match o with
  | Some (_ :: _) => true
  | _ => false
  end.

Definition text (o : option str) : str :=
  match o with
  | Some s => s
  | None => []
  end.

(** Line 260: [all([thing_id, feature_id, property_id,
    attack_value is not None])] *)
Definition valid_target (target : Target) : bool :=
  given (tg_thing_id target) && given (tg_feature_id target)
  && given (tg_property_id target)
  && match tg_attack_value target with Some _ => true | None => false end.

Section Simulator.

Context {network : Network}.

(** Lines 74-83 *)
Definition get_basyx_shell (thing_id : str) : io (option response) :=
  try_requests
    (encoded <- lift (Codec.encode_id thing_id) ;;
     response <- requests_get (BASYX_SHELLS_ENDPOINT ++ lit "/" ++ encoded)
                   None ;;
     ret (if status_code response =? 404 then None else Some response))%io
    (ret None).

(** Lines 86-103 *)
Definition create_basyx_shell (thing_id : str) : io bool :=
  try_requests
    (response <- requests_post BASYX_SHELLS_ENDPOINT
                   (ShellPayload thing_id) ;;
     lift (raise_for_status response) ;;
     ret true)%io
    (ret false).

(** Lines 106-115 *)
Definition get_basyx_submodel (submodel_id : str) : io (option response) :=
  try_requests
    (encoded <- lift (Codec.encode_id submodel_id) ;;
     response <- requests_get
                   (BASYX_SUBMODELS_ENDPOINT ++ lit "/" ++ encoded) None ;;
     ret (if status_code response =? 404 then None else Some response))%io
    (ret None).

(** Lines 118-149 *)
Definition create_basyx_submodel (thing_id submodel_id : str) : io bool :=
  try_requests
    (response <- requests_post BASYX_SUBMODELS_ENDPOINT
                   (SubmodelPayload submodel_id) ;;
     lift (raise_for_status response) ;;
     encoded_shell <- lift (Codec.encode_id thing_id) ;;
     link_response <- requests_post
                        (BASYX_SHELLS_ENDPOINT ++ lit "/" ++ encoded_shell
                         ++ lit "/submodel-refs")
                        (ReferencePayload submodel_id) ;;
     lift (raise_for_status link_response) ;;
     ret true)%io
    (ret false).

(** Lines 152-181 *)
Definition update_basyx_element (submodel_id element_id : str)
  (value : json) : io bool :=
  try_requests
    (encoded_submodel <- lift (Codec.encode_id submodel_id) ;;
     response <- requests_get
                   (BASYX_URL ++ lit "/submodels/" ++ encoded_submodel
                    ++ lit "/submodel-elements/" ++ element_id) None ;;
     (if status_code response =? 404 then
        created <- requests_post
                     (BASYX_URL ++ lit "/submodels/" ++ encoded_submodel
                      ++ lit "/submodel-elements")
                     (PropertyPayload element_id value) ;;
        lift (raise_for_status created)
      else
        updated <- requests_patch
                     (BASYX_URL ++ lit "/submodels/" ++ encoded_submodel
                      ++ lit "/submodel-elements/" ++ element_id
                      ++ lit "/$value")
                     (ValuePayload value) ;;
        lift (raise_for_status updated)) ;;
     ret true)%io
    (ret false).

(** Lines 184-191 *)
Definition verify_ditto_thing_exists (thing_id : str) : io bool :=
  try_requests
    (response <- requests_get (DITTO_URL ++ lit "/things/" ++ thing_id)
                   DITTO_HEADERS ;;
     ret (status_code response =? 200))%io
    (ret false).

(** Lines 194-240 *)
Definition simulate_attack (thing_id feature_id property_id : str)
  (value : json) (verify_ditto : bool) : io bool :=
  ((if verify_ditto
    then (_ <- verify_ditto_thing_exists thing_id ;; ret tt)
    else ret tt) ;;
   shell <- get_basyx_shell thing_id ;;
   shell_ready <- (if negb (found shell) then create_basyx_shell thing_id
                   else ret true) ;;
   if negb shell_ready then ret false
   else
     let submodel_id := submodel_id_of thing_id feature_id in
     submodel <- get_basyx_submodel submodel_id ;;
     submodel_ready <- (if negb (found submodel)
                        then create_basyx_submodel thing_id submodel_id
                        else ret true) ;;
     if negb submodel_ready then ret false
     else update_basyx_element submodel_id property_id value)%io.

(** Lines 253-281: one target, inside its [try]; the value tells which of
    the two counters is incremented. *)
Definition attack_target (target : Target) : io bool :=
  try_io
    (if negb (valid_target target) then ret false
     else
       simulate_attack (text (tg_thing_id target))
         (text (tg_feature_id target)) (text (tg_property_id target))
         (match tg_attack_value target with
          | Some v => v
          | None => JNull
          end)
         false)
    (fun _ => ret false).

(** Lines 252-281 *)
Fixpoint attack_targets_loop (targets : list Target) (results : Results)
  : io Results :=
  match targets with
  | [] => ret results
  | target :: rest =>
      (success <- attack_target target ;;
       attack_targets_loop rest
         (if success
          then {| successful := S (successful results);
                  failed := failed results; total := total results |}
          else {| successful := successful results;
                  failed := S (failed results);
                  total := total results |}))%io
  end.

(** Lines 243-284, for the targets of the configuration. *)
Definition execute_attack_cycle (attack_targets : list Target)
  : io Results :=
  attack_targets_loop attack_targets
    {| successful := 0; failed := 0; total := List.length attack_targets |}.

End Simulator.

(** A request that goes to the target registry. *)
Definition to_basyx (r : request) : Prop :=
  exists path, rq_url r = BASYX_URL ++ path.

(** A request the simulator may send: never a deletion, and to the source
    registry only a lookup, when the check of the thing is asked for. *)
Definition allowed (verify_ditto : bool) (r : request) : Prop :=
  rq_method r <> DELETE /\
  (to_basyx r \/ (verify_ditto = true /\ rq_method r = GET)).

(** The target of the embedded configuration (lines 28-48). *)
Definition ATTACK_TARGETS : list Target :=
  [{| tg_thing_id :=
        Some (lit "openplc:103b3864-923d-49d0-8f1c-8c6810a025c3");
      tg_feature_id := Some (lit "coughsyrupvalve");
      tg_property_id := Some (lit "open");
      tg_attack_value := Some (JStr (lit "ABCD")) |}].

End Attack.

(** The request that lists the features of a thing of a source. *)
Definition features_request (source_config : SourceRule) (thing : Thing)
  : request :=
  {| rq_method := GET;
     rq_url := sr_source_url source_config ++ lit "/things/"
               ++ thingId thing ++ lit "/features";
     rq_authorization := headers_of (sr_auth_header source_config);
     rq_json := None |}.

(** A source registry that lists thing [plc] and reports
    [plc_features] for it; every other request is answered 200. *)
Definition ditto_with_plc : Network :=
  fun _ r =>
    if str_eqb (rq_url r) (ditto_url ++ lit "/things")
    then Ok {| status_code := 200;
               rs_json := Things [{| thingId := lit "plc" |}] |}
    else if str_eqb (rq_url r) (ditto_url ++ lit "/things/plc/features")
    then Ok {| status_code := 200; rs_json := Features plc_features |}
    else Ok {| status_code := 200; rs_json := Other |}.

(** * Properties *)

Lemma str_eqb_eq (a b : str) : str_eqb a b = true <-> a = b.
Proof.
  unfold str_eqb. destruct (list_eq_dec Z.eq_dec a b); split; congruence.
Qed.

Lemma str_eqb_refl (a : str) : str_eqb a a = true.
Proof. now apply str_eqb_eq. Qed.

Lemma str_eqb_neq (a b : str) : str_eqb a b = false <-> a <> b.
Proof.
  unfold str_eqb. destruct (list_eq_dec Z.eq_dec a b); split; congruence.
Qed.

Lemma str_in_In (x : str) (l : list str) : str_in x l = true <-> In x l.
Proof.
  unfold str_in. rewrite existsb_exists. split.
  - intros [y [Hy He]]. apply str_eqb_eq in He. now subst.
  - intros H. exists x. split; [assumption | apply str_eqb_refl].
Qed.

Example encode_id_sample :
  Codec.encode_id (lit "valve:open") = Ok (lit "dmFsdmU6b3Blbg==").
Proof. reflexivity. Qed.

Example encode_id_one_byte : Codec.encode_id (lit "a") = Ok (lit "YQ==").
Proof. reflexivity. Qed.

Example encode_id_two_bytes : Codec.encode_id (lit "ab") = Ok (lit "YWI=").
Proof. reflexivity. Qed.

(** U+00E9, U+20AC and U+1F600 take two, three and four bytes. *)
Example encode_id_latin : Codec.encode_id [233] = Ok (lit "w6k=").
Proof. reflexivity. Qed.

Example encode_id_euro : Codec.encode_id [8364] = Ok (lit "4oKs").
Proof. reflexivity. Qed.

Example encode_id_emoji : Codec.encode_id [128512] = Ok (lit "8J-YgA==").
Proof. reflexivity. Qed.

Example encode_id_surrogate :
  Codec.encode_id [55296] = Raise UnicodeEncodeError.
Proof. reflexivity. Qed.

Lemma Ok_inj {A} (a b : A) : Ok a = Ok b -> a = b.
Proof. congruence. Qed.

Lemma cons_inj {A} (a b : A) (l l' : list A) :
  a :: l = b :: l' -> a = b /\ l = l'.
Proof. intros H. injection H. auto. Qed.

(** Equations between lists built with [::] are split into their components
    without reducing the components. *)
Ltac split_cons :=
  repeat match goal with
         | H : _ :: _ = _ :: _ |- _ =>
             apply cons_inj in H; destruct H
         | H : [] = _ :: _ |- _ => discriminate H
         | H : _ :: _ = [] |- _ => discriminate H
         end.

Section CodecFacts.
Import Codec.

(** Setting bits below a multiple of a power of two is an addition. *)
Lemma lor_high_low (n hi x : Z) :
  0 <= n -> 0 <= x < 2 ^ n -> Z.lor (hi * 2 ^ n) x = hi * 2 ^ n + x.
Proof.
  intros Hn Hx.
  rewrite <- (Z.add_lor_land (hi * 2 ^ n) x).
  assert (Hz : Z.land (hi * 2 ^ n) x = 0).
  { apply Z.bits_inj'. intros m Hm.
    rewrite Z.land_spec, Z.bits_0.
    destruct (Z.lt_ge_cases m n) as [Hlt | Hge].
    - rewrite Z.mul_pow2_bits_low by lia. reflexivity.
    - destruct (Z.eq_dec x 0) as [-> | Hx0].
      + rewrite Z.bits_0. apply andb_false_r.
      + rewrite (Z.bits_above_log2 x m); [apply andb_false_r | lia |].
        apply Z.log2_lt_pow2; [lia |].
        apply Z.lt_le_trans with (2 ^ n); [lia |].
        apply Z.pow_le_mono_r; lia. }
  rewrite Hz. lia.
Qed.

Lemma lor_const (k n x : Z) (v : Z) :
  0 <= n -> v = k * 2 ^ n -> 0 <= x < 2 ^ n -> Z.lor v x = v + x.
Proof. intros Hn -> Hx. now apply lor_high_low. Qed.

Lemma land63 (x : Z) : Z.land x 63 = x mod 64.
Proof. change 63 with (Z.ones 6). rewrite Z.land_ones by lia. reflexivity. Qed.

Lemma land15 (x : Z) : Z.land x 15 = x mod 16.
Proof. change 15 with (Z.ones 4). rewrite Z.land_ones by lia. reflexivity. Qed.

Lemma land3 (x : Z) : Z.land x 3 = x mod 4.
Proof. change 3 with (Z.ones 2). rewrite Z.land_ones by lia. reflexivity. Qed.

Lemma shiftr_div (x k : Z) : 0 <= k -> Z.shiftr x k = x / 2 ^ k.
Proof. intros. now apply Z.shiftr_div_pow2. Qed.

Lemma shiftl_mul (x k : Z) : 0 <= k -> Z.shiftl x k = x * 2 ^ k.
Proof. intros. now apply Z.shiftl_mul_pow2. Qed.

(** A continuation byte [0x80 | v]. *)
Lemma continuation_byte (x : Z) : Z.lor 128 (x mod 64) = 128 + x mod 64.
Proof.
  apply (lor_const 2 6); [lia | reflexivity |].
  change (2 ^ 6) with 64. apply Z.mod_pos_bound. lia.
Qed.

Ltac bits_to_arith :=
  repeat rewrite land63; repeat rewrite shiftr_div by lia;
  repeat rewrite continuation_byte;
  change (2 ^ 6) with 64; change (2 ^ 12) with 4096;
  change (2 ^ 18) with 262144.

(** The bytes of one code point, in arithmetic form. *)
Lemma utf8_encode_cp_spec (c : Z) (bs : bytes) :
  utf8_encode_cp c = Ok bs ->
  (0 <= c < 128 /\ bs = [c]) \/
  (128 <= c < 2048 /\ bs = [192 + c / 64; 128 + c mod 64]) \/
  (2048 <= c < 65536 /\ ~ (55296 <= c <= 57343) /\
   bs = [224 + c / 4096; 128 + (c / 64) mod 64; 128 + c mod 64]) \/
  (65536 <= c < 1114112 /\
   bs = [240 + c / 262144; 128 + (c / 4096) mod 64;
         128 + (c / 64) mod 64; 128 + c mod 64]).
Proof.
  unfold utf8_encode_cp.
  destruct (c <? 0) eqn:H0; [discriminate |].
  apply Z.ltb_ge in H0.
  destruct (c <? 128) eqn:H1.
  { apply Z.ltb_lt in H1. intros E; apply Ok_inj in E; subst bs. left. split; [lia | reflexivity]. }
  apply Z.ltb_ge in H1.
  destruct (c <? 2048) eqn:H2.
  { apply Z.ltb_lt in H2. intros E; apply Ok_inj in E; subst bs. right; left. split; [lia |].
    bits_to_arith.
    rewrite (lor_const 3 6 (c / 64) 192); [reflexivity | lia | reflexivity |].
    change (2 ^ 6) with 64. split.
    - apply Z.div_pos; lia.
    - apply Z.div_lt_upper_bound; lia. }
  apply Z.ltb_ge in H2.
  destruct (c <? 65536) eqn:H3.
  { apply Z.ltb_lt in H3.
    destruct ((55296 <=? c) && (c <=? 57343)) eqn:Hs; [discriminate |].
    intros E; apply Ok_inj in E; subst bs. right; right; left. split; [lia |]. split.
    - intros [Ha Hb]. apply Z.leb_le in Ha. apply Z.leb_le in Hb.
      rewrite Ha, Hb in Hs. discriminate.
    - bits_to_arith.
      rewrite (lor_const 14 4 (c / 4096) 224); [reflexivity | lia | reflexivity |].
      change (2 ^ 4) with 16. split.
      + apply Z.div_pos; lia.
      + apply Z.div_lt_upper_bound; lia. }
  apply Z.ltb_ge in H3.
  destruct (c <? 1114112) eqn:H4; [| discriminate].
  apply Z.ltb_lt in H4. intros E; apply Ok_inj in E; subst bs. right; right; right. split; [lia |].
  bits_to_arith.
  rewrite (lor_const 30 3 (c / 262144) 240); [reflexivity | lia | reflexivity |].
  change (2 ^ 3) with 8. split.
  - apply Z.div_pos; lia.
  - apply Z.div_lt_upper_bound; lia.
Qed.

Definition is_byte (b : Z) : Prop := 0 <= b < 256.

Lemma utf8_encode_cp_bytes (c : Z) (bs : bytes) :
  utf8_encode_cp c = Ok bs -> Forall is_byte bs.
Proof.
  intros H. apply utf8_encode_cp_spec in H. unfold is_byte.
  destruct H as [[Hc ->] | [[Hc ->] | [[Hc [_ ->]] | [Hc ->]]]];
    repeat constructor; Z.div_mod_to_equations; lia.
Qed.

(** The encoding of one code point can be read back from the front of a byte
    sequence: the code is prefix-free. *)
Lemma utf8_encode_cp_inj (c c' : Z) (bs bs' r r' : bytes) :
  utf8_encode_cp c = Ok bs -> utf8_encode_cp c' = Ok bs' ->
  bs ++ r = bs' ++ r' -> c = c' /\ r = r'.
Proof.
  intros H H' E.
  apply utf8_encode_cp_spec in H. apply utf8_encode_cp_spec in H'.
  destruct H as [[Hc ->] | [[Hc ->] | [[Hc [_ ->]] | [Hc ->]]]];
  destruct H' as [[Hc' ->] | [[Hc' ->] | [[Hc' [_ ->]] | [Hc' ->]]]];
    cbn [app] in E; split_cons; split; try assumption;
    try (exfalso; Z.div_mod_to_equations; lia);
    Z.div_mod_to_equations; lia.
Qed.

Lemma utf8_encode_cons (c : Z) (s : str) (bs : bytes) :
  utf8_encode (c :: s) = Ok bs ->
  exists b r, utf8_encode_cp c = Ok b /\ utf8_encode s = Ok r /\ bs = b ++ r.
Proof.
  cbn [utf8_encode]. unfold rbind.
  destruct (utf8_encode_cp c) as [b |]; [| discriminate].
  destruct (utf8_encode s) as [r |]; [| discriminate].
  intros E. apply Ok_inj in E. now exists b, r.
Qed.

Lemma utf8_encode_cp_nonempty (c : Z) : utf8_encode_cp c <> Ok [].
Proof.
  intros H. apply utf8_encode_cp_spec in H.
  destruct H as [[_ H] | [[_ H] | [[_ [_ H]] | [_ H]]]]; discriminate H.
Qed.

Lemma utf8_encode_inj (s1 : str) :
  forall (s2 : str) (bs : bytes),
    utf8_encode s1 = Ok bs -> utf8_encode s2 = Ok bs -> s1 = s2.
Proof.
  induction s1 as [| c s1 IH]; intros [| c' s2] bs H1 H2.
  - reflexivity.
  - apply Ok_inj in H1. subst bs.
    apply utf8_encode_cons in H2. destruct H2 as (b & r & Hb & _ & E).
    destruct b; [now apply utf8_encode_cp_nonempty in Hb | discriminate E].
  - apply Ok_inj in H2. subst bs.
    apply utf8_encode_cons in H1. destruct H1 as (b & r & Hb & _ & E).
    destruct b; [now apply utf8_encode_cp_nonempty in Hb | discriminate E].
  - apply utf8_encode_cons in H1. destruct H1 as (b & r & Hb & Hr & E).
    apply utf8_encode_cons in H2. destruct H2 as (b' & r' & Hb' & Hr' & E').
    subst bs.
    destruct (utf8_encode_cp_inj c c' b b' r r' Hb Hb' E') as [-> ->].
    f_equal. exact (IH s2 r' Hr Hr').
Qed.

Lemma utf8_encode_bytes (s : str) :
  forall bs, utf8_encode s = Ok bs -> Forall is_byte bs.
Proof.
  induction s as [| c s IH]; intros bs H.
  - apply Ok_inj in H. subst. constructor.
  - apply utf8_encode_cons in H. destruct H as (b & r & Hb & Hr & ->).
    apply Forall_app. split; [now apply utf8_encode_cp_bytes in Hb | auto].
Qed.

(** The alphabet is injective on the sextets and avoids the padding. *)
Lemma urlsafe_char_inj (i j : Z) :
  0 <= i < 64 -> 0 <= j < 64 -> urlsafe_char i = urlsafe_char j -> i = j.
Proof.
  unfold urlsafe_char. intros Hi Hj.
  destruct (i <? 26) eqn:A1; destruct (i <? 52) eqn:A2;
    destruct (i <? 62) eqn:A3; destruct (i =? 62) eqn:A4;
    destruct (j <? 26) eqn:B1; destruct (j <? 52) eqn:B2;
    destruct (j <? 62) eqn:B3; destruct (j =? 62) eqn:B4; lia.
Qed.

Lemma urlsafe_char_not_pad (i : Z) : 0 <= i < 64 -> urlsafe_char i <> pad.
Proof.
  unfold urlsafe_char, pad. intros Hi.
  destruct (i <? 26) eqn:A1; destruct (i <? 52) eqn:A2;
    destruct (i <? 62) eqn:A3; destruct (i =? 62) eqn:A4; lia.
Qed.

Lemma urlsafe_char_ascii (i : Z) :
  0 <= i < 64 -> 0 <= urlsafe_char i < 128.
Proof.
  unfold urlsafe_char. intros Hi.
  destruct (i <? 26) eqn:A1; destruct (i <? 52) eqn:A2;
    destruct (i <? 62) eqn:A3; destruct (i =? 62) eqn:A4; lia.
Qed.

(** The four sextets of a group of three bytes, in arithmetic form. *)
Definition sextet1 (a : Z) : Z := a / 4.
Definition sextet2 (a b : Z) : Z := (a mod 4) * 16 + b / 16.
Definition sextet3 (b c : Z) : Z := (b mod 16) * 4 + c / 64.
Definition sextet4 (c : Z) : Z := c mod 64.

Lemma sextet1_eq (a : Z) : Z.shiftr a 2 = sextet1 a.
Proof. unfold sextet1. now rewrite shiftr_div by lia. Qed.

Lemma sextet2_eq (a b : Z) :
  is_byte b ->
  Z.lor (Z.shiftl (Z.land a 3) 4) (Z.shiftr b 4) = sextet2 a b.
Proof.
  unfold sextet2, is_byte. intros Hb.
  rewrite land3, shiftl_mul, shiftr_div by lia.
  apply lor_high_low; [lia |]. change (2 ^ 4) with 16.
  Z.div_mod_to_equations; lia.
Qed.

Lemma sextet2_last (a : Z) : Z.shiftl (Z.land a 3) 4 = sextet2 a 0.
Proof.
  unfold sextet2. rewrite land3, shiftl_mul by lia.
  change (2 ^ 4) with 16. change (0 / 16) with 0. lia.
Qed.

Lemma sextet3_eq (b c : Z) :
  is_byte c ->
  Z.lor (Z.shiftl (Z.land b 15) 2) (Z.shiftr c 6) = sextet3 b c.
Proof.
  unfold sextet3, is_byte. intros Hc.
  rewrite land15, shiftl_mul, shiftr_div by lia.
  apply lor_high_low; [lia |]. change (2 ^ 2) with 4. change (2 ^ 6) with 64.
  Z.div_mod_to_equations; lia.
Qed.

Lemma sextet3_last (b : Z) : Z.shiftl (Z.land b 15) 2 = sextet3 b 0.
Proof.
  unfold sextet3. rewrite land15, shiftl_mul by lia.
  change (2 ^ 2) with 4. change (0 / 64) with 0. lia.
Qed.

Lemma sextet4_eq (c : Z) : Z.land c 63 = sextet4 c.
Proof. apply land63. Qed.

Lemma sextet_ranges (a b c : Z) :
  is_byte a -> is_byte b -> is_byte c ->
  0 <= sextet1 a < 64 /\ 0 <= sextet2 a b < 64 /\
  0 <= sextet3 b c < 64 /\ 0 <= sextet4 c < 64.
Proof.
  unfold is_byte, sextet1, sextet2, sextet3, sextet4. intros Ha Hb Hc.
  repeat split; Z.div_mod_to_equations; lia.
Qed.

(** A group of three bytes is determined by its sextets. *)
Lemma sextets_inj (a b c a' b' c' : Z) :
  is_byte a -> is_byte b -> is_byte c ->
  is_byte a' -> is_byte b' -> is_byte c' ->
  sextet1 a = sextet1 a' -> sextet2 a b = sextet2 a' b' ->
  sextet3 b c = sextet3 b' c' -> sextet4 c = sextet4 c' ->
  a = a' /\ b = b' /\ c = c'.
Proof.
  unfold is_byte, sextet1, sextet2, sextet3, sextet4.
  intros Ha Hb Hc Ha' Hb' Hc' E1 E2 E3 E4.
  repeat split; Z.div_mod_to_equations; lia.
Qed.

Lemma is_byte_0 : is_byte 0.
Proof. unfold is_byte. lia. Qed.

(** The encoder, group by group, over the arithmetic sextets. *)
Lemma urlsafe_b64encode_1 (a : Z) :
  urlsafe_b64encode [a] =
  [urlsafe_char (sextet1 a); urlsafe_char (sextet2 a 0); pad; pad].
Proof. cbn [urlsafe_b64encode]. now rewrite sextet1_eq, sextet2_last. Qed.

Lemma urlsafe_b64encode_2 (a b : Z) :
  is_byte b ->
  urlsafe_b64encode [a; b] =
  [urlsafe_char (sextet1 a); urlsafe_char (sextet2 a b);
   urlsafe_char (sextet3 b 0); pad].
Proof.
  intros Hb. cbn [urlsafe_b64encode].
  now rewrite sextet1_eq, sextet2_eq, sextet3_last.
Qed.

Lemma urlsafe_b64encode_3 (a b c : Z) (rest : bytes) :
  is_byte b -> is_byte c ->
  urlsafe_b64encode (a :: b :: c :: rest) =
  urlsafe_char (sextet1 a) :: urlsafe_char (sextet2 a b)
  :: urlsafe_char (sextet3 b c) :: urlsafe_char (sextet4 c)
  :: urlsafe_b64encode rest.
Proof.
  intros Hb Hc. cbn [urlsafe_b64encode].
  now rewrite sextet1_eq, sextet2_eq, sextet3_eq, sextet4_eq.
Qed.

(** Lists, three elements at a time. *)
Lemma list_ind3 {A} (P : list A -> Prop) :
  P [] -> (forall a, P [a]) -> (forall a b, P [a; b]) ->
  (forall a b c l, P l -> P (a :: b :: c :: l)) ->
  forall l, P l.
Proof.
  intros H0 H1 H2 H3.
  assert (H : forall l, P l /\ (forall a, P (a :: l))
                        /\ (forall a b, P (a :: b :: l))).
  { induction l as [| x l (IH0 & IH1 & IH2)].
    - auto.
    - repeat split; auto. }
  intros l. apply H.
Qed.
Ltac byte_facts :=
  repeat match goal with
         | H : Forall is_byte (_ :: _) |- _ =>
             apply Forall_cons_iff in H; destruct H
         end.

Ltac sextet_arith :=
  unfold is_byte, sextet1, sextet2, sextet3, sextet4 in *;
  Z.div_mod_to_equations; lia.

Ltac char_eqs :=
  repeat match goal with
         | H : urlsafe_char _ = pad |- _ =>
             exfalso; revert H; apply urlsafe_char_not_pad; sextet_arith
         | H : pad = urlsafe_char _ |- _ =>
             exfalso; symmetry in H; revert H;
             apply urlsafe_char_not_pad; sextet_arith
         | H : urlsafe_char _ = urlsafe_char _ |- _ =>
             apply urlsafe_char_inj in H; [| sextet_arith | sextet_arith]
         end.

Ltac b64_groups E :=
  rewrite ?urlsafe_b64encode_1, ?urlsafe_b64encode_2, ?urlsafe_b64encode_3
    in E by assumption.

Lemma urlsafe_b64encode_inj (l1 : bytes) :
  forall l2 : bytes,
    Forall is_byte l1 -> Forall is_byte l2 ->
    urlsafe_b64encode l1 = urlsafe_b64encode l2 -> l1 = l2.
Proof.
  induction l1 as [| a | a b | a b c l IH] using list_ind3;
    intros [| a' [| b' [| c' l2]]] F1 F2 E; byte_facts; b64_groups E;
    try reflexivity; try discriminate E; split_cons; char_eqs.
  - f_equal. sextet_arith.
  - assert (a = a' /\ b = b') as [-> ->] by sextet_arith. reflexivity.
  - assert (l = l2) as -> by (apply IH; assumption).
    assert (a = a' /\ b = b' /\ c = c') as (-> & -> & ->) by sextet_arith.
    reflexivity.
Qed.

Lemma urlsafe_b64encode_ascii (l : bytes) :
  Forall is_byte l ->
  forallb (fun b => (0 <=? b) && (b <? 128)) (urlsafe_b64encode l) = true.
Proof.
  assert (Hc : forall i, 0 <= i < 64 ->
             (0 <=? urlsafe_char i) && (urlsafe_char i <? 128) = true).
  { intros i Hi. apply urlsafe_char_ascii in Hi.
    apply andb_true_iff. split; [apply Z.leb_le | apply Z.ltb_lt]; lia. }
  induction l as [| a | a b | a b c l IH] using list_ind3; intros F;
    byte_facts.
  - reflexivity.
  - rewrite urlsafe_b64encode_1. cbn [forallb].
    rewrite !Hc by sextet_arith. reflexivity.
  - rewrite urlsafe_b64encode_2 by assumption. cbn [forallb].
    rewrite !Hc by sextet_arith. reflexivity.
  - rewrite urlsafe_b64encode_3 by assumption. cbn [forallb].
    rewrite !Hc by sextet_arith. rewrite IH by assumption. reflexivity.
Qed.

Lemma decode_ascii_Ok (bs : bytes) (s : str) :
  decode_ascii bs = Ok s -> s = bs.
Proof.
  unfold decode_ascii. destruct (forallb _ bs); [| discriminate].
  intros E. now apply Ok_inj in E.
Qed.

(** [encode_id] fails on an identifier exactly when its UTF-8 encoding does,
    that is when it holds a surrogate. *)
Lemma encode_id_utf8 (raw_id : str) (bs : bytes) :
  utf8_encode raw_id = Ok bs -> encode_id raw_id = Ok (urlsafe_b64encode bs).
Proof.
  intros H. unfold encode_id. rewrite H. cbn [rbind]. unfold decode_ascii.
  rewrite urlsafe_b64encode_ascii by (now apply utf8_encode_bytes in H).
  reflexivity.
Qed.

Lemma encode_id_Ok (raw_id e : str) :
  encode_id raw_id = Ok e ->
  exists bs, utf8_encode raw_id = Ok bs /\ e = urlsafe_b64encode bs.
Proof.
  unfold encode_id. destruct (utf8_encode raw_id) as [bs |] eqn:H;
    [| discriminate].
  cbn [rbind]. intros E. apply decode_ascii_Ok in E. now exists bs.
Qed.

Lemma encode_id_inj (id1 id2 e : str) :
  encode_id id1 = Ok e -> encode_id id2 = Ok e -> id1 = id2.
Proof.
  intros H1 H2.
  apply encode_id_Ok in H1. destruct H1 as (b1 & U1 & E1).
  apply encode_id_Ok in H2. destruct H2 as (b2 & U2 & E2).
  assert (b1 = b2) as <-.
  { apply urlsafe_b64encode_inj.
    - now apply utf8_encode_bytes in U1.
    - now apply utf8_encode_bytes in U2.
    - congruence. }
  exact (utf8_encode_inj id1 id2 b1 U1 U2).
Qed.


End CodecFacts.

(** ** The resolver *)

Example resolve_fallthrough :
  @get_export_config fromisoformat_basic sample_now ditto_url (lit "plc")
    (lit "pump") fallthrough_config = Ok (Some [lit "level"]).
Proof. vm_compute. reflexivity. Qed.

Example resolve_first_match_fallthrough :
  @first_match_resolve fromisoformat_basic sample_now ditto_url (lit "plc")
    (lit "pump") fallthrough_config = Ok None.
Proof. vm_compute. reflexivity. Qed.

Example resolve_wildcard_first :
  @get_export_config fromisoformat_basic sample_now ditto_url (lit "plc")
    (lit "valve") wildcard_first_config = Ok (Some [lit "level"]).
Proof. vm_compute. reflexivity. Qed.

Example resolve_downtime :
  @get_export_config fromisoformat_basic sample_now ditto_url (lit "plc")
    (lit "valve") downtime_config = Ok None.
Proof. vm_compute. reflexivity. Qed.

Section ResolverFacts.

Context {parser : IsoParser}.

Lemma scan_features_find (feature_id : str) (features : list FeatureRule) :
  scan_features feature_id features =
  match find (fun f => rule_matches (fr_feature_id f) feature_id) features with
  | Some f => Returned (fr_properties f)
  | None => Exhausted
  end.
Proof.
  induction features as [| f fs IH]; cbn [scan_features find].
  - reflexivity.
  - destruct (rule_matches (fr_feature_id f) feature_id); auto.
Qed.

(** What the thing loop does at the first rule that matches the thing. *)
Lemma scan_things_no_match now thing_id feature_id things :
  find (fun t => rule_matches (tr_thing_id t) thing_id) things = None ->
  scan_things now thing_id feature_id things = Ok Exhausted.
Proof.
  induction things as [| t ts IH]; cbn [find scan_things].
  - reflexivity.
  - destruct (rule_matches (tr_thing_id t) thing_id); [discriminate | exact IH].
Qed.

Lemma scan_things_first_raises now thing_id feature_id things t e :
  find (fun t => rule_matches (tr_thing_id t) thing_id) things = Some t ->
  in_downtime now t = Raise e ->
  scan_things now thing_id feature_id things = Raise e.
Proof.
  induction things as [| t' ts IH]; cbn [find scan_things].
  - discriminate.
  - destruct (rule_matches (tr_thing_id t') thing_id).
    + intros [= ->] ->. reflexivity.
    + exact IH.
Qed.

Lemma scan_things_first_suppressed now thing_id feature_id things t :
  find (fun t => rule_matches (tr_thing_id t) thing_id) things = Some t ->
  in_downtime now t = Ok true ->
  scan_things now thing_id feature_id things = Ok (Returned None).
Proof.
  induction things as [| t' ts IH]; cbn [find scan_things].
  - discriminate.
  - destruct (rule_matches (tr_thing_id t') thing_id).
    + intros [= ->] ->. reflexivity.
    + exact IH.
Qed.

Lemma scan_things_first_selector now thing_id feature_id things t props :
  find (fun t => rule_matches (tr_thing_id t) thing_id) things = Some t ->
  in_downtime now t = Ok false ->
  scan_features feature_id (tr_features t) = Returned props ->
  scan_things now thing_id feature_id things = Ok (Returned (Some props)).
Proof.
  induction things as [| t' ts IH]; cbn [find scan_things].
  - discriminate.
  - destruct (rule_matches (tr_thing_id t') thing_id).
    + intros [= ->] -> ->. reflexivity.
    + exact IH.
Qed.

(** The thing loop over two lists in sequence: the second is entered exactly
    when the first is exhausted. *)
Lemma scan_things_app now thing_id feature_id l1 l2 :
  scan_things now thing_id feature_id (l1 ++ l2) =
  match scan_things now thing_id feature_id l1 with
  | Ok Exhausted => scan_things now thing_id feature_id l2
  | r => r
  end.
Proof.
  induction l1 as [| t ts IH]; cbn [app scan_things].
  - reflexivity.
  - destruct (rule_matches (tr_thing_id t) thing_id); [| exact IH].
    destruct (in_downtime now t) as [[|] |]; try reflexivity.
    destruct (scan_features feature_id (tr_features t)); [reflexivity | exact IH].
Qed.

(** The source loop is the thing loop over the thing rules of all the source
    rules with the queried url. *)
Lemma scan_sources_candidates now source_url thing_id feature_id sources :
  scan_sources now source_url thing_id feature_id sources =
  finish (scan_things now thing_id feature_id
            (flat_map sr_things
               (filter (fun s => str_eqb (sr_source_url s) source_url)
                       sources))).
Proof.
  induction sources as [| s ss IH];
    cbn [scan_sources filter flat_map].
  - reflexivity.
  - destruct (str_eqb (sr_source_url s) source_url); [| exact IH].
    cbn [flat_map]. rewrite scan_things_app.
    destruct (scan_things now thing_id feature_id (sr_things s))
      as [[r |] |]; try reflexivity.
    exact IH.
Qed.

Lemma scan_sources_first now source_url thing_id feature_id sources s :
  find (fun s => str_eqb (sr_source_url s) source_url) sources = Some s ->
  scan_things now thing_id feature_id (sr_things s) <> Ok Exhausted ->
  scan_sources now source_url thing_id feature_id sources =
  finish (scan_things now thing_id feature_id (sr_things s)).
Proof.
  induction sources as [| s' ss IH]; cbn [find scan_sources].
  - discriminate.
  - destruct (str_eqb (sr_source_url s') source_url).
    + intros [= ->] Hne.
      destruct (scan_things now thing_id feature_id (sr_things s))
        as [[r |] |]; try reflexivity.
      now contradiction Hne.
    + exact IH.
Qed.

(** When the rules the specification consults yield a selector, a downtime
    error, or nothing but by exhaustion, the code agrees in the first two
    cases. *)
Lemma first_match_agrees now source_url thing_id feature_id config :
  first_match_resolve now source_url thing_id feature_id config <> Ok None ->
  get_export_config now source_url thing_id feature_id config =
  first_match_resolve now source_url thing_id feature_id config.
Proof.
  unfold get_export_config, first_match_resolve.
  destruct (find _ (cfg_sources config)) as [s |] eqn:Hs;
    [| intros H; now contradiction H].
  destruct (find _ (sr_things s)) as [t |] eqn:Ht;
    [| intros H; now contradiction H].
  unfold rbind.
  destruct (in_downtime now t) as [[|] | e] eqn:Hd.
  - intros H; now contradiction H.
  - pose proof (scan_features_find feature_id (tr_features t)) as Hf.
    destruct (find _ (tr_features t)) as [f |];
      [| intros H; now contradiction H].
    intros _.
    rewrite (scan_sources_first _ _ _ _ _ s Hs);
      rewrite (scan_things_first_selector _ _ _ _ t _ Ht Hd Hf);
      [reflexivity | discriminate].
  - intros _.
    rewrite (scan_sources_first _ _ _ _ _ s Hs);
      rewrite (scan_things_first_raises _ _ _ _ t e Ht Hd);
      [reflexivity | discriminate].
Qed.

(** C1 (as amended).  The resolver returns what the first matching feature
    rule of the first matching thing rule of the first matching source rule
    gives whenever these rules yield a selector; otherwise the loops go on:
    the result is that of one scan, in declaration order, over the thing
    rules of every source rule with the queried url, in which a matching
    thing rule without a matching feature rule is passed over. *)
Theorem get_export_config_first_match_or_fallthrough
  now source_url thing_id feature_id config :
  (first_match_resolve now source_url thing_id feature_id config <> Ok None ->
   get_export_config now source_url thing_id feature_id config =
   first_match_resolve now source_url thing_id feature_id config) /\
  get_export_config now source_url thing_id feature_id config =
  finish (scan_things now thing_id feature_id
            (candidate_things source_url config)) /\
  (forall t rest,
      rule_matches (tr_thing_id t) thing_id = true ->
      in_downtime now t = Ok false ->
      scan_features feature_id (tr_features t) = Exhausted ->
      scan_things now thing_id feature_id (t :: rest) =
      scan_things now thing_id feature_id rest).
Proof.
  split; [apply first_match_agrees |].
  split; [apply scan_sources_candidates |].
  intros t rest Hm Hd Hf. cbn [scan_things].
  now rewrite Hm, Hd, Hf.
Qed.

Lemma window_contains_in_downtime now t :
  window_contains now t -> in_downtime now t = Ok true.
Proof.
  intros (a & b & s & e & Hd & Ha & Hb & Hs & He).
  unfold in_downtime, downtime_of. rewrite Hd.
  cbn [dt_start dt_end fromisoformat_get]. rewrite Ha, Hb.
  cbn [rbind dt_le].
  destruct (Z.leb_spec s now); [| lia]. destruct (Z.leb_spec now e); [| lia].
  reflexivity.
Qed.


(** A matched thing rule without a [downtime] block, or without one of its
    bounds, makes the resolver raise. *)
Lemma missing_downtime_raises now source_url thing_id feature_id config t :
  find (fun t => rule_matches (tr_thing_id t) thing_id)
       (candidate_things source_url config) = Some t ->
  tr_downtime t = None ->
  get_export_config now source_url thing_id feature_id config
  = Raise TypeError.
Proof.
  intros Ht Hd.
  unfold get_export_config. rewrite scan_sources_candidates.
  fold (candidate_things source_url config).
  rewrite (scan_things_first_raises _ _ _ _ t TypeError Ht); [reflexivity |].
  unfold in_downtime, downtime_of. now rewrite Hd.
Qed.

End ResolverFacts.

(** C1 (as stated) fails: thing [plc] has an exact rule that knows feature
    [valve] only; resolving its feature [pump] goes on to the wildcard rule
    declared after it and returns that rule's selector, where the first
    match alone gives [None]. *)
Lemma first_match_wins_counterexample :
  @get_export_config fromisoformat_basic sample_now ditto_url (lit "plc")
    (lit "pump") fallthrough_config = Ok (Some [lit "level"]) /\
  @first_match_resolve fromisoformat_basic sample_now ditto_url (lit "plc")
    (lit "pump") fallthrough_config = Ok None.
Proof. split; vm_compute; reflexivity. Qed.

Lemma get_export_config_first_match_or_fallthrough_witness :
  @get_export_config fromisoformat_basic sample_now ditto_url (lit "plc")
    (lit "valve") wildcard_first_config = Ok (Some [lit "level"]).
Proof.
  pose proof (@get_export_config_first_match_or_fallthrough
                fromisoformat_basic sample_now ditto_url (lit "plc")
                (lit "valve") wildcard_first_config) as [H _].
  rewrite H; [reflexivity | discriminate].
Defined.


(** C2 (defect of the code).  A policy whose rule for thing [plc] has no
    [downtime] block: resolving a feature of [plc] raises [TypeError]
    instead of treating the thing as never in downtime. *)
Theorem resolver_raises_without_downtime :
  @get_export_config fromisoformat_basic sample_now ditto_url (lit "plc")
    (lit "valve") no_downtime_config = Raise TypeError.
Proof. vm_compute. reflexivity. Qed.

(** ** Canonical serialization *)

Example dumps_valve_payload :
  Json.dumps (JDict valve_payload)
  = [123; 34] ++ lit "open" ++ [34] ++ lit ": true, " ++ [34]
    ++ lit "timestamp" ++ [34] ++ lit ": " ++ [34]
    ++ lit "2025-06-01T12:00:00" ++ [34; 125].
Proof. vm_compute. reflexivity. Qed.

Example dumps_nested :
  Json.dumps (JDict [(lit "b", JList [JInt (-12); JNull; JFloat (lit "1.5")]);
                     (lit "a", JDict [(lit "z", JStr [233; 10]);
                                      (lit "y", JInt 0)])])
  = [123; 34] ++ lit "a" ++ [34] ++ lit ": {" ++ [34] ++ lit "y" ++ [34]
    ++ lit ": 0, " ++ [34] ++ lit "z" ++ [34] ++ lit ": " ++ [34; 92]
    ++ lit "u00e9" ++ [92] ++ lit "n" ++ [34] ++ lit "}, " ++ [34]
    ++ lit "b" ++ [34] ++ lit ": [-12, null, 1.5]}".
Proof. vm_compute. reflexivity. Qed.

Example dumps_escapes :
  Json.dumps (JDict [(lit "k", JStr [128512; 34; 92; 127])])
  = [123; 34] ++ lit "k" ++ [34] ++ lit ": " ++ [34; 92] ++ lit "ud83d"
    ++ [92] ++ lit "ude00" ++ [92; 34; 92; 92; 92] ++ lit "u007f"
    ++ [34; 125].
Proof. vm_compute. reflexivity. Qed.

Section SortFacts.
Import Json.

Lemma str_compare_refl (a : str) : str_compare a a = Eq.
Proof.
  induction a as [| x a IH]; cbn [str_compare]; [reflexivity |].
  now rewrite Z.compare_refl.
Qed.

Lemma str_compare_eq (a : str) : forall b, str_compare a b = Eq -> a = b.
Proof.
  induction a as [| x a IH]; intros [| y b]; cbn [str_compare];
    try discriminate; [reflexivity |].
  destruct (x ?= y) eqn:C; try discriminate.
  apply Z.compare_eq in C. subst y. intros E. f_equal. now apply IH.
Qed.

Lemma str_compare_antisym (a : str) :
  forall b, str_compare b a = CompOpp (str_compare a b).
Proof.
  induction a as [| x a IH]; intros [| y b]; cbn [str_compare];
    try reflexivity.
  rewrite (Z.compare_antisym x y).
  destruct (x ?= y); cbn [CompOpp]; [apply IH | reflexivity | reflexivity].
Qed.

Lemma str_compare_lt_trans (a : str) :
  forall b c, str_compare a b = Lt -> str_compare b c = Lt ->
              str_compare a c = Lt.
Proof.
  induction a as [| x a IH]; intros [| y b] [| z c]; cbn [str_compare];
    try discriminate; try reflexivity.
  destruct (x ?= y) eqn:Cxy; try discriminate;
    destruct (y ?= z) eqn:Cyz; try discriminate.
  - apply Z.compare_eq in Cxy, Cyz. subst. rewrite Z.compare_refl. apply IH.
  - apply Z.compare_eq in Cxy. subst. now rewrite Cyz.
  - apply Z.compare_eq in Cyz. subst. now rewrite Cxy.
  - assert ((x ?= z) = Lt) as -> by
      (rewrite Z.compare_lt_iff in *; lia).
    reflexivity.
Qed.

Lemma str_ltb_asym (a b : str) : str_ltb a b = true -> str_ltb b a = false.
Proof.
  unfold str_ltb. rewrite (str_compare_antisym a b).
  now destruct (str_compare a b).
Qed.

Lemma str_ltb_total (a b : str) :
  a <> b -> str_ltb a b = false -> str_ltb b a = true.
Proof.
  unfold str_ltb. rewrite (str_compare_antisym a b). intros Hne.
  destruct (str_compare a b) eqn:C; cbn [CompOpp]; try easy.
  now apply str_compare_eq in C.
Qed.

(** [a <= h < b] gives [a < b]. *)
Lemma str_ltb_le_lt (a h b : str) :
  str_ltb h a = false -> str_ltb h b = true -> str_ltb a b = true.
Proof.
  unfold str_ltb. rewrite (str_compare_antisym a h).
  destruct (str_compare a h) eqn:Cah; cbn [CompOpp]; try discriminate;
    intros _; destruct (str_compare h b) eqn:Chb; try discriminate; intros _.
  - apply str_compare_eq in Cah. subst. now rewrite Chb.
  - now rewrite (str_compare_lt_trans a h b Cah Chb).
Qed.

Lemma insert_item_comm {V} (a b : str * V) (l : list (str * V)) :
  fst a <> fst b ->
  insert_item a (insert_item b l) = insert_item b (insert_item a l).
Proof.
  intros Hne. induction l as [| h t IH]; cbn [insert_item].
  - destruct (str_ltb (fst b) (fst a)) eqn:Hba.
    + now rewrite (str_ltb_asym _ _ Hba).
    + rewrite (str_ltb_total (fst b) (fst a)); auto.
  - destruct (str_ltb (fst h) (fst b)) eqn:Hhb;
      destruct (str_ltb (fst h) (fst a)) eqn:Hha; cbn [insert_item];
      rewrite ?Hhb, ?Hha.
    + now rewrite IH.
    + now rewrite (str_ltb_le_lt _ _ _ Hha Hhb).
    + now rewrite (str_ltb_le_lt _ _ _ Hhb Hha).
    + destruct (str_ltb (fst b) (fst a)) eqn:Hba.
      * now rewrite (str_ltb_asym _ _ Hba).
      * rewrite (str_ltb_total (fst b) (fst a)); auto.
Qed.

(** Sorting forgets the insertion order of a [dict]. *)
Lemma sort_items_perm {V} (l1 l2 : list (str * V)) :
  Permutation l1 l2 -> NoDup (keys l1) -> sort_items l1 = sort_items l2.
Proof.
  unfold keys.
  induction 1 as [| x l l' Hp IH | x y l | l l' l'' H1 IH1 H2 IH2];
    intros Hnd; cbn [sort_items].
  - reflexivity.
  - cbn [map] in Hnd. apply NoDup_cons_iff in Hnd. now rewrite IH.
  - cbn [map] in Hnd. apply NoDup_cons_iff in Hnd. destruct Hnd as [Hy _].
    apply insert_item_comm. intros E. apply Hy. left. now symmetry.
  - rewrite IH1 by assumption. apply IH2.
    apply Permutation_NoDup with (map fst l); [| assumption].
    now apply Permutation_map.
Qed.

Lemma filter_perm {A} (f : A -> bool) (l1 l2 : list A) :
  Permutation l1 l2 -> Permutation (filter f l1) (filter f l2).
Proof.
  induction 1 as [| x l l' Hp IH | x y l | l l' l'' H1 IH1 H2 IH2];
    cbn [filter].
  - constructor.
  - destruct (f x); [now constructor | assumption].
  - destruct (f x), (f y); try reflexivity. constructor.
  - now transitivity (filter f l').
Qed.

Lemma filter_keys_NoDup {V} (f : str * V -> bool) (l : list (str * V)) :
  NoDup (keys l) -> NoDup (keys (filter f l)).
Proof.
  unfold keys. induction l as [| x l IH]; cbn [filter map]; intros Hnd.
  - constructor.
  - apply NoDup_cons_iff in Hnd. destruct Hnd as [Hx Hl].
    destruct (f x); [| auto]. cbn [map]. constructor; [| auto].
    intros Hin. apply Hx. apply in_map_iff in Hin.
    destruct Hin as (kv & E & Hin). apply filter_In in Hin.
    apply in_map_iff. exists kv. tauto.
Qed.

Lemma dumps_dict_perm (p1 p2 : props) :
  NoDup (keys p1) -> Permutation p1 p2 ->
  dumps (JDict p1) = dumps (JDict p2).
Proof.
  intros Hnd Hp. cbn [dumps]. do 4 f_equal.
  apply sort_items_perm.
  - now apply Permutation_map.
  - unfold keys in *. rewrite map_map.
    erewrite map_ext; [exact Hnd |]. now intros [k v].
Qed.

Lemma without_signature_id (p : props) :
  ~ In (lit "signature") (keys p) -> without_signature p = p.
Proof.
  unfold without_signature, keys.
  induction p as [| [k v] p IH]; cbn [filter map fst]; intros Hn.
  - reflexivity.
  - destruct (str_eqb k (lit "signature")) eqn:E.
    + apply str_eqb_eq in E. exfalso. apply Hn. now left.
    + cbn [negb]. f_equal. apply IH. intros Hin. apply Hn. now right.
Qed.

End SortFacts.

(** C8.  The canonical serialization is the same whatever the insertion
    order of the mapping, for the signer and for the verifier, and the two
    agree: the bytes the verifier rebuilds from a signed bundle, in any key
    order, are the bytes the signer signed. *)
Theorem canonical_serialization_stable (p1 p2 : props) :
  NoDup (keys p1) -> Permutation p1 p2 ->
  signer_payload_bytes p1 = signer_payload_bytes p2 /\
  verifier_payload_bytes p1 = verifier_payload_bytes p2 /\
  (forall (signature : json) (bundle : props),
      ~ In (lit "signature") (keys p1) ->
      Permutation ((lit "signature", signature) :: p2) bundle ->
      verifier_payload_bytes bundle = signer_payload_bytes p1).
Proof.
  intros Hnd Hp.
  unfold signer_payload_bytes, verifier_payload_bytes.
  split; [| split].
  - f_equal. now apply dumps_dict_perm.
  - f_equal. apply dumps_dict_perm.
    + now apply filter_keys_NoDup.
    + now apply filter_perm.
  - intros signature bundle Hns Hb. f_equal. symmetry.
    apply dumps_dict_perm; [assumption |].
    rewrite <- (without_signature_id p1 Hns).
    unfold without_signature at 2.
    rewrite <- (filter_perm _ _ _ Hb). cbn [filter fst].
    rewrite str_eqb_refl. cbn [negb].
    apply filter_perm. exact Hp.
Qed.

Lemma canonical_serialization_stable_witness :
  verifier_payload_bytes valve_bundle_reordered
  = signer_payload_bytes valve_payload.
Proof.
  refine (proj2 (proj2 (canonical_serialization_stable
                          valve_payload valve_payload _ _))
            (JStr (lit "c2ln")) valve_bundle_reordered _ _).
  - repeat constructor; cbn; intuition discriminate.
  - apply Permutation_refl.
  - cbn. intuition discriminate.
  - unfold valve_bundle_reordered, valve_payload.
    apply Permutation_sym.
    apply (Permutation_trans (perm_swap _ _ _)).
    apply perm_skip. apply perm_swap.
Defined.

(** ** The signature gate *)

Example verify_signed :
  @verify_feature_signature toy_crypto signed_feature (lit "public_key.pem")
  = Ok true.
Proof. vm_compute. reflexivity. Qed.

Example verify_unsigned :
  @verify_feature_signature toy_crypto unsigned_feature (lit "public_key.pem")
  = Ok false.
Proof. vm_compute. reflexivity. Qed.

Example verify_forged :
  @verify_feature_signature toy_crypto forged_feature (lit "public_key.pem")
  = Ok false.
Proof. vm_compute. reflexivity. Qed.

Example verify_no_key_file :
  @verify_feature_signature toy_crypto signed_feature (lit "other.pem")
  = Ok false.
Proof. vm_compute. reflexivity. Qed.

Section GateFacts.

Context {crypto : Crypto}.

Lemma verify_feature_signature_total fd path :
  verify_feature_signature fd path = Ok true \/
  verify_feature_signature fd path = Ok false.
Proof.
  unfold verify_feature_signature, try_except.
  destruct (verify_body fd path) as [[|] | e]; auto.
Qed.

(** A verification that succeeds went through every step. *)
Lemma verify_feature_signature_true fd path :
  verify_feature_signature fd path = Ok true ->
  exists p payload_bytes signature key_data key,
    f_properties fd = Some p /\
    has_key signature_key p = true /\
    truthy (signature_of p) = true /\
    verifier_payload_bytes p = Ok payload_bytes /\
    b64decode (signature_of p) = Ok signature /\
    path_exists path = true /\
    read_file path = Ok key_data /\
    load_pem_public_key key_data = Ok key /\
    pss_verify key signature payload_bytes = Ok tt.
Proof.
  unfold verify_feature_signature, try_except, verify_body, rbind.
  destruct (f_properties fd) as [p |] eqn:Hf; [| discriminate].
  destruct (has_key signature_key p) eqn:Hk; cbn [negb]; [| discriminate].
  destruct (truthy (signature_of p)) eqn:Ht; cbn [negb]; [| discriminate].
  destruct (verifier_payload_bytes p) as [pb |] eqn:Hy; [| discriminate].
  destruct (b64decode (signature_of p)) as [sg |] eqn:Hb; [| discriminate].
  destruct (path_exists path) eqn:Hp; cbn [negb]; [| discriminate].
  destruct (read_file path) as [kd |] eqn:Hr; [| discriminate].
  destruct (load_pem_public_key kd) as [k |] eqn:Hl; [| discriminate].
  destruct (pss_verify k sg pb) as [[] |] eqn:Hv; [| discriminate].
  intros _. exists p, pb, sg, kd, k. repeat split; assumption.
Qed.

(** C4.  [verify_feature_signature] never raises: it returns a boolean for
    every bundle and key path, and every failure (no properties, missing or
    empty signature, malformed base64, missing, unreadable or unparsable key
    file, cryptographic mismatch, any exception raised on the way) gives
    [False]. *)
Theorem verify_feature_signature_never_raises fd path :
  (exists b, verify_feature_signature fd path = Ok b) /\
  (failure fd path -> verify_feature_signature fd path = Ok false).
Proof.
  split.
  - destruct (verify_feature_signature_total fd path) as [H | H];
      rewrite H; eauto.
  - intros Hf.
    destruct (verify_feature_signature_total fd path) as [H | H];
      [| exact H].
    exfalso. apply verify_feature_signature_true in H.
    destruct H as (p & pb & sg & kd & k & Hp & Hk & Ht & Hb & Hd & He & Hr
                   & Hl & Hv).
    destruct Hf as [Hn | q Hq Hm | q Hq Hm | q e Hq Hm | q e Hq Hm | Hm
                   | e Hm | kd' e Hr' Hm | q pb' sg' kd' k' e Hq Hb' Hd' Hr'
                       Hl' Hm]; congruence.
Qed.

End GateFacts.

Lemma verify_feature_signature_never_raises_witness :
  @verify_feature_signature toy_crypto forged_feature (lit "public_key.pem")
  = Ok false.
Proof.
  apply (@verify_feature_signature_never_raises toy_crypto).
  eapply (@cryptographic_mismatch toy_crypto) with
    (e := InvalidSignature); reflexivity.
Defined.

(** ** Computations and the requests they send *)

Section IoFacts.

Context {network : Network}.

Lemma skipn_length_app {A} (l s : list A) : skipn (List.length l) (l ++ s) = s.
Proof. induction l as [| x l IH]; [reflexivity | exact IH]. Qed.

Lemma sent_by_eq {A} (m : io A) (tr s : list request) :
  snd (m tr) = tr ++ s -> sent_by m tr = s.
Proof. unfold sent_by. intros ->. apply skipn_length_app. Qed.

Lemma sends_intro {A} (P : request -> Prop) (m : io A) :
  (forall tr, exists s, snd (m tr) = tr ++ s /\ Forall P s) -> sends P m.
Proof.
  intros H tr. destruct (H tr) as (s & E & F).
  rewrite (sent_by_eq m tr s E). auto.
Qed.

Lemma sends_weaken {A} (P Q : request -> Prop) (m : io A) :
  (forall r, P r -> Q r) -> sends P m -> sends Q m.
Proof.
  intros HPQ H tr. destruct (H tr) as [E F]. split; [exact E |].
  eapply Forall_impl; eauto.
Qed.

Lemma sends_ret {A} P (a : A) : sends P (ret a).
Proof. apply sends_intro. intros tr. exists []. now rewrite app_nil_r. Qed.

Lemma sends_lift {A} P (r : result A) : sends P (lift r).
Proof. apply sends_intro. intros tr. exists []. now rewrite app_nil_r. Qed.

Lemma sends_http (P : request -> Prop) (r : request) :
  P r -> sends P (http r).
Proof. intros Hr. apply sends_intro. intros tr. exists [r]. auto. Qed.

Lemma sends_bind {A B} P (m : io A) (k : A -> io B) :
  sends P m -> (forall a, sends P (k a)) -> sends P (bind m k).
Proof.
  intros Hm Hk. apply sends_intro. intros tr. unfold bind.
  destruct (Hm tr) as [Em Fm]. destruct (m tr) as [[a | e] tr1]; cbn [snd] in *.
  - destruct (Hk a tr1) as [Ek Fk].
    exists (sent_by m tr ++ sent_by (k a) tr1). split.
    + rewrite Ek, Em at 1. now rewrite app_assoc.
    + apply Forall_app. auto.
  - exists (sent_by m tr). auto.
Qed.

Lemma sends_try_io {A} P (m : io A) (h : exn -> io A) :
  sends P m -> (forall e, sends P (h e)) -> sends P (try_io m h).
Proof.
  intros Hm Hh. apply sends_intro. intros tr. unfold try_io.
  destruct (Hm tr) as [Em Fm]. destruct (m tr) as [[a | e] tr1]; cbn [snd] in *.
  - exists (sent_by m tr). auto.
  - destruct (Hh e tr1) as [Eh Fh].
    exists (sent_by m tr ++ sent_by (h e) tr1). split.
    + rewrite Eh, Em at 1. now rewrite app_assoc.
    + apply Forall_app. auto.
Qed.

(** The requests of [m ;; k]: those of [m], then those of [k] when [m]
    returns. *)
Lemma sent_by_bind {A B} P (m : io A) (k : A -> io B) (tr : list request) :
  sends P m -> (forall a, sends P (k a)) ->
  sent_by (bind m k) tr =
  sent_by m tr ++ match fst (m tr) with
                  | Ok a => sent_by (k a) (snd (m tr))
                  | Raise _ => []
                  end.
Proof.
  intros Hm Hk. apply sent_by_eq. unfold bind.
  destruct (Hm tr) as [Em _]. destruct (m tr) as [[a | e] tr1];
    cbn [fst snd] in *.
  - destruct (Hk a tr1) as [Ek _]. rewrite Ek, Em at 1. now rewrite app_assoc.
  - now rewrite app_nil_r.
Qed.

Lemma sent_by_try_io_ret {A} P (m : io A) (a : A) (tr : list request) :
  sends P m -> sent_by (try_io m (fun _ => ret a)) tr = sent_by m tr.
Proof.
  intros Hm. apply sent_by_eq. unfold try_io, ret.
  destruct (Hm tr) as [Em _]. now destruct (m tr) as [[x | e] tr1].
Qed.

Lemma bind_ok {A B} (m : io A) (k : A -> io B) (tr : list request) (a : A) :
  fst (m tr) = Ok a -> bind m k tr = k a (snd (m tr)).
Proof. unfold bind. destruct (m tr) as [[x | e] tr1]; now intros [= ->]. Qed.

Lemma bind_raise {A B} (m : io A) (k : A -> io B) (tr : list request) e :
  fst (m tr) = Raise e -> bind m k tr = (Raise e, snd (m tr)).
Proof. unfold bind. destruct (m tr) as [[x | e'] tr1]; now intros [= ->]. Qed.

Lemma try_io_ret_ok (m : io unit) (tr : list request) :
  fst (try_io m (fun _ => ret tt) tr) = Ok tt.
Proof.
  unfold try_io, ret. now destruct (m tr) as [[[] | e] tr1].
Qed.

End IoFacts.

(** Proof of [sends P m] by the structure of [m]. *)
Ltac sends_step :=
  first
    [ apply sends_ret
    | apply sends_lift
    | apply sends_http; first [exact I | reflexivity | discriminate]
    | apply sends_bind; [| intros ?]
    | apply sends_try_io; [| intros ?]
    | match goal with
      | |- sends _ (if ?c then _ else _) => destruct c
      | |- sends _ (match ?c with _ => _ end) => destruct c
      | |- sends _ (let (_, _) := ?c in _) => destruct c
      end ].

Ltac sends_tac := repeat sends_step.

(** ** The registry operations *)

Section RegistryFacts.

Context {network : Network}.

Lemma get_ditto_things_sent source_url headers tr :
  sent_by (get_ditto_things source_url headers) tr =
  [{| rq_method := GET; rq_url := source_url ++ lit "/things";
      rq_authorization := headers; rq_json := None |}].
Proof.
  apply sent_by_eq.
  unfold get_ditto_things, requests_get, http, bind, lift, ret.
  destruct (send tr _) as [r |]; [| reflexivity].
  destruct (raise_for_status r); [| reflexivity].
  now destruct (rs_json r).
Qed.

Lemma get_ditto_things_only_get source_url headers :
  sends only_get (get_ditto_things source_url headers).
Proof. unfold get_ditto_things, requests_get. sends_tac. Qed.

Lemma get_ditto_features_only_get thing_id source_url headers :
  sends only_get (get_ditto_features thing_id source_url headers).
Proof. unfold get_ditto_features, requests_get. sends_tac. Qed.

Lemma get_basyx_shell_harmless thing_id basyx_url :
  sends harmless (get_basyx_shell thing_id basyx_url).
Proof. unfold get_basyx_shell, requests_get. sends_tac. Qed.

Lemma create_basyx_shell_harmless thing_id basyx_url :
  sends harmless (create_basyx_shell thing_id basyx_url).
Proof. unfold create_basyx_shell, requests_post. sends_tac. Qed.

Lemma get_basyx_submodel_harmless submodel_id basyx_url :
  sends harmless (get_basyx_submodel submodel_id basyx_url).
Proof. unfold get_basyx_submodel, requests_get. sends_tac. Qed.

Lemma create_basyx_submodel_harmless thing_id submodel_id basyx_url :
  sends harmless (create_basyx_submodel thing_id submodel_id basyx_url).
Proof. unfold create_basyx_submodel, requests_post. sends_tac. Qed.

Lemma update_basyx_element_no_delete submodel_id element_id value basyx_url :
  sends no_delete
    (update_basyx_element submodel_id element_id value basyx_url).
Proof.
  unfold update_basyx_element, requests_get, requests_post, requests_patch.
  sends_tac.
Qed.

Lemma delete_basyx_shell_any thing_id basyx_url :
  sends any_request (delete_basyx_shell thing_id basyx_url).
Proof. unfold delete_basyx_shell, requests_delete. sends_tac. Qed.

Lemma delete_basyx_submodel_any submodel_id basyx_url :
  sends any_request (delete_basyx_submodel submodel_id basyx_url).
Proof. unfold delete_basyx_submodel, requests_delete. sends_tac. Qed.

Lemma delete_basyx_element_any submodel_id element_id basyx_url :
  sends any_request (delete_basyx_element submodel_id element_id basyx_url).
Proof. unfold delete_basyx_element, requests_delete. sends_tac. Qed.


Lemma delete_basyx_shell_run thing_id basyx_url tr :
  delete_basyx_shell thing_id basyx_url tr =
  (Ok (deleted tr (shell_url basyx_url thing_id)),
   tr ++ delete_sent (shell_url basyx_url thing_id)).
Proof.
  unfold delete_basyx_shell, shell_url, deleted, delete_sent, try_io, bind,
    lift, requests_delete, http, ret, rbind.
  destruct (Codec.encode_id thing_id) as [enc |];
    [| now rewrite app_nil_r].
  fold (delete_request (basyx_url ++ lit "/shells/" ++ enc)).
  now destruct (send tr _).
Qed.

Lemma delete_basyx_submodel_run submodel_id basyx_url tr :
  delete_basyx_submodel submodel_id basyx_url tr =
  (Ok (deleted tr (submodel_url basyx_url submodel_id)),
   tr ++ delete_sent (submodel_url basyx_url submodel_id)).
Proof.
  unfold delete_basyx_submodel, submodel_url, deleted, delete_sent, try_io,
    bind, lift, requests_delete, http, ret, rbind.
  destruct (Codec.encode_id submodel_id) as [enc |];
    [| now rewrite app_nil_r].
  fold (delete_request (basyx_url ++ lit "/submodels/" ++ enc)).
  now destruct (send tr _).
Qed.

Lemma delete_basyx_element_run submodel_id element_id basyx_url tr :
  delete_basyx_element submodel_id element_id basyx_url tr =
  (Ok (deleted tr (element_url basyx_url submodel_id element_id)),
   tr ++ delete_sent (element_url basyx_url submodel_id element_id)).
Proof.
  unfold delete_basyx_element, element_url, deleted, delete_sent, try_io,
    bind, lift, requests_delete, http, ret, rbind.
  destruct (Codec.encode_id submodel_id) as [enc |];
    [| now rewrite app_nil_r].
  fold (delete_request (basyx_url ++ lit "/submodels/" ++ enc
                        ++ lit "/submodel-elements/" ++ element_id)).
  now destruct (send tr _).
Qed.

Lemma deleted_not_found tr url response :
  send tr (delete_request url) = Ok response ->
  status_code response = 404 -> deleted tr (Ok url) = false.
Proof. unfold deleted. now intros -> ->. Qed.

Lemma delete_items_run basyx_url items :
  forall deleted tr,
    (exists n, fst (delete_items basyx_url items deleted tr) = Ok n) /\
    exists s, snd (delete_items basyx_url items deleted tr) = tr ++ s /\
              forall i url, In i items -> item_url basyx_url i = Ok url ->
                            In (delete_request url) s.
Proof.
  induction items as [| [id | id] items IH]; intros d tr;
    cbn [delete_items].
  - split; [now exists d |]. exists []. split; [now rewrite app_nil_r |].
    intros i url [].
  - unfold bind. rewrite delete_basyx_shell_run.
    destruct (IH (if deleted tr (shell_url basyx_url id)
                  then (fst d + 1, snd d) else d)
                 (tr ++ delete_sent (shell_url basyx_url id)))
      as [Hok (s & Es & Hs)].
    split; [exact Hok |].
    exists (delete_sent (shell_url basyx_url id) ++ s).
    split; [now rewrite Es, app_assoc |].
    intros i url [<- | Hin] Hu; apply in_or_app.
    + left. cbn [item_url] in Hu. rewrite Hu. now left.
    + right. eauto.
  - unfold bind. rewrite delete_basyx_submodel_run.
    destruct (IH (if deleted tr (submodel_url basyx_url id)
                  then (fst d, snd d + 1) else d)
                 (tr ++ delete_sent (submodel_url basyx_url id)))
      as [Hok (s & Es & Hs)].
    split; [exact Hok |].
    exists (delete_sent (submodel_url basyx_url id) ++ s).
    split; [now rewrite Es, app_assoc |].
    intros i url [<- | Hin] Hu; apply in_or_app.
    + left. cbn [item_url] in Hu. rewrite Hu. now left.
    + right. eauto.
Qed.

Lemma delete_elements_run basyx_url elements :
  forall deleted tr,
    (exists n, fst (delete_elements basyx_url elements deleted tr) = Ok n) /\
    exists s, snd (delete_elements basyx_url elements deleted tr) = tr ++ s /\
              forall sm el url,
                In (sm, el) elements -> element_url basyx_url sm el = Ok url ->
                In (delete_request url) s.
Proof.
  induction elements as [| [sm0 el0] elements IH]; intros d tr;
    cbn [delete_elements].
  - split; [now exists d |]. exists []. split; [now rewrite app_nil_r |].
    intros sm el url [].
  - unfold bind. rewrite delete_basyx_element_run.
    destruct (IH (if deleted tr (element_url basyx_url sm0 el0)
                  then d + 1 else d)
                 (tr ++ delete_sent (element_url basyx_url sm0 el0)))
      as [Hok (s & Es & Hs)].
    split; [exact Hok |].
    exists (delete_sent (element_url basyx_url sm0 el0) ++ s).
    split; [now rewrite Es, app_assoc |].
    intros sm el url [[= <- <-] | Hin] Hu; apply in_or_app.
    + left. rewrite Hu. now left.
    + right. eauto.
Qed.

(** With no answer of status 200, nothing is counted. *)
Lemma deleted_never tr url :
  (forall h r response, send h r = Ok response -> status_code response = 404) ->
  deleted tr url = false.
Proof.
  intros H. unfold deleted. destruct url as [u |]; [| reflexivity].
  destruct (send tr (delete_request u)) as [r |] eqn:E; [| reflexivity].
  now rewrite (H _ _ _ E).
Qed.

Lemma delete_items_not_found basyx_url items :
  (forall h r response, send h r = Ok response -> status_code response = 404) ->
  forall deleted tr,
    fst (delete_items basyx_url items deleted tr) = Ok deleted.
Proof.
  intros H. induction items as [| [id | id] items IH]; intros d tr;
    cbn [delete_items]; [reflexivity | |]; unfold bind.
  - rewrite delete_basyx_shell_run, (deleted_never _ _ H). apply IH.
  - rewrite delete_basyx_submodel_run, (deleted_never _ _ H). apply IH.
Qed.

Lemma delete_elements_not_found basyx_url elements :
  (forall h r response, send h r = Ok response -> status_code response = 404) ->
  forall deleted tr,
    fst (delete_elements basyx_url elements deleted tr) = Ok deleted.
Proof.
  intros H. induction elements as [| [sm el] elements IH]; intros d tr;
    cbn [delete_elements]; [reflexivity |]; unfold bind.
  rewrite delete_basyx_element_run, (deleted_never _ _ H). apply IH.
Qed.

Lemma run_deletions_run basyx_url (q : queues) tr :
  exists n s,
    run_deletions basyx_url q tr = (Ok n, tr ++ s) /\
    (forall i url, In i (fst q) -> item_url basyx_url i = Ok url ->
                   In (delete_request url) s) /\
    (forall sm el url,
        In (sm, el) (snd q) -> element_url basyx_url sm el = Ok url ->
        In (delete_request url) s) /\
    ((forall h r response,
         send h r = Ok response -> status_code response = 404) ->
     n = (0, 0, 0)).
Proof.
  unfold run_deletions, bind.
  destruct (delete_items_run basyx_url (fst q) (0, 0) tr)
    as [[n Hn] (s1 & E1 & H1)].
  pose proof (fun H => delete_items_not_found basyx_url (fst q) H (0, 0) tr)
    as A1.
  destruct (delete_items basyx_url (fst q) (0, 0) tr) as [r1 tr1].
  cbn [fst snd] in *. subst r1 tr1.
  destruct (delete_elements_run basyx_url (snd q) 0 (tr ++ s1))
    as [[m Hm] (s2 & E2 & H2)].
  pose proof (fun H => delete_elements_not_found basyx_url (snd q) H 0
                         (tr ++ s1)) as A2.
  destruct (delete_elements basyx_url (snd q) 0 (tr ++ s1)) as [r2 tr2].
  cbn [fst snd] in *. subst r2 tr2. unfold ret.
  exists (n, m), (s1 ++ s2). rewrite app_assoc.
  split; [reflexivity |]. split; [| split].
  - intros i url Hi Hu. apply in_or_app. left. eauto.
  - intros sm el url Hi Hu. apply in_or_app. right. eauto.
  - intros H. specialize (A1 H). specialize (A2 H).
    apply Ok_inj in A1, A2. now subst.
Qed.


End RegistryFacts.



(** ** The cleanup pass *)

Example cleanup_thing_valve_only :
  @cleanup_thing fromisoformat_basic sample_now valve_only_config ditto_url
    (lit "plc") plc_features
  = Ok ([SubmodelItem (lit "plc:pump")],
        [(lit "plc:valve", lit "timestamp");
         (lit "plc:valve", lit "signature")]).
Proof. vm_compute. reflexivity. Qed.

Example cleanup_thing_unconfigured :
  @cleanup_thing fromisoformat_basic sample_now other_thing_config ditto_url
    (lit "plc") plc_features
  = Ok ([ShellItem (lit "plc"); SubmodelItem (lit "plc:valve");
         SubmodelItem (lit "plc:pump")], []).
Proof. vm_compute. reflexivity. Qed.

Section CleanupFacts.

Context {parser : IsoParser}.

Variable now : Z.
Variable config : Config.
Variable source_url thing_id : str.

Local Abbreviation resolve feature_id :=
  (get_export_config now source_url thing_id feature_id config).

Lemma filtered_out_elements_In submodel_id all_properties selector sm p :
  In (sm, p) (filtered_out_elements submodel_id all_properties selector) <->
  sm = submodel_id /\ ~ In (lit "*") selector /\
  In p (keys all_properties) /\ ~ In p selector.
Proof.
  unfold filtered_out_elements.
  destruct (str_in (lit "*") selector) eqn:Hs.
  - apply str_in_In in Hs. cbn [In]. tauto.
  - assert (Hn : ~ In (lit "*") selector).
    { intros Hin. apply str_in_In in Hin. congruence. }
    rewrite in_map_iff. split.
    + intros (x & [= <- <-] & Hin). apply filter_In in Hin.
      destruct Hin as [Hk Hb]. repeat split; auto.
      intros Hin. apply str_in_In in Hin. rewrite Hin in Hb. discriminate.
    + intros (-> & _ & Hk & Hp). exists p. split; [reflexivity |].
      apply filter_In. split; [assumption |].
      destruct (str_in p selector) eqn:E; [| reflexivity].
      apply str_in_In in E. contradiction.
Qed.

Lemma thing_has_exports_none (features : features_dict) :
  (forall f, In f features -> resolve (fst f) = Ok None) ->
  thing_has_exports now config source_url thing_id features = Ok false.
Proof.
  induction features as [| [fid fd] fs IH]; intros H; cbn [thing_has_exports].
  - reflexivity.
  - pose proof (H (fid, fd) (or_introl eq_refl)) as Hfid.
    cbn [fst] in Hfid. rewrite Hfid. cbn [rbind].
    apply IH. intros f Hf. apply H. now right.
Qed.

Lemma thing_has_exports_some (features : features_dict) :
  (forall f, In f features -> exists r, resolve (fst f) = Ok r) ->
  (exists f selector, In f features /\ resolve (fst f) = Ok (Some selector)) ->
  thing_has_exports now config source_url thing_id features = Ok true.
Proof.
  induction features as [| [fid fd] fs IH]; intros Hok (f & sel & Hin & Hr);
    cbn [thing_has_exports].
  - destruct Hin.
  - destruct (Hok (fid, fd)) as [r Hfid]; [now left |].
    cbn [fst] in Hfid. rewrite Hfid. cbn [rbind].
    destruct r as [s |]; [reflexivity |].
    apply IH.
    + intros g Hg. apply Hok. now right.
    + destruct Hin as [<- | Hin]; [cbn [fst] in Hr; congruence |].
      now exists f, sel.
Qed.

(** What the loop over the features of a thing with exports queues. *)
Lemma check_features_run (features : features_dict) :
  (forall f, In f features -> exists r, resolve (fst f) = Ok r) ->
  exists items elements,
    check_features now config source_url thing_id features
    = Ok (items, elements) /\
    (forall i, In i items <->
               exists f, In f features /\ resolve (fst f) = Ok None /\
                         i = SubmodelItem (submodel_id_of thing_id (fst f))) /\
    (forall sm p, In (sm, p) elements <->
                  exists f selector,
                    In f features /\ resolve (fst f) = Ok (Some selector) /\
                    In (sm, p)
                       (filtered_out_elements
                          (submodel_id_of thing_id (fst f))
                          (properties_of (snd f)) selector)).
Proof.
  induction features as [| [fid fd] fs IH]; intros Hok; cbn [check_features].
  - exists [], []. split; [reflexivity |]. split.
    + intros i. split; [intros [] | intros (f & [] & _)].
    + intros sm p. split; [intros [] | intros (f & s & [] & _)].
  - destruct (Hok (fid, fd)) as [r Hfid]; [now left |].
    cbn [fst] in Hfid. rewrite Hfid. cbn [rbind].
    destruct IH as (items & elements & E & Hi & He).
    { intros g Hg. apply Hok. now right. }
    rewrite E. cbn [rbind]. unfold enqueue.
    destruct r as [sel |]; cbv zeta; cbn [fst snd app];
      eexists; eexists; (split; [reflexivity |]).
    + split.
      * intros i. rewrite Hi. split.
        -- intros (f & Hf & R). exists f. split; [now right | exact R].
        -- intros (f & [<- | Hf] & Hr & Hx).
           ++ cbn [fst] in Hr. congruence.
           ++ now exists f.
      * intros sm p. rewrite in_app_iff, He. split.
        -- intros [Hin | (f & s & Hf & R)].
           ++ exists (fid, fd), sel. split; [now left | now split].
           ++ exists f, s. split; [now right | exact R].
        -- intros (f & s & [<- | Hf] & Hr & Hx).
           ++ cbn [fst snd] in *. left. congruence.
           ++ right. now exists f, s.
    + split.
      * intros i. cbn [In]. rewrite Hi. split.
        -- intros [<- | (f & Hf & R)].
           ++ exists (fid, fd). split; [now left | now split].
           ++ exists f. split; [now right | exact R].
        -- intros (f & [<- | Hf] & Hr & Hx).
           ++ left. now symmetry.
           ++ right. now exists f.
      * intros sm p. rewrite He. split.
        -- intros (f & s & Hf & R). exists f, s. split; [now right | exact R].
        -- intros (f & s & [<- | Hf] & Hr & Hx).
           ++ cbn [fst] in Hr. congruence.
           ++ now exists f, s.
Qed.


End CleanupFacts.


(** ** The two passes of a cycle *)

Example cleanup_stops_at_source_a :
  sent_by (@cleanup_basyx_resources fromisoformat_basic source_a_down
             sample_now two_sources_config) []
  = [things_request source_a].
Proof. vm_compute. reflexivity. Qed.

Example export_goes_on_after_source_a :
  sent_by (@export_sources fromisoformat_basic toy_crypto source_a_down
             sample_now two_sources_config basyx
             (cfg_sources two_sources_config)) []
  = [things_request source_a; things_request source_b].
Proof. vm_compute. reflexivity. Qed.

Section PassFacts.

Context {parser : IsoParser} {crypto : Crypto} {network : Network}.

Variable now : Z.
Variable config : Config.

Lemma harmless_any {A} (m : io A) : sends harmless m -> sends any_request m.
Proof. apply sends_weaken. intros r _. exact I. Qed.

Lemma only_get_any {A} (m : io A) : sends only_get m -> sends any_request m.
Proof. apply sends_weaken. intros r _. exact I. Qed.

(** *** The cleanup pass asks, then deletes *)

Lemma cleanup_things_only_get source_url headers things :
  forall q, sends only_get
              (cleanup_things now config source_url headers things q).
Proof.
  induction things as [| thing rest IH]; intros q; cbn [cleanup_things].
  - apply sends_ret.
  - destruct (thingId thing) as [| c id]; [apply IH |].
    apply sends_bind; [apply get_ditto_features_only_get | intros features].
    apply sends_bind; [apply sends_lift | intros new]. apply IH.
Qed.

Lemma cleanup_sources_only_get sources :
  forall q, sends only_get (cleanup_sources now config sources q).
Proof.
  induction sources as [| s rest IH]; intros q; cbn [cleanup_sources].
  - apply sends_ret.
  - apply sends_bind; [apply get_ditto_things_only_get | intros things].
    apply sends_bind; [apply cleanup_things_only_get | intros q']. apply IH.
Qed.

Lemma delete_items_any basyx_url items :
  forall d, sends any_request (delete_items basyx_url items d).
Proof.
  induction items as [| [id | id] rest IH]; intros d; cbn [delete_items].
  - apply sends_ret.
  - apply sends_bind; [apply delete_basyx_shell_any | intros ok]. apply IH.
  - apply sends_bind; [apply delete_basyx_submodel_any | intros ok]. apply IH.
Qed.

Lemma delete_elements_any basyx_url elements :
  forall d, sends any_request (delete_elements basyx_url elements d).
Proof.
  induction elements as [| [sm el] rest IH]; intros d; cbn [delete_elements].
  - apply sends_ret.
  - apply sends_bind; [apply delete_basyx_element_any | intros ok]. apply IH.
Qed.

Lemma run_deletions_any basyx_url q :
  sends any_request (run_deletions basyx_url q).
Proof.
  unfold run_deletions.
  apply sends_bind; [apply delete_items_any | intros d].
  apply sends_bind; [apply delete_elements_any | intros n]. apply sends_ret.
Qed.

Lemma cleanup_basyx_resources_any :
  sends any_request (cleanup_basyx_resources now config).
Proof.
  unfold cleanup_basyx_resources.
  destruct (basyx_url_of config) as [basyx_url |]; [| apply sends_ret].
  apply sends_try_io; [| intros e; apply sends_ret].
  apply sends_bind;
    [apply only_get_any, cleanup_sources_only_get | intros q].
  apply sends_bind; [apply run_deletions_any | intros n]. apply sends_ret.
Qed.

Lemma cleanup_basyx_resources_ok tr :
  fst (cleanup_basyx_resources now config tr) = Ok tt.
Proof.
  unfold cleanup_basyx_resources.
  destruct (basyx_url_of config); [apply try_io_ret_ok | reflexivity].
Qed.

(** An error while the sources are enumerated ends the pass at once: the
    requests of the pass are those of the enumeration. *)
Lemma cleanup_aborted basyx_url tr e :
  basyx_url_of config = Some basyx_url ->
  fst (cleanup_sources now config (cfg_sources config) ([], []) tr)
  = Raise e ->
  sent_by (cleanup_basyx_resources now config) tr
  = sent_by (cleanup_sources now config (cfg_sources config) ([], [])) tr.
Proof.
  intros Hu He. unfold sent_by, cleanup_basyx_resources. rewrite Hu.
  unfold try_io. rewrite (bind_raise _ _ _ e He). reflexivity.
Qed.

(** *** The export pass *)

Lemma harmless_no_delete {A} (m : io A) :
  sends harmless m -> sends no_delete m.
Proof.
  apply sends_weaken. intros r H E. unfold harmless in H.
  unfold writes_element_or_deletes in H. now rewrite E in H.
Qed.

Lemma only_get_no_delete {A} (m : io A) :
  sends only_get m -> sends no_delete m.
Proof.
  apply sends_weaken. intros r H E. unfold only_get in H. congruence.
Qed.

Lemma no_delete_any {A} (m : io A) : sends no_delete m -> sends any_request m.
Proof. apply sends_weaken. intros r _. exact I. Qed.

Lemma update_elements_no_delete submodel_id basyx_url properties :
  sends no_delete (update_elements submodel_id basyx_url properties).
Proof.
  induction properties as [| [key value] rest IH]; cbn [update_elements].
  - apply sends_ret.
  - apply sends_bind; [apply update_basyx_element_no_delete | intros _].
    apply IH.
Qed.

Lemma ensure_targets_harmless thing_id feature_id basyx_url has :
  sends harmless (ensure_targets thing_id feature_id basyx_url has).
Proof.
  unfold ensure_targets. apply sends_bind.
  - destruct (negb has); [| apply sends_ret].
    apply sends_bind; [apply get_basyx_shell_harmless | intros shell].
    destruct (negb (found shell));
      [apply create_basyx_shell_harmless | apply sends_ret].
  - intros _.
    apply sends_bind; [apply get_basyx_submodel_harmless | intros submodel].
    destruct (negb (found submodel));
      [apply create_basyx_submodel_harmless | apply sends_ret].
Qed.

Lemma gate_sends P fd : sends P (gate config fd).
Proof.
  unfold gate. destruct (cfg_verify_signatures config);
    [apply sends_lift | apply sends_ret].
Qed.

Lemma export_feature_no_delete basyx_url source_url thing_id has feature :
  sends no_delete
    (export_feature now config basyx_url source_url thing_id has feature).
Proof.
  unfold export_feature. destruct feature as [feature_id fd].
  apply sends_bind; [apply sends_lift | intros [selector |]];
    [| apply sends_ret].
  apply sends_bind;
    [apply harmless_no_delete, ensure_targets_harmless | intros _].
  apply sends_bind; [apply gate_sends | intros verified].
  destruct (negb verified); [apply sends_ret |].
  apply sends_bind; [apply update_elements_no_delete | intros _].
  apply sends_ret.
Qed.

Lemma export_features_no_delete basyx_url source_url thing_id features :
  forall has, sends no_delete
                (export_features now config basyx_url source_url thing_id has
                   features).
Proof.
  induction features as [| f rest IH]; intros has; cbn [export_features].
  - apply sends_ret.
  - apply sends_bind; [apply export_feature_no_delete | intros has'].
    apply IH.
Qed.

Lemma export_things_no_delete basyx_url source_url headers things :
  sends no_delete
    (export_things now config basyx_url source_url headers things).
Proof.
  induction things as [| thing rest IH]; cbn [export_things].
  - apply sends_ret.
  - apply sends_bind;
      [apply only_get_no_delete, get_ditto_features_only_get
      | intros features].
    apply sends_bind; [apply export_features_no_delete | intros _]. apply IH.
Qed.

Lemma export_source_no_delete basyx_url s :
  sends no_delete (export_source now config basyx_url s).
Proof.
  unfold export_source.
  apply sends_try_io; [| intros e; apply sends_ret].
  apply sends_bind;
    [apply only_get_no_delete, get_ditto_things_only_get | intros things].
  apply export_things_no_delete.
Qed.

(** The export pass never deletes. *)
Lemma export_sources_no_delete basyx_url sources :
  sends no_delete (export_sources now config basyx_url sources).
Proof.
  induction sources as [| s rest IH]; cbn [export_sources].
  - apply sends_ret.
  - apply sends_bind; [apply export_source_no_delete | intros _]. apply IH.
Qed.

Lemma export_things_any basyx_url source_url headers things :
  sends any_request
    (export_things now config basyx_url source_url headers things).
Proof. apply no_delete_any, export_things_no_delete. Qed.

Lemma export_source_any basyx_url s :
  sends any_request (export_source now config basyx_url s).
Proof. apply no_delete_any, export_source_no_delete. Qed.

Lemma export_sources_any basyx_url sources :
  sends any_request (export_sources now config basyx_url sources).
Proof. apply no_delete_any, export_sources_no_delete. Qed.

Lemma export_source_ok basyx_url s tr :
  fst (export_source now config basyx_url s tr) = Ok tt.
Proof. apply try_io_ret_ok. Qed.

(** The first request for a source lists its things. *)
Lemma export_source_lists basyx_url s tr :
  In (things_request s) (sent_by (export_source now config basyx_url s) tr).
Proof.
  unfold export_source.
  rewrite (sent_by_try_io_ret any_request).
  - rewrite (sent_by_bind any_request).
    + rewrite get_ditto_things_sent. now left.
    + apply only_get_any, get_ditto_things_only_get.
    + intros things. apply export_things_any.
  - apply sends_bind;
      [apply only_get_any, get_ditto_things_only_get | intros things].
    apply export_things_any.
Qed.

(** Whatever happens in a source, the pass goes on with the next one. *)
Lemma export_sources_run basyx_url sources :
  forall tr,
    fst (export_sources now config basyx_url sources tr) = Ok tt /\
    forall s, In s sources ->
              In (things_request s)
                 (sent_by (export_sources now config basyx_url sources) tr).
Proof.
  induction sources as [| s0 rest IH]; intros tr; cbn [export_sources].
  - split; [reflexivity | intros s []].
  - pose proof (export_source_ok basyx_url s0 tr) as Hok.
    destruct (IH (snd (export_source now config basyx_url s0 tr)))
      as [IHok IHin].
    split.
    + now rewrite (bind_ok _ _ _ tt Hok).
    + intros s Hs.
      rewrite (sent_by_bind any_request);
        [| apply export_source_any | intros _; apply export_sources_any].
      rewrite Hok. apply in_or_app. destruct Hs as [<- | Hs].
      * left. apply export_source_lists.
      * right. now apply IHin.
Qed.


(** C9.  With verification enabled, a feature that resolves to a selector
    and fails the gate gets no property write: the requests sent for it are
    those that ensure its shell and its submodel, none of them writes an
    element or deletes anything, and the feature loop goes on.  What was
    ensured stays in the target: no request of the export pass, for any
    source, thing or feature, is a deletion. *)
Theorem gate_failure_skips_writes_only
  basyx_url source_url thing_id has feature_id fd selector tr :
  cfg_verify_signatures config = true ->
  get_export_config now source_url thing_id feature_id config
  = Ok (Some selector) ->
  verify_feature_signature fd (cfg_public_key_path config) = Ok false ->
  sent_by (export_feature now config basyx_url source_url thing_id has
             (feature_id, fd)) tr
  = sent_by (ensure_targets thing_id feature_id basyx_url has) tr /\
  Forall harmless
    (sent_by (export_feature now config basyx_url source_url thing_id has
                (feature_id, fd)) tr) /\
  (fst (ensure_targets thing_id feature_id basyx_url has tr) = Ok tt ->
   fst (export_feature now config basyx_url source_url thing_id has
          (feature_id, fd) tr) = Ok true) /\
  (forall sources tr',
      Forall no_delete
        (sent_by (export_sources now config basyx_url sources) tr')).
Proof.
  intros Hv Hr Hg.
  assert (E : export_feature now config basyx_url source_url thing_id has
                (feature_id, fd) tr
              = match ensure_targets thing_id feature_id basyx_url has tr with
                | (Ok _, tr') => (Ok true, tr')
                | (Raise e, tr') => (Raise e, tr')
                end).
  { unfold export_feature, gate. rewrite Hr, Hv, Hg.
    unfold bind at 1. unfold lift at 1. unfold bind at 1.
    destruct (ensure_targets thing_id feature_id basyx_url has tr)
      as [[[] | e] tr']; reflexivity. }
  assert (S : sent_by (export_feature now config basyx_url source_url
                         thing_id has (feature_id, fd)) tr
              = sent_by (ensure_targets thing_id feature_id basyx_url has) tr).
  { unfold sent_by. rewrite E.
    now destruct (ensure_targets thing_id feature_id basyx_url has tr)
      as [[[] | e] tr']. }
  split; [exact S |]. split; [| split].
  - rewrite S. apply ensure_targets_harmless.
  - rewrite E.
    destruct (ensure_targets thing_id feature_id basyx_url has tr)
      as [[[] | e] tr']; cbn [fst]; [reflexivity | discriminate].
  - intros sources tr'. apply export_sources_no_delete.
Qed.

End PassFacts.



Lemma gate_failure_skips_writes_only_witness :
  Forall harmless
    (sent_by (@export_feature fromisoformat_basic toy_crypto empty_target
                sample_now verifying_config basyx ditto_url (lit "plc") false
                (lit "valve", forged_feature)) []).
Proof.
  apply (@gate_failure_skips_writes_only fromisoformat_basic toy_crypto
           empty_target sample_now verifying_config basyx ditto_url
           (lit "plc") false (lit "valve") forged_feature [lit "*"] []).
  - reflexivity.
  - vm_compute. reflexivity.
  - vm_compute. reflexivity.
Defined.

Example gate_failure_requests :
  @export_feature fromisoformat_basic toy_crypto empty_target
    sample_now verifying_config basyx ditto_url (lit "plc") false
    (lit "valve", forged_feature) []
  = (Ok true,
     [{| rq_method := GET; rq_url := basyx ++ lit "/shells/cGxj";
         rq_authorization := None; rq_json := None |};
      {| rq_method := POST; rq_url := basyx ++ lit "/shells";
         rq_authorization := None;
         rq_json := Some (ShellPayload (lit "plc")) |};
      {| rq_method := GET;
         rq_url := basyx ++ lit "/submodels/cGxjOnZhbHZl";
         rq_authorization := None; rq_json := None |};
      {| rq_method := POST; rq_url := basyx ++ lit "/submodels";
         rq_authorization := None;
         rq_json := Some (SubmodelPayload (lit "plc:valve")) |};
      {| rq_method := POST;
         rq_url := basyx ++ lit "/shells/cGxj/submodel-refs";
         rq_authorization := None;
         rq_json := Some (ReferencePayload (lit "plc:valve")) |}]).
Proof. vm_compute. reflexivity. Qed.

Example verified_feature_requests :
  map rq_method
    (sent_by (@export_feature fromisoformat_basic toy_crypto empty_target
                sample_now verifying_config basyx ditto_url (lit "plc") true
                (lit "valve", signed_feature)) [])
  = [GET; POST; POST; GET; POST; GET; POST].
Proof. vm_compute. reflexivity. Qed.

(** ** Further properties of the identifier codec *)

Section CodecExtra.
Import Codec.

Ltac forall_bytes :=
  repeat match goal with
         | H : Forall is_byte (_ :: _) |- _ =>
             apply Forall_cons_iff in H; destruct H
         end.

Ltac sextet_bounds :=
  unfold is_byte, sextet1, sextet2, sextet3, sextet4 in *;
  Z.div_mod_to_equations; lia.

Lemma urlsafe_char_urlsafe (i : Z) :
  0 <= i < 64 -> is_urlsafe (urlsafe_char i) = true.
Proof.
  unfold urlsafe_char, is_urlsafe. intros Hi.
  destruct (i <? 26) eqn:A1; [| destruct (i <? 52) eqn:A2;
    [| destruct (i <? 62) eqn:A3; [| destruct (i =? 62) eqn:A4]]];
    try reflexivity;
    repeat match goal with
           | H : (_ <? _) = true |- _ => apply Z.ltb_lt in H
           | H : (_ <? _) = false |- _ => apply Z.ltb_ge in H
           end.
  - replace ((65 <=? 65 + i) && (65 + i <=? 90)) with true; [reflexivity |].
    symmetry. apply andb_true_iff. split; apply Z.leb_le; lia.
  - replace ((97 <=? 97 + (i - 26)) && (97 + (i - 26) <=? 122)) with true;
      [now rewrite orb_true_r |].
    symmetry. apply andb_true_iff. split; apply Z.leb_le; lia.
  - replace ((48 <=? 48 + (i - 52)) && (48 + (i - 52) <=? 57)) with true;
      [now rewrite !orb_true_r |].
    symmetry. apply andb_true_iff. split; apply Z.leb_le; lia.
Qed.

Lemma urlsafe_b64encode_shape (l : bytes) :
  Forall is_byte l ->
  Forall (fun c => is_urlsafe c = true) (urlsafe_b64encode l) /\
  exists n, List.length (urlsafe_b64encode l) = (4 * n)%nat.
Proof.
  induction l as [| a | a b | a b c l IH] using list_ind3; intros F;
    forall_bytes.
  - split; [constructor | now exists 0%nat].
  - rewrite urlsafe_b64encode_1. split; [| now exists 1%nat].
    repeat constructor; apply urlsafe_char_urlsafe; sextet_bounds.
  - rewrite urlsafe_b64encode_2 by assumption. split; [| now exists 1%nat].
    repeat constructor; apply urlsafe_char_urlsafe; sextet_bounds.
  - rewrite urlsafe_b64encode_3 by assumption.
    destruct (IH ltac:(assumption)) as [IHs [n IHn]]. split.
    + repeat (constructor; [apply urlsafe_char_urlsafe; sextet_bounds |]).
      exact IHs.
    + exists (S n). cbn [List.length]. rewrite IHn. lia.
Qed.

(** X1.  An encoded identifier is a path-safe token: it holds only letters,
    digits, [-], [_] and [=] (so no [/], [:], [+] or [?]), and its length is
    a multiple of four. *)
Theorem encode_id_path_safe (raw_id e : str) :
  encode_id raw_id = Ok e ->
  Forall (fun c => is_urlsafe c = true) e /\
  exists n, List.length e = (4 * n)%nat.
Proof.
  intros H. apply encode_id_Ok in H. destruct H as (bs & U & ->).
  apply urlsafe_b64encode_shape. now apply utf8_encode_bytes in U.
Qed.

Lemma utf8_encode_cp_scalar (c : Z) :
  (exists bs, utf8_encode_cp c = Ok bs) <-> is_scalar c = true.
Proof.
  unfold utf8_encode_cp, is_scalar.
  destruct (Z.ltb_spec c 0).
  { destruct (Z.leb_spec 0 c); [lia |]. cbn [andb].
    split; [intros [bs E]; discriminate | discriminate]. }
  destruct (Z.leb_spec 0 c); [| lia]. cbn [andb].
  destruct (Z.ltb_spec c 128).
  { destruct (Z.ltb_spec c 1114112); [| lia].
    destruct (Z.leb_spec 55296 c); [lia |]. cbn [andb negb].
    split; eauto. }
  destruct (Z.ltb_spec c 2048).
  { destruct (Z.ltb_spec c 1114112); [| lia].
    destruct (Z.leb_spec 55296 c); [lia |]. cbn [andb negb].
    split; eauto. }
  destruct (Z.ltb_spec c 65536).
  { destruct (Z.ltb_spec c 1114112); [| lia]. cbn [andb].
    destruct ((55296 <=? c) && (c <=? 57343)); cbn [negb].
    - split; [intros [bs E]; discriminate | discriminate].
    - split; eauto. }
  destruct (Z.ltb_spec c 1114112).
  - destruct (Z.leb_spec 55296 c); [| lia].
    destruct (Z.leb_spec c 57343); [lia |]. cbn [andb negb]. split; eauto.
  - cbn [andb]. split; [intros [bs E]; discriminate | discriminate].
Qed.

Lemma utf8_encode_scalar (s : str) :
  (exists bs, utf8_encode s = Ok bs) <-> forallb is_scalar s = true.
Proof.
  induction s as [| c s IH]; cbn [utf8_encode forallb].
  - split; eauto.
  - rewrite andb_true_iff, <- IH, <- utf8_encode_cp_scalar. unfold rbind.
    split.
    + intros [bs E]. destruct (utf8_encode_cp c) as [b |]; [| discriminate].
      destruct (utf8_encode s) as [r |]; [| discriminate]. eauto.
    + intros [[b ->] [r ->]]. eauto.
Qed.

(** X2.  [encode_id] has exactly one failure mode: it returns an encoding
    for an identifier made of Unicode scalar values and raises on every
    identifier that holds a surrogate (or a value that is no code point). *)
Theorem encode_id_defined_on_scalars (raw_id : str) :
  (forallb is_scalar raw_id = true ->
   exists e, encode_id raw_id = Ok e) /\
  (forallb is_scalar raw_id = false ->
   encode_id raw_id = Raise UnicodeEncodeError).
Proof.
  split.
  - intros H. apply utf8_encode_scalar in H. destruct H as [bs H].
    exists (urlsafe_b64encode bs). now apply encode_id_utf8.
  - intros H. unfold encode_id.
    destruct (utf8_encode raw_id) as [bs | e] eqn:E.
    + assert (forallb is_scalar raw_id = true) by
        (apply utf8_encode_scalar; eauto). congruence.
    + cbn [rbind]. f_equal. clear H. revert e E.
      induction raw_id as [| c s IH]; cbn [utf8_encode]; [discriminate |].
      unfold rbind. intros e.
      destruct (utf8_encode_cp c) as [b |] eqn:Ec.
      * destruct (utf8_encode s) as [r |]; [discriminate |].
        intros [= <-]. now apply IH.
      * intros [= <-]. unfold utf8_encode_cp in Ec.
        repeat match type of Ec with
               | (if ?b then _ else _) = _ => destruct b
               end; congruence.
Qed.

End CodecExtra.

Lemma encode_id_path_safe_witness :
  Forall (fun c => is_urlsafe c = true) (lit "cGxjOnZhbHZl") /\
  exists n, List.length (lit "cGxjOnZhbHZl") = (4 * n)%nat.
Proof.
  apply (encode_id_path_safe (lit "plc:valve")). reflexivity.
Defined.

Lemma encode_id_defined_on_scalars_witness :
  (exists e, Codec.encode_id (lit "plc:valve") = Ok e) /\
  Codec.encode_id [112; 55296] = Raise UnicodeEncodeError.
Proof.
  split.
  - apply (proj1 (encode_id_defined_on_scalars (lit "plc:valve"))).
    reflexivity.
  - apply (proj2 (encode_id_defined_on_scalars [112; 55296])). reflexivity.
Defined.

(** ** Further properties of the resolver *)

Section ResolverExtra.

Context {parser : IsoParser}.

Lemma scan_features_sound feature_id features props :
  scan_features feature_id features = Returned props ->
  exists f, In f features /\
            rule_matches (fr_feature_id f) feature_id = true /\
            props = fr_properties f.
Proof.
  induction features as [| f fs IH]; cbn [scan_features]; [discriminate |].
  destruct (rule_matches (fr_feature_id f) feature_id) eqn:Hm.
  - intros [= <-]. exists f. repeat split; [now left | assumption].
  - intros H. destruct (IH H) as (g & Hg & R). exists g. split; [now right |].
    exact R.
Qed.

Lemma scan_things_sound now thing_id feature_id things selector :
  scan_things now thing_id feature_id things = Ok (Returned (Some selector)) ->
  exists t f,
    In t things /\ rule_matches (tr_thing_id t) thing_id = true /\
    in_downtime now t = Ok false /\
    In f (tr_features t) /\
    rule_matches (fr_feature_id f) feature_id = true /\
    selector = fr_properties f.
Proof.
  induction things as [| t ts IH]; cbn [scan_things]; [discriminate |].
  destruct (rule_matches (tr_thing_id t) thing_id) eqn:Hm.
  - destruct (in_downtime now t) as [[|] | e] eqn:Hd; try discriminate.
    destruct (scan_features feature_id (tr_features t)) as [props |] eqn:Hf.
    + intros [= <-]. apply scan_features_sound in Hf.
      destruct Hf as (f & Hin & Hfm & ->).
      exists t, f. repeat split; auto. now left.
    + intros H. destruct (IH H) as (t' & f & Hin & R).
      exists t', f. split; [now right | exact R].
  - intros H. destruct (IH H) as (t' & f & Hin & R).
    exists t', f. split; [now right | exact R].
Qed.

(** X3.  The resolver never invents a selector: one it returns is the
    property list of a feature rule that matches the feature, declared in a
    thing rule that matches the thing and is not in downtime, declared in a
    source rule with the queried url. *)
Theorem get_export_config_sound
  now source_url thing_id feature_id config selector :
  get_export_config now source_url thing_id feature_id config
  = Ok (Some selector) ->
  exists s t f,
    In s (cfg_sources config) /\ sr_source_url s = source_url /\
    In t (sr_things s) /\ rule_matches (tr_thing_id t) thing_id = true /\
    in_downtime now t = Ok false /\
    In f (tr_features t) /\
    rule_matches (fr_feature_id f) feature_id = true /\
    selector = fr_properties f.
Proof.
  unfold get_export_config.
  induction (cfg_sources config) as [| s ss IH]; cbn [scan_sources];
    [discriminate |].
  destruct (str_eqb (sr_source_url s) source_url) eqn:Hu.
  - destruct (scan_things now thing_id feature_id (sr_things s))
      as [[r |] | e] eqn:Ht; try discriminate.
    + intros [= ->]. apply scan_things_sound in Ht.
      destruct Ht as (t & f & Hin & R). apply str_eqb_eq in Hu.
      exists s, t, f. split; [now left |]. split; [exact Hu |].
      split; [exact Hin | exact R].
    + intros H. destruct (IH H) as (s' & t & f & Hin & R).
      exists s', t, f. split; [now right | exact R].
  - intros H. destruct (IH H) as (s' & t & f & Hin & R).
    exists s', t, f. split; [now right | exact R].
Qed.

(** X4.  A thing that no rule of the queried source matches is unconfigured
    whatever the rest of the policy holds: the resolver returns [None]
    without reading the downtime of any rule, so rules that are malformed
    but do not match the thing cannot make it fail. *)
Theorem unmatched_thing_is_unconfigured
  now source_url thing_id feature_id config :
  (forall t, In t (candidate_things source_url config) ->
             rule_matches (tr_thing_id t) thing_id = false) ->
  get_export_config now source_url thing_id feature_id config = Ok None.
Proof.
  intros H. unfold get_export_config. rewrite scan_sources_candidates.
  fold (candidate_things source_url config).
  rewrite scan_things_no_match; [reflexivity |].
  destruct (find _ (candidate_things source_url config)) as [t |] eqn:E;
    [| reflexivity].
  apply find_some in E. destruct E as [Hin Hm].
  rewrite (H t Hin) in Hm. discriminate.
Qed.

End ResolverExtra.

Lemma get_export_config_sound_witness :
  exists s t f,
    In s (cfg_sources fallthrough_config) /\ sr_source_url s = ditto_url /\
    In t (sr_things s) /\ rule_matches (tr_thing_id t) (lit "plc") = true /\
    @in_downtime fromisoformat_basic sample_now t = Ok false /\
    In f (tr_features t) /\
    rule_matches (fr_feature_id f) (lit "pump") = true /\
    [lit "level"] = fr_properties f.
Proof.
  apply (@get_export_config_sound fromisoformat_basic sample_now ditto_url
           (lit "plc") (lit "pump") fallthrough_config [lit "level"]).
  vm_compute. reflexivity.
Defined.

Lemma unmatched_thing_is_unconfigured_witness :
  @get_export_config fromisoformat_basic sample_now ditto_url (lit "hmi")
    (lit "valve") no_downtime_config = Ok None.
Proof.
  apply (@unmatched_thing_is_unconfigured fromisoformat_basic).
  intros t [<- | []]. reflexivity.
Defined.

(** ** Further properties of the two passes *)

Lemma keys_filter_In (sel : list str) (all : props) (p : str) :
  In p (keys (filter (fun kv => str_in (fst kv) sel) all)) <->
  In p (keys all) /\ In p sel.
Proof.
  unfold keys. rewrite !in_map_iff. split.
  - intros ([k v] & <- & Hin). apply filter_In in Hin.
    destruct Hin as [Hin Hs]. cbn [fst] in *. apply str_in_In in Hs.
    split; [| exact Hs]. now exists (k, v).
  - intros [([k v] & <- & Hin) Hs]. exists (k, v). split; [reflexivity |].
    apply filter_In. split; [exact Hin |]. now apply str_in_In.
Qed.

(** X5.  The export and the cleanup split the properties of a configured
    feature between them: what the export writes is a property of the source
    feature, with the source's value, that the selector names or that a
    ["*"] in the selector lets through; and every property of the source
    feature is either written by the export or queued for removal by the
    cleanup, never both. *)
Theorem written_or_removed (all_properties : props) (selector : list str)
  (submodel_id : str) :
  (forall k v, In (k, v) (filter_properties all_properties selector) ->
               In (k, v) all_properties /\
               (In k selector \/ In (lit "*") selector)) /\
  (forall p, In p (keys all_properties) ->
             (In p (keys (filter_properties all_properties selector)) /\
              ~ In (submodel_id, p)
                   (filtered_out_elements submodel_id all_properties
                      selector)) \/
             (~ In p (keys (filter_properties all_properties selector)) /\
              In (submodel_id, p)
                 (filtered_out_elements submodel_id all_properties
                    selector))).
Proof.
  unfold filter_properties. split.
  - intros k v. destruct (str_in (lit "*") selector) eqn:Hs.
    + apply str_in_In in Hs. auto.
    + intros Hin. apply filter_In in Hin. destruct Hin as [Hin Hk].
      cbn [fst] in Hk. apply str_in_In in Hk. auto.
  - intros p Hp. rewrite filtered_out_elements_In.
    destruct (str_in (lit "*") selector) eqn:Hs.
    + apply str_in_In in Hs. left. tauto.
    + assert (Hn : ~ In (lit "*") selector).
      { intros Hin. apply str_in_In in Hin. congruence. }
      rewrite keys_filter_In.
      destruct (str_in p selector) eqn:Hps.
      * apply str_in_In in Hps. left. tauto.
      * assert (~ In p selector).
        { intros Hin. apply str_in_In in Hin. congruence. }
        right. tauto.
Qed.

Section PassExtra.

Context {parser : IsoParser} {crypto : Crypto} {network : Network}.

Variable now : Z.
Variable config : Config.

Lemma submodel_id_of_inj thing_id f1 f2 :
  submodel_id_of thing_id f1 = submodel_id_of thing_id f2 -> f1 = f2.
Proof.
  unfold submodel_id_of. intros H. apply app_inv_head in H.
  now apply app_inv_head in H.
Qed.

Lemma thing_has_exports_false_inv source_url thing_id features :
  thing_has_exports now config source_url thing_id features = Ok false ->
  forall f, In f features ->
            get_export_config now source_url thing_id (fst f) config
            = Ok None.
Proof.
  induction features as [| [fid fd] fs IH]; cbn [thing_has_exports];
    [intros _ f [] |].
  destruct (get_export_config now source_url thing_id fid config)
    as [[sel |] | e] eqn:E; cbn [rbind]; try discriminate.
  intros H f [<- | Hin]; [exact E | now apply IH].
Qed.

Lemma check_features_submodel source_url thing_id features q :
  check_features now config source_url thing_id features = Ok q ->
  forall sid, In (SubmodelItem sid) (fst q) ->
              exists f, In f features /\
                        get_export_config now source_url thing_id (fst f)
                          config = Ok None /\
                        sid = submodel_id_of thing_id (fst f).
Proof.
  revert q. induction features as [| [fid fd] fs IH]; intros q;
    cbn [check_features].
  - intros [= <-] sid [].
  - destruct (get_export_config now source_url thing_id fid config)
      as [r | e] eqn:E; cbn [rbind]; [| discriminate].
    destruct (check_features now config source_url thing_id fs)
      as [later |]; cbn [rbind]; [| discriminate].
    intros [= <-] sid. unfold enqueue. cbn [fst]. rewrite in_app_iff.
    intros [Hin | Hin].
    + destruct r as [sel |]; cbn [fst] in Hin; [destruct Hin |].
      destruct Hin as [[= <-] | []].
      exists (fid, fd). split; [now left | now split].
    + destruct (IH later eq_refl sid Hin) as (f & Hf & R).
      exists f. split; [now right | exact R].
Qed.

Lemma check_features_no_shell source_url thing_id features q :
  check_features now config source_url thing_id features = Ok q ->
  forall id, ~ In (ShellItem id) (fst q).
Proof.
  revert q. induction features as [| [fid fd] fs IH]; intros q;
    cbn [check_features].
  - intros [= <-] id [].
  - destruct (get_export_config now source_url thing_id fid config)
      as [r | e]; cbn [rbind]; [| discriminate].
    destruct (check_features now config source_url thing_id fs)
      as [later |]; cbn [rbind]; [| discriminate].
    intros [= <-] id. unfold enqueue. cbn [fst]. rewrite in_app_iff.
    intros [Hin | Hin]; [| exact (IH later eq_refl id Hin)].
    destruct r as [sel |]; cbn [fst] in Hin; [destruct Hin |].
    destruct Hin as [Hin | []]. discriminate Hin.
Qed.

Lemma export_feature_unconfigured
  basyx_url source_url thing_id has feature_id fd tr :
  get_export_config now source_url thing_id feature_id config = Ok None ->
  export_feature now config basyx_url source_url thing_id has
    (feature_id, fd) tr = (Ok has, tr).
Proof. intros H. unfold export_feature, bind, lift. now rewrite H. Qed.

Lemma export_features_unconfigured basyx_url source_url thing_id features :
  (forall f, In f features ->
             get_export_config now source_url thing_id (fst f) config
             = Ok None) ->
  forall has tr,
    export_features now config basyx_url source_url thing_id has features tr
    = (Ok tt, tr).
Proof.
  induction features as [| [fid fd] fs IH]; intros H has tr;
    cbn [export_features]; [reflexivity |].
  unfold bind at 1.
  rewrite export_feature_unconfigured by (apply (H (fid, fd)); now left).
  apply IH. intros f Hf. apply H. now right.
Qed.


End PassExtra.


Lemma written_or_removed_witness :
  In (lit "open")
     (keys (filter_properties (properties_of (snd (lit "valve",
              {| f_properties := Some [(lit "open", JBool true);
                                       (lit "level", JInt 3)] |})))
              [lit "open"])) /\
  In (lit "plc:valve", lit "level")
     (filtered_out_elements (lit "plc:valve")
        [(lit "open", JBool true); (lit "level", JInt 3)] [lit "open"]).
Proof.
  pose proof (written_or_removed
                [(lit "open", JBool true); (lit "level", JInt 3)]
                [lit "open"] (lit "plc:valve")) as [_ H].
  split.
  - destruct (H (lit "open")) as [[Hw _] | [_ Hr]].
    + left. reflexivity.
    + exact Hw.
    + apply filtered_out_elements_In in Hr.
      destruct Hr as (_ & _ & _ & Hn). exfalso. apply Hn. left. reflexivity.
  - destruct (H (lit "level")) as [[Hw _] | [_ Hr]].
    + right. left. reflexivity.
    + exfalso. revert Hw. vm_compute. intros [E | []]. discriminate E.
    + exact Hr.
Defined.

Section PassOrder.

Context {parser : IsoParser} {crypto : Crypto} {network : Network}.

Variable now : Z.
Variable config : Config.

Lemma delete_items_only_delete basyx_url items :
  forall d, sends only_delete (delete_items basyx_url items d).
Proof.
  induction items as [| [id | id] rest IH]; intros d; cbn [delete_items].
  - apply sends_ret.
  - apply sends_bind; [| intros ok; apply IH].
    unfold delete_basyx_shell, requests_delete. sends_tac.
  - apply sends_bind; [| intros ok; apply IH].
    unfold delete_basyx_submodel, requests_delete. sends_tac.
Qed.

Lemma delete_elements_only_delete basyx_url elements :
  forall d, sends only_delete (delete_elements basyx_url elements d).
Proof.
  induction elements as [| [sm el] rest IH]; intros d; cbn [delete_elements].
  - apply sends_ret.
  - apply sends_bind; [| intros ok; apply IH].
    unfold delete_basyx_element, requests_delete. sends_tac.
Qed.

Lemma run_deletions_only_delete basyx_url q :
  sends only_delete (run_deletions basyx_url q).
Proof.
  unfold run_deletions.
  apply sends_bind; [apply delete_items_only_delete | intros d].
  apply sends_bind; [apply delete_elements_only_delete | intros n].
  apply sends_ret.
Qed.

(** X7.  The cleanup pass works in two phases: it first asks the source
    registries (requests of method GET only), then deletes in the target
    registry (requests of method DELETE only).  It creates and updates
    nothing, and no deletion is sent before every source has been
    enumerated. *)
Theorem cleanup_asks_then_deletes tr :
  exists queries deletions,
    sent_by (cleanup_basyx_resources now config) tr = queries ++ deletions /\
    Forall only_get queries /\ Forall only_delete deletions.
Proof.
  unfold cleanup_basyx_resources.
  destruct (basyx_url_of config) as [basyx_url |].
  - rewrite (sent_by_try_io_ret any_request).
    + rewrite (sent_by_bind any_request).
      * exists (sent_by (cleanup_sources now config (cfg_sources config)
                           ([], [])) tr).
        eexists. split; [reflexivity |].
        split; [apply cleanup_sources_only_get |].
        destruct (fst (cleanup_sources now config (cfg_sources config)
                         ([], []) tr)) as [q |]; [| constructor].
        assert (S : sends only_delete
                      (bind (run_deletions basyx_url q)
                         (fun _ => ret tt))).
        { apply sends_bind; [apply run_deletions_only_delete |].
          intros a. apply sends_ret. }
        apply S.
      * apply only_get_any, cleanup_sources_only_get.
      * intros q. apply sends_bind; [apply run_deletions_any |].
        intros a. apply sends_ret.
    + apply sends_bind;
        [apply only_get_any, cleanup_sources_only_get | intros q].
      apply sends_bind; [apply run_deletions_any |].
      intros a. apply sends_ret.
  - exists [], []. split; [| split; constructor].
    apply sent_by_eq. cbn. now rewrite app_nil_r.
Qed.

(** *** The shell of a thing is created at most once *)

Lemma update_elements_no_shell submodel_id basyx_url properties :
  sends no_shell_creation (update_elements submodel_id basyx_url properties).
Proof.
  induction properties as [| [key value] rest IH]; cbn [update_elements].
  - apply sends_ret.
  - apply sends_bind; [| intros _; apply IH].
    unfold update_basyx_element, requests_get, requests_post,
      requests_patch.
    sends_tac.
Qed.

Lemma ensure_submodel_no_shell thing_id submodel_id basyx_url :
  sends no_shell_creation
    (bind (get_basyx_submodel submodel_id basyx_url)
       (fun submodel =>
          if negb (found submodel)
          then create_basyx_submodel thing_id submodel_id basyx_url
          else ret tt)).
Proof.
  unfold get_basyx_submodel, create_basyx_submodel, requests_get,
    requests_post.
  sends_tac.
Qed.

Lemma no_shell_count {A} (m : io A) tr :
  sends no_shell_creation m -> shells_created m tr = 0%nat.
Proof.
  intros H. unfold shells_created. destruct (H tr) as [_ F].
  induction F as [| r l Hr F IH]; [reflexivity |].
  cbn [filter]. unfold no_shell_creation in Hr. now rewrite Hr.
Qed.

Lemma shells_created_bind {A B} (m : io A) (k : A -> io B) tr :
  sends any_request m -> (forall a, sends any_request (k a)) ->
  shells_created (bind m k) tr
  = (shells_created m tr
     + match fst (m tr) with
       | Ok a => shells_created (k a) (snd (m tr))
       | Raise _ => 0
       end)%nat.
Proof.
  intros Hm Hk. unfold shells_created.
  rewrite (sent_by_bind any_request) by assumption.
  rewrite filter_app, length_app.
  now destruct (fst (m tr)).
Qed.

Lemma any_of {A} P (m : io A) : sends P m -> sends any_request m.
Proof. apply sends_weaken. intros r _. exact I. Qed.

Lemma create_basyx_shell_sent thing_id basyx_url tr :
  sent_by (create_basyx_shell thing_id basyx_url) tr
  = [{| rq_method := POST; rq_url := basyx_url ++ lit "/shells";
        rq_authorization := None;
        rq_json := Some (ShellPayload thing_id) |}].
Proof.
  apply sent_by_eq.
  unfold create_basyx_shell, requests_post, http, bind, lift.
  destruct (send tr _) as [r |]; [| reflexivity].
  now destruct (raise_for_status r).
Qed.

Lemma ensure_shell_count thing_id basyx_url has tr :
  (shells_created
     (if negb has
      then bind (get_basyx_shell thing_id basyx_url)
             (fun shell => if negb (found shell)
                           then create_basyx_shell thing_id basyx_url
                           else ret tt)
      else ret tt) tr
   <= if has then 0 else 1)%nat.
Proof.
  destruct has; cbn [negb].
  - rewrite no_shell_count; [lia | apply sends_ret].
  - rewrite shells_created_bind.
    + rewrite (no_shell_count (get_basyx_shell thing_id basyx_url)).
      * destruct (fst (get_basyx_shell thing_id basyx_url tr)) as [shell |];
          [| lia].
        destruct (negb (found shell)).
        -- unfold shells_created. rewrite create_basyx_shell_sent.
           cbn. lia.
        -- rewrite no_shell_count; [lia | apply sends_ret].
      * unfold get_basyx_shell, requests_get. sends_tac.
    + apply any_of with (P := harmless), get_basyx_shell_harmless.
    + intros shell. destruct (negb (found shell)).
      * apply any_of with (P := harmless), create_basyx_shell_harmless.
      * apply sends_ret.
Qed.

Lemma shells_created_ext {A} (m m' : io A) tr :
  m tr = m' tr -> shells_created m tr = shells_created m' tr.
Proof. unfold shells_created, sent_by. now intros ->. Qed.

Lemma export_feature_configured
  basyx_url source_url thing_id has feature_id fd selector tr :
  get_export_config now source_url thing_id feature_id config
  = Ok (Some selector) ->
  export_feature now config basyx_url source_url thing_id has
    (feature_id, fd) tr
  = export_configured config basyx_url thing_id feature_id has fd selector tr.
Proof.
  intros H. unfold export_feature, export_configured.
  unfold bind at 1. unfold lift. now rewrite H.
Qed.

Lemma export_configured_true
  basyx_url thing_id feature_id has fd selector tr b :
  fst (export_configured config basyx_url thing_id feature_id has fd selector tr)
  = Ok b -> b = true.
Proof.
  unfold export_configured, bind, ret.
  destruct (ensure_targets thing_id feature_id basyx_url has tr)
    as [[[] | e] tr1]; [| discriminate].
  destruct (gate config fd tr1) as [[verified | e] tr2]; [| discriminate].
  destruct (negb verified); [now intros [= <-] |].
  destruct (update_elements _ _ _ tr2) as [[[] | e] tr3];
    [now intros [= <-] | discriminate].
Qed.

Lemma export_configured_shells
  basyx_url thing_id feature_id has fd selector tr :
  (shells_created
     (export_configured config basyx_url thing_id feature_id has fd selector) tr
   <= if has then 0 else 1)%nat.
Proof.
  unfold export_configured.
  rewrite shells_created_bind.
  - unfold ensure_targets at 1. rewrite shells_created_bind.
    + pose proof (ensure_shell_count thing_id basyx_url has tr) as H1.
      assert (H2 : forall t,
                 shells_created
                   (bind (get_basyx_submodel
                            (submodel_id_of thing_id feature_id) basyx_url)
                      (fun submodel =>
                         if negb (found submodel)
                         then create_basyx_submodel thing_id
                                (submodel_id_of thing_id feature_id)
                                basyx_url
                         else ret tt)) t = 0%nat).
      { intros t. apply no_shell_count, ensure_submodel_no_shell. }
      assert (H3 : forall t,
                 shells_created
                   (bind (gate config fd)
                      (fun verified =>
                         if negb verified then ret true
                         else bind (update_elements
                                      (submodel_id_of thing_id feature_id)
                                      basyx_url
                                      (filter_properties (properties_of fd)
                                         selector))
                                (fun _ => ret true))) t = 0%nat).
      { intros t. apply no_shell_count.
        apply sends_bind; [apply gate_sends | intros verified].
        destruct (negb verified); [apply sends_ret |].
        apply sends_bind; [apply update_elements_no_shell |].
        intros a. apply sends_ret. }
      repeat match goal with
             | |- context [match ?x with Ok _ => _ | Raise _ => _ end] =>
                 destruct x
             end;
        rewrite ?H2, ?H3; lia.
    + destruct (negb has); [| apply sends_ret].
      apply sends_bind;
        [apply any_of with (P := harmless), get_basyx_shell_harmless |].
      intros shell. destruct (negb (found shell));
        [apply any_of with (P := harmless), create_basyx_shell_harmless
        | apply sends_ret].
    + intros a. apply any_of with (P := no_shell_creation).
      apply ensure_submodel_no_shell.
  - apply any_of with (P := harmless), ensure_targets_harmless.
  - intros a. apply sends_bind; [apply gate_sends | intros verified].
    destruct (negb verified); [apply sends_ret |].
    apply sends_bind;
      [apply any_of with (P := no_shell_creation), update_elements_no_shell |].
    intros u. apply sends_ret.
Qed.

Lemma export_feature_shells basyx_url source_url thing_id has feature tr :
  (shells_created
     (export_feature now config basyx_url source_url thing_id has feature) tr
   <= if has then 0 else 1)%nat /\
  forall b,
    fst (export_feature now config basyx_url source_url thing_id has
           feature tr) = Ok b ->
    b = true \/
    (b = has /\
     shells_created
       (export_feature now config basyx_url source_url thing_id has feature)
       tr = 0%nat).
Proof.
  destruct feature as [fid fd].
  destruct (get_export_config now source_url thing_id fid config)
    as [[sel |] | e] eqn:E.
  - rewrite (shells_created_ext _
               (export_configured config basyx_url thing_id fid has fd sel))
      by now apply export_feature_configured.
    rewrite (export_feature_configured _ _ _ _ _ _ _ _ E).
    split; [apply export_configured_shells |].
    intros b Hb. left. now apply export_configured_true in Hb.
  - assert (Z0 : shells_created
                   (export_feature now config basyx_url source_url thing_id
                      has (fid, fd)) tr = 0%nat).
    { unfold shells_created, sent_by.
      rewrite export_feature_unconfigured by exact E. cbn [snd].
      now rewrite skipn_all. }
    split; [rewrite Z0; lia |].
    intros b. rewrite export_feature_unconfigured by exact E.
    intros [= <-]. now right.
  - assert (R : export_feature now config basyx_url source_url thing_id has
                  (fid, fd) tr = (Raise e, tr)).
    { unfold export_feature, bind, lift. now rewrite E. }
    split.
    + unfold shells_created, sent_by. rewrite R. cbn [snd].
      rewrite skipn_all. cbn. lia.
    + intros b. rewrite R. discriminate.
Qed.

(** X8.  In the loop over the features of a thing the flag
    [thing_has_exports] keeps the shell from being created twice: the
    export asks to create the shell of a thing at most once in a pass, and
    never once the flag is set. *)
Theorem shell_created_at_most_once
  basyx_url source_url thing_id features :
  forall has tr,
    (shells_created
       (export_features now config basyx_url source_url thing_id has
          features) tr
     <= if has then 0 else 1)%nat.
Proof.
  induction features as [| f fs IH]; intros has tr; cbn [export_features].
  - rewrite no_shell_count; [lia | apply sends_ret].
  - rewrite shells_created_bind;
      [| apply any_of with (P := no_delete), export_feature_no_delete
       | intros b; apply any_of with (P := no_delete),
           export_features_no_delete].
    destruct (export_feature_shells basyx_url source_url thing_id has f tr)
      as [H1 H2].
    destruct (fst (export_feature now config basyx_url source_url thing_id
                     has f tr)) as [b | e] eqn:Hb; [| lia].
    specialize (IH b (snd (export_feature now config basyx_url source_url
                             thing_id has f tr))).
    destruct (H2 b eq_refl) as [-> | [-> Hz]].
    + destruct has; lia.
    + rewrite Hz. lia.
Qed.

End PassOrder.

(** ** The export of a feature on registries that accept it *)

Section SuccessPath.

Context {parser : IsoParser} {crypto : Crypto} {network : Network}.

Variable now : Z.
Variable config : Config.

Hypothesis Haccepting : accepting network.

Lemma raise_for_status_ok (r : response) :
  response_ok r = true -> raise_for_status r = Ok tt.
Proof.
  unfold response_ok. now destruct (raise_for_status r) as [[] |].
Qed.

Lemma accepted_post url json tr :
  exists response,
    requests_post url json tr
    = (Ok response,
       tr ++ [{| rq_method := POST; rq_url := url; rq_authorization := None;
                 rq_json := Some json |}]) /\
    raise_for_status response = Ok tt.
Proof.
  unfold requests_post, http.
  destruct (Haccepting tr {| rq_method := POST; rq_url := url;
                             rq_authorization := None;
                             rq_json := Some json |}) as (r & -> & Hok).
  exists r. split; [reflexivity |].
  apply raise_for_status_ok, Hok. discriminate.
Qed.

Lemma accepted_patch url json tr :
  exists response,
    requests_patch url json tr
    = (Ok response,
       tr ++ [{| rq_method := PATCH; rq_url := url; rq_authorization := None;
                 rq_json := Some json |}]) /\
    raise_for_status response = Ok tt.
Proof.
  unfold requests_patch, http.
  destruct (Haccepting tr {| rq_method := PATCH; rq_url := url;
                             rq_authorization := None;
                             rq_json := Some json |}) as (r & -> & Hok).
  exists r. split; [reflexivity |].
  apply raise_for_status_ok, Hok. discriminate.
Qed.

Lemma accepted_get url headers tr :
  exists response,
    requests_get url headers tr
    = (Ok response,
       tr ++ [{| rq_method := GET; rq_url := url;
                 rq_authorization := headers; rq_json := None |}]).
Proof.
  unfold requests_get, http.
  destruct (Haccepting tr {| rq_method := GET; rq_url := url;
                             rq_authorization := headers;
                             rq_json := None |}) as (r & -> & _).
  now exists r.
Qed.

(** An upsert sends the lookup, then one write: the creation when the
    element is not found, the update otherwise. *)
Lemma update_basyx_element_accepted
  submodel_id encoded element_id value basyx_url tr :
  Codec.encode_id submodel_id = Ok encoded ->
  exists lookup write,
    update_basyx_element submodel_id element_id value basyx_url tr
    = (Ok tt, tr ++ [lookup; write]) /\
    rq_method lookup = GET /\
    (write = create_element_request basyx_url encoded element_id value \/
     write = update_element_request basyx_url encoded element_id value).
Proof.
  intros He. unfold update_basyx_element.
  unfold bind at 1. unfold lift at 1. rewrite He.
  unfold bind at 1.
  destruct (accepted_get
              (basyx_url ++ lit "/submodels/" ++ encoded
               ++ lit "/submodel-elements/" ++ element_id) None tr)
    as (r & -> ).
  destruct (status_code r =? 404).
  - unfold bind.
    destruct (accepted_post
                (basyx_url ++ lit "/submodels/" ++ encoded
                 ++ lit "/submodel-elements")
                (PropertyPayload element_id value)
                (tr ++ [{| rq_method := GET;
                           rq_url := basyx_url ++ lit "/submodels/"
                                     ++ encoded
                                     ++ lit "/submodel-elements/"
                                     ++ element_id;
                           rq_authorization := None; rq_json := None |}]))
      as (r' & -> & Hok).
    unfold lift. rewrite Hok. rewrite <- app_assoc.
    eexists. eexists. split; [reflexivity |]. split; [reflexivity |].
    left. reflexivity.
  - unfold bind.
    destruct (accepted_patch
                (basyx_url ++ lit "/submodels/" ++ encoded
                 ++ lit "/submodel-elements/" ++ element_id
                 ++ lit "/$value")
                (ValuePayload value)
                (tr ++ [{| rq_method := GET;
                           rq_url := basyx_url ++ lit "/submodels/"
                                     ++ encoded
                                     ++ lit "/submodel-elements/"
                                     ++ element_id;
                           rq_authorization := None; rq_json := None |}]))
      as (r' & -> & Hok).
    unfold lift. rewrite Hok. rewrite <- app_assoc.
    eexists. eexists. split; [reflexivity |]. split; [reflexivity |].
    right. reflexivity.
Qed.

Lemma update_elements_accepted submodel_id encoded basyx_url properties :
  Codec.encode_id submodel_id = Ok encoded ->
  forall tr,
  exists s,
    update_elements submodel_id basyx_url properties tr = (Ok tt, tr ++ s) /\
    forall k v,
      In (k, v) properties ->
      In (create_element_request basyx_url encoded k v) s \/
      In (update_element_request basyx_url encoded k v) s.
Proof.
  intros He. induction properties as [| [key value] rest IH]; intros tr;
    cbn [update_elements].
  - exists []. split; [now rewrite app_nil_r | intros k v []].
  - unfold bind.
    destruct (update_basyx_element_accepted submodel_id encoded key value
                basyx_url tr He) as (g & w & -> & _ & Hw).
    destruct (IH (tr ++ [g; w])) as (s & -> & Hs).
    exists ([g; w] ++ s). split; [now rewrite app_assoc |].
    intros k v [[= <- <-] | Hin].
    + destruct Hw as [-> | ->]; [left | right]; right; left; reflexivity.
    + destruct (Hs k v Hin) as [H | H]; [left | right];
        apply in_or_app; right; exact H.
Qed.

Lemma get_basyx_shell_accepted thing_id encoded basyx_url tr :
  Codec.encode_id thing_id = Ok encoded ->
  exists shell s,
    get_basyx_shell thing_id basyx_url tr = (Ok shell, tr ++ s).
Proof.
  intros He. unfold get_basyx_shell.
  unfold bind at 1. unfold lift. rewrite He. unfold bind.
  destruct (accepted_get (basyx_url ++ lit "/shells/" ++ encoded) None tr)
    as (r & ->).
  unfold ret. eauto.
Qed.

Lemma create_basyx_shell_accepted thing_id basyx_url tr :
  exists s, create_basyx_shell thing_id basyx_url tr = (Ok tt, tr ++ s).
Proof.
  unfold create_basyx_shell, bind.
  destruct (accepted_post (basyx_url ++ lit "/shells")
              (ShellPayload thing_id) tr) as (r & -> & Hok).
  unfold lift. rewrite Hok. eauto.
Qed.

Lemma get_basyx_submodel_accepted submodel_id encoded basyx_url tr :
  Codec.encode_id submodel_id = Ok encoded ->
  exists submodel s,
    get_basyx_submodel submodel_id basyx_url tr = (Ok submodel, tr ++ s).
Proof.
  intros He. unfold get_basyx_submodel.
  unfold bind at 1. unfold lift. rewrite He. unfold bind.
  destruct (accepted_get (basyx_url ++ lit "/submodels/" ++ encoded) None tr)
    as (r & ->).
  unfold ret. eauto.
Qed.

Lemma create_basyx_submodel_accepted
  thing_id encoded submodel_id basyx_url tr :
  Codec.encode_id thing_id = Ok encoded ->
  exists s,
    create_basyx_submodel thing_id submodel_id basyx_url tr
    = (Ok tt, tr ++ s).
Proof.
  intros He. unfold create_basyx_submodel.
  unfold bind at 1.
  destruct (accepted_post (basyx_url ++ lit "/submodels")
              (SubmodelPayload submodel_id) tr) as (r & -> & Hok).
  unfold bind at 1. unfold lift at 1. rewrite Hok.
  unfold bind at 1. unfold lift at 1. rewrite He.
  unfold bind.
  match goal with
  | |- context [requests_post ?u ?j ?t] =>
      destruct (accepted_post u j t) as (r' & -> & Hok')
  end.
  unfold lift. rewrite Hok'. rewrite <- app_assoc. eauto.
Qed.

Lemma ensure_targets_accepted
  thing_id feature_id basyx_url has encoded_thing encoded_submodel tr :
  Codec.encode_id thing_id = Ok encoded_thing ->
  Codec.encode_id (submodel_id_of thing_id feature_id) = Ok encoded_submodel ->
  exists s,
    ensure_targets thing_id feature_id basyx_url has tr = (Ok tt, tr ++ s).
Proof.
  intros Ht Hs. unfold ensure_targets.
  assert (H1 : exists s1,
             (if negb has
              then bind (get_basyx_shell thing_id basyx_url)
                     (fun shell =>
                        if negb (found shell)
                        then create_basyx_shell thing_id basyx_url
                        else ret tt)
              else ret tt) tr = (Ok tt, tr ++ s1)).
  { destruct (negb has).
    - unfold bind.
      destruct (get_basyx_shell_accepted thing_id encoded_thing basyx_url tr
                  Ht) as (shell & s & ->).
      destruct (negb (found shell)).
      + destruct (create_basyx_shell_accepted thing_id basyx_url (tr ++ s))
          as (s' & ->).
        exists (s ++ s'). now rewrite app_assoc.
      + exists s. reflexivity.
    - exists []. unfold ret. now rewrite app_nil_r. }
  destruct H1 as (s1 & E1). unfold bind at 1. rewrite E1.
  unfold bind.
  destruct (get_basyx_submodel_accepted (submodel_id_of thing_id feature_id)
              encoded_submodel basyx_url (tr ++ s1) Hs)
    as (submodel & s2 & ->).
  destruct (negb (found submodel)).
  - destruct (create_basyx_submodel_accepted thing_id encoded_thing
                (submodel_id_of thing_id feature_id) basyx_url
                ((tr ++ s1) ++ s2) Ht) as (s3 & ->).
    exists (s1 ++ s2 ++ s3). now rewrite !app_assoc.
  - exists (s1 ++ s2). unfold ret. now rewrite app_assoc.
Qed.

(** X9.  On registries that answer every request and accept every write, a
    feature that resolves to a selector and passes the gate (or is not
    verified) is exported in full: the step returns with the flag set, and
    for every property the selector keeps, the element is created or its
    value is updated, with the value the source reports. *)
Theorem selected_properties_are_written
  basyx_url source_url thing_id has feature_id fd selector
  encoded_thing encoded_submodel tr :
  Codec.encode_id thing_id = Ok encoded_thing ->
  Codec.encode_id (submodel_id_of thing_id feature_id) = Ok encoded_submodel ->
  get_export_config now source_url thing_id feature_id config
  = Ok (Some selector) ->
  cfg_verify_signatures config = false \/
  verify_feature_signature fd (cfg_public_key_path config) = Ok true ->
  fst (export_feature now config basyx_url source_url thing_id has
         (feature_id, fd) tr) = Ok true /\
  forall k v,
    In (k, v) (filter_properties (properties_of fd) selector) ->
    In (create_element_request basyx_url encoded_submodel k v)
       (sent_by (export_feature now config basyx_url source_url thing_id has
                   (feature_id, fd)) tr) \/
    In (update_element_request basyx_url encoded_submodel k v)
       (sent_by (export_feature now config basyx_url source_url thing_id has
                   (feature_id, fd)) tr).
Proof.
  intros Ht Hs Hr Hg.
  assert (Hgate : forall t, gate config fd t = (Ok true, t)).
  { intros t. unfold gate. destruct Hg as [-> | Hv]; [reflexivity |].
    destruct (cfg_verify_signatures config); [| reflexivity].
    unfold lift. now rewrite Hv. }
  destruct (ensure_targets_accepted thing_id feature_id basyx_url has
              encoded_thing encoded_submodel tr Ht Hs) as (s1 & E1).
  destruct (update_elements_accepted (submodel_id_of thing_id feature_id)
              encoded_submodel basyx_url
              (filter_properties (properties_of fd) selector) Hs (tr ++ s1))
    as (s2 & E2 & Hw).
  assert (E : export_feature now config basyx_url source_url thing_id has
                (feature_id, fd) tr = (Ok true, tr ++ (s1 ++ s2))).
  { rewrite (export_feature_configured now config _ _ _ _ _ _ _ _ Hr).
    unfold export_configured. unfold bind at 1. rewrite E1.
    unfold bind at 1. rewrite Hgate. cbn [negb].
    unfold bind. rewrite E2. unfold ret. now rewrite app_assoc. }
  rewrite (sent_by_eq _ tr (s1 ++ s2)) by now rewrite E.
  rewrite E. split; [reflexivity |].
  intros k v Hin. destruct (Hw k v Hin) as [H | H]; [left | right];
    apply in_or_app; right; exact H.
Qed.

End SuccessPath.

Lemma empty_target_accepting : accepting empty_target.
Proof.
  intros h r. unfold send, empty_target.
  destruct (rq_method r) eqn:E; eexists; (split; [reflexivity |]);
    intros H; [now contradiction H | reflexivity | reflexivity | reflexivity].
Qed.

Lemma selected_properties_are_written_witness :
  In (create_element_request basyx (lit "cGxjOnZhbHZl") (lit "open")
        (JBool true))
     (sent_by (@export_feature fromisoformat_basic toy_crypto empty_target
                 sample_now verifying_config basyx ditto_url (lit "plc")
                 false (lit "valve", signed_feature)) []) \/
  In (update_element_request basyx (lit "cGxjOnZhbHZl") (lit "open")
        (JBool true))
     (sent_by (@export_feature fromisoformat_basic toy_crypto empty_target
                 sample_now verifying_config basyx ditto_url (lit "plc")
                 false (lit "valve", signed_feature)) []).
Proof.
  refine (proj2 (@selected_properties_are_written fromisoformat_basic
                   toy_crypto empty_target sample_now verifying_config
                   empty_target_accepting basyx ditto_url (lit "plc") false
                   (lit "valve") signed_feature [lit "*"]
                   (lit "cGxj") (lit "cGxjOnZhbHZl") [] _ _ _ _)
            (lit "open") (JBool true) _).
  - reflexivity.
  - reflexivity.
  - vm_compute. reflexivity.
  - right. vm_compute. reflexivity.
  - left. reflexivity.
Defined.

(** ** The main loop *)

Section MainLoopFacts.

Context {parser : IsoParser} {crypto : Crypto} {network : Network}.

(** X10.  A cycle with no target url, or with no source, does nothing: no
    request is sent to either registry, and the cycle ends normally. *)
Theorem idle_cycle now config tr :
  basyx_url_of config = None \/ cfg_sources config = [] ->
  cycle now config tr = (Ok tt, tr).
Proof.
  intros H. unfold cycle, cleanup_basyx_resources.
  destruct (basyx_url_of config) as [basyx_url |] eqn:Hu.
  - destruct H as [H | H]; [discriminate |]. rewrite H. reflexivity.
  - reflexivity.
Qed.

Lemma cycle_without_target now config tr :
  basyx_url_of config = None -> cycle now config tr = (Ok tt, tr).
Proof.
  intros Hu. unfold cycle, cleanup_basyx_resources. now rewrite Hu.
Qed.

Lemma cycle_ok now config tr : fst (cycle now config tr) = Ok tt.
Proof.
  unfold cycle.
  rewrite (bind_ok _ _ _ tt (cleanup_basyx_resources_ok now config tr)).
  destruct (basyx_url_of config) as [basyx_url |]; [| reflexivity].
  apply export_sources_run.
Qed.

Context {file : ConfigFile}.

Lemma load_config_ok : exists config, load_config = Ok config.
Proof.
  unfold load_config, try_except.
  destruct config_file_exists; [| eauto]. destruct read_config; eauto.
Qed.


End MainLoopFacts.

Lemma idle_cycle_witness :
  @cycle fromisoformat_basic toy_crypto source_a_down sample_now
    (mk_config []) [] = (Ok tt, []).
Proof.
  apply (@idle_cycle fromisoformat_basic toy_crypto source_a_down).
  right. reflexivity.
Defined.


(** ** Further properties of signing and verification *)

Section DictFacts.

Lemma has_key_In {V} (key : str) (d : list (str * V)) :
  has_key key d = true <-> In key (keys d).
Proof. apply str_in_In. Qed.

Lemma dict_get_not_in {V} (key : str) (d : list (str * V)) :
  ~ In key (keys d) -> dict_get key d = None.
Proof.
  unfold keys. induction d as [| [k v] d IH]; cbn [dict_get map fst];
    [reflexivity |].
  intros Hn. destruct (str_eqb k key) eqn:E.
  - apply str_eqb_eq in E. exfalso. apply Hn. now left.
  - apply IH. intros Hin. apply Hn. now right.
Qed.

Lemma dict_get_In {V} (key : str) (value : V) (d : list (str * V)) :
  NoDup (keys d) -> In (key, value) d -> dict_get key d = Some value.
Proof.
  unfold keys. induction d as [| [k v] d IH]; cbn [dict_get map fst];
    intros Hnd Hin; [destruct Hin |].
  apply NoDup_cons_iff in Hnd. destruct Hnd as [Hk Hnd].
  destruct Hin as [[= -> ->] | Hin].
  - now rewrite str_eqb_refl.
  - destruct (str_eqb k key) eqn:E; [| now apply IH].
    apply str_eqb_eq in E. subst k. exfalso. apply Hk.
    apply in_map_iff. now exists (key, value).
Qed.

(** A lookup does not depend on the order of the items. *)
Lemma dict_get_perm {V} (key : str) (d d' : list (str * V)) :
  NoDup (keys d) -> Permutation d d' -> dict_get key d = dict_get key d'.
Proof.
  intros Hnd Hp.
  assert (Hnd' : NoDup (keys d')).
  { unfold keys in *. eapply Permutation_NoDup; [| exact Hnd].
    now apply Permutation_map. }
  destruct (dict_get key d) as [v |] eqn:E.
  - symmetry. apply dict_get_In; [exact Hnd' |].
    apply (Permutation_in _ Hp).
    clear Hnd Hnd' Hp. induction d as [| [k x] d IH];
      cbn [dict_get] in E; [discriminate |].
    destruct (str_eqb k key) eqn:Ek.
    + apply str_eqb_eq in Ek. injection E as ->. subst. now left.
    + right. now apply IH.
  - symmetry. apply dict_get_not_in. intros Hin.
    assert (Hin' : In key (keys d)).
    { unfold keys in *. eapply Permutation_in; [| exact Hin].
      apply Permutation_map. now apply Permutation_sym. }
    clear Hnd Hnd' Hp Hin. unfold keys in Hin'.
    induction d as [| [k x] d IH]; cbn [dict_get map fst] in *;
      [destruct Hin' |].
    destruct (str_eqb k key) eqn:Ek; [discriminate |].
    destruct Hin' as [-> | Hin']; [| now apply IH].
    rewrite str_eqb_refl in Ek. discriminate.
Qed.

Lemma has_key_perm {V} (key : str) (d d' : list (str * V)) :
  Permutation d d' -> has_key key d = has_key key d'.
Proof.
  intros Hp.
  assert (H : In key (keys d) <-> In key (keys d')).
  { unfold keys. split; apply Permutation_in; apply Permutation_map;
      [exact Hp | now apply Permutation_sym]. }
  rewrite <- !has_key_In in H.
  destruct (has_key key d), (has_key key d'); try reflexivity;
    destruct H as [H1 H2]; [now rewrite H1 | now rewrite H2].
Qed.

End DictFacts.

Section GateExtra.

Context {crypto : Crypto}.

Lemma verifier_payload_bytes_perm (p p' : props) :
  NoDup (keys p) -> Permutation p p' ->
  verifier_payload_bytes p = verifier_payload_bytes p'.
Proof.
  intros Hnd Hp. unfold verifier_payload_bytes. f_equal.
  apply dumps_dict_perm.
  - now apply filter_keys_NoDup.
  - now apply filter_perm.
Qed.

(** X12.  The verdict of the gate does not depend on the order in which the
    source registry lists the properties of a feature: two bundles with the
    same items get the same verdict. *)
Theorem verification_ignores_key_order (p p' : props) (path : str) :
  NoDup (keys p) -> Permutation p p' ->
  verify_feature_signature {| f_properties := Some p |} path
  = verify_feature_signature {| f_properties := Some p' |} path.
Proof.
  intros Hnd Hp.
  unfold verify_feature_signature, verify_body, signature_of.
  cbn [f_properties rbind].
  rewrite (has_key_perm signature_key p p' Hp).
  rewrite (dict_get_perm signature_key p p' Hnd Hp).
  rewrite (verifier_payload_bytes_perm p p' Hnd Hp).
  reflexivity.
Qed.

End GateExtra.

Lemma verification_ignores_key_order_witness :
  @verify_feature_signature toy_crypto
    {| f_properties := Some [(lit "open", JBool true);
                             (lit "signature", JStr (lit "sig"))] |}
    (lit "public_key.pem")
  = @verify_feature_signature toy_crypto
      {| f_properties := Some [(lit "signature", JStr (lit "sig"));
                               (lit "open", JBool true)] |}
      (lit "public_key.pem").
Proof.
  apply (@verification_ignores_key_order toy_crypto).
  - repeat constructor; cbn; intuition discriminate.
  - apply perm_swap.
Defined.

(** ** Signing, then verifying *)

Section DictSetFacts.

Lemma dict_set_fresh {V} (key : str) (value : V) (d : list (str * V)) :
  ~ In key (keys d) -> dict_set key value d = d ++ [(key, value)].
Proof.
  intros Hn. unfold dict_set.
  destruct (has_key key d) eqn:E; [| reflexivity].
  apply has_key_In in E. contradiction.
Qed.

Lemma keys_dict_set {V} (key : str) (value : V) (d : list (str * V)) :
  keys (dict_set key value d)
  = if has_key key d then keys d else keys d ++ [key].
Proof.
  unfold dict_set, keys. destruct (has_key key d).
  - rewrite map_map. apply map_ext. intros [k v]. cbn [fst].
    now destruct (str_eqb k key).
  - now rewrite map_app.
Qed.

Lemma dict_set_NoDup {V} (key : str) (value : V) (d : list (str * V)) :
  NoDup (keys d) -> NoDup (keys (dict_set key value d)).
Proof.
  intros Hnd. rewrite keys_dict_set.
  destruct (has_key key d) eqn:E; [exact Hnd |].
  assert (Hn : ~ In key (keys d)).
  { intros Hin. apply has_key_In in Hin. congruence. }
  apply NoDup_app; repeat split.
  - exact Hnd.
  - repeat constructor. intros [].
  - intros a Ha [<- | []]. contradiction.
Qed.

Lemma dict_set_other_key {V} (key other : str) (value : V)
  (d : list (str * V)) :
  other <> key -> ~ In other (keys d) ->
  ~ In other (keys (dict_set key value d)).
Proof.
  intros Hne Hn. rewrite keys_dict_set.
  destruct (has_key key d); [exact Hn |].
  rewrite in_app_iff. intros [H | [H | []]]; [contradiction | congruence].
Qed.

Lemma dict_get_app_fresh {V} (key : str) (value : V) (d : list (str * V)) :
  ~ In key (keys d) -> dict_get key (d ++ [(key, value)]) = Some value.
Proof.
  unfold keys. induction d as [| [k v] d IH]; cbn [app dict_get map fst];
    intros Hn.
  - now rewrite str_eqb_refl.
  - destruct (str_eqb k key) eqn:E.
    + apply str_eqb_eq in E. exfalso. apply Hn. now left.
    + apply IH. intros Hin. apply Hn. now right.
Qed.

End DictSetFacts.

Section SignFacts.

Context {crypto : Crypto} {signer : Signer}.

Lemma without_signature_signed (payload : props) (signature : json) :
  ~ In signature_key (keys payload) ->
  without_signature (payload ++ [(signature_key, signature)]) = payload.
Proof.
  intros Hn. unfold without_signature. rewrite filter_app.
  fold (without_signature payload).
  rewrite (without_signature_id payload Hn). cbn [filter fst].
  unfold signature_key. rewrite str_eqb_refl. cbn [negb].
  apply app_nil_r.
Qed.

(** The bundle made of a payload and its signature verifies under the
    matching public key. *)
Lemma signed_payload_verifies
  (payload : props) (private_path public_path signature : str) :
  NoDup (keys payload) -> ~ In signature_key (keys payload) ->
  key_pair private_path public_path ->
  sign_json_payload payload private_path = Ok signature ->
  forall received,
    Permutation (dict_set signature_key (JStr signature) payload) received ->
    verify_feature_signature {| f_properties := Some received |} public_path
    = Ok true.
Proof.
  intros Hnd Hns (Hex & kd & pk & Hrd & Hld & Hlaw) Hsign received Hp.
  rewrite (dict_set_fresh _ _ _ Hns) in Hp.
  assert (Hndb : NoDup (keys (payload ++ [(signature_key, JStr signature)]))).
  { rewrite <- (dict_set_fresh _ _ _ Hns). now apply dict_set_NoDup. }
  unfold sign_json_payload, rbind in Hsign.
  destruct (signer_payload_bytes payload) as [pb |] eqn:Hpb;
    [| discriminate].
  destruct (read_file private_path) as [skd |] eqn:Hrs; [| discriminate].
  destruct (load_pem_private_key skd) as [sk |] eqn:Hls; [| discriminate].
  destruct (pss_sign sk pb) as [sg |] eqn:Hsg; [| discriminate].
  apply Ok_inj in Hsign. subst signature.
  destruct (Hlaw skd sk pb sg eq_refl Hls Hsg) as (Hv & Hb & Hne).
  unfold verify_feature_signature, verify_body, signature_of.
  cbn [f_properties rbind].
  rewrite <- (has_key_perm signature_key _ _ Hp).
  rewrite <- (dict_get_perm signature_key _ _ Hndb Hp).
  rewrite <- (verifier_payload_bytes_perm _ _ Hndb Hp).
  assert (Hk : has_key signature_key
                 (payload ++ [(signature_key, JStr (b64encode sg))]) = true).
  { apply has_key_In. unfold keys. rewrite map_app, in_app_iff.
    right. now left. }
  rewrite Hk. cbn [negb].
  rewrite (dict_get_app_fresh _ _ _ Hns). cbn [truthy].
  destruct (b64encode sg) as [| c s] eqn:Eb; [now contradiction Hne |].
  cbn [negb]. unfold verifier_payload_bytes.
  rewrite (without_signature_signed _ _ Hns).
  fold (signer_payload_bytes payload). rewrite Hpb. cbn [rbind try_except].
  rewrite Hb, Hex. cbn [negb]. rewrite Hrd. cbn [rbind].
  rewrite Hld. cbn [rbind]. rewrite Hv. reflexivity.
Qed.

(** The stamped and signed bundle, seen from the gate. *)
Lemma stamp_and_sign_verifies
  (msg : props) (timestamp private_path public_path : str) (bundle : props) :
  NoDup (keys msg) -> ~ In signature_key (keys msg) ->
  key_pair private_path public_path ->
  stamp_and_sign msg timestamp private_path = Ok bundle ->
  forall received,
    Permutation bundle received ->
    verify_feature_signature {| f_properties := Some received |} public_path
    = Ok true.
Proof.
  intros Hnd Hns Hkp Hs received Hp.
  unfold stamp_and_sign in Hs. cbv zeta in Hs. unfold rbind in Hs.
  destruct (sign_json_payload
              (dict_set (lit "timestamp") (JStr timestamp) msg) private_path)
    as [signature |] eqn:Hsign; [| discriminate].
  apply Ok_inj in Hs. subst bundle.
  apply (signed_payload_verifies
           (dict_set (lit "timestamp") (JStr timestamp) msg)
           private_path public_path signature); auto.
  - now apply dict_set_NoDup.
  - apply dict_set_other_key; [discriminate | exact Hns].
Qed.

(** X13.  Signing and verifying agree.  A message that has no [signature]
    key, once stamped and signed as the notifier does it, passes the gate
    under the public key of the pair, in whatever order its properties come
    back from the registry. *)
Theorem stamped_message_verifies
  (msg : props) (timestamp private_path public_path : str) (bundle : props) :
  NoDup (keys msg) -> ~ In signature_key (keys msg) ->
  key_pair private_path public_path ->
  stamp_and_sign msg timestamp private_path = Ok bundle ->
  forall received,
    Permutation bundle received ->
    verify_feature_signature {| f_properties := Some received |} public_path
    = Ok true.
Proof.
  intros Hnd Hns Hkp Hs received Hp.
  now apply (stamp_and_sign_verifies msg timestamp private_path public_path
               bundle).
Qed.

(** X14.  The properties a valve writes when it opens or closes pass the
    gate under the public key of the pair: its bundle holds [open], the
    timestamp and a signature over the two. *)
Theorem valve_properties_verify
  (open : bool) (timestamp private_path public_path : str) (bundle : props) :
  key_pair private_path public_path ->
  valve_properties open timestamp private_path = Ok bundle ->
  keys bundle = [lit "open"; lit "timestamp"; lit "signature"] /\
  dict_get (lit "open") bundle = Some (JBool open) /\
  forall received,
    Permutation bundle received ->
    verify_feature_signature {| f_properties := Some received |} public_path
    = Ok true.
Proof.
  intros Hkp Hv. split; [| split].
  - unfold valve_properties, stamp_and_sign in Hv. cbv zeta in Hv.
    unfold rbind in Hv.
    destruct (sign_json_payload _ private_path) as [s |]; [| discriminate].
    apply Ok_inj in Hv. subst bundle. reflexivity.
  - unfold valve_properties, stamp_and_sign in Hv. cbv zeta in Hv.
    unfold rbind in Hv.
    destruct (sign_json_payload _ private_path) as [s |]; [| discriminate].
    apply Ok_inj in Hv. subst bundle. reflexivity.
  - apply (stamp_and_sign_verifies [(lit "open", JBool open)] timestamp
             private_path public_path bundle); auto.
    + repeat constructor. intros [].
    + intros [H | []]. discriminate H.
Qed.

End SignFacts.

Lemma toy_key_pair :
  @key_pair toy_key_files toy_signer (lit "private_key.pem")
    (lit "public_key.pem").
Proof.
  split; [reflexivity |].
  exists (lit "public_key.pem"), (lit "public_key.pem").
  split; [reflexivity |]. split; [reflexivity |].
  intros pd p pb sg _ _ E. apply Ok_inj in E. subst sg.
  repeat split. discriminate.
Qed.

Lemma stamped_message_verifies_witness :
  @verify_feature_signature toy_key_files
    {| f_properties :=
         Some [(lit "signature", JStr (lit "sig"));
               (lit "level", JInt 3);
               (lit "timestamp", JStr (lit "2025-06-01T12:00:00"))] |}
    (lit "public_key.pem") = Ok true.
Proof.
  apply (@stamped_message_verifies toy_key_files toy_signer
           [(lit "level", JInt 3)] (lit "2025-06-01T12:00:00")
           (lit "private_key.pem") (lit "public_key.pem")
           [(lit "level", JInt 3);
            (lit "timestamp", JStr (lit "2025-06-01T12:00:00"));
            (lit "signature", JStr (lit "sig"))]).
  - repeat constructor. intros [].
  - intros [H | []]. discriminate H.
  - exact toy_key_pair.
  - vm_compute. reflexivity.
  - apply Permutation_sym.
    apply (Permutation_trans (perm_swap _ _ _)).
    apply perm_skip. apply perm_swap.
Defined.

Lemma valve_properties_verify_witness :
  @verify_feature_signature toy_key_files
    {| f_properties :=
         Some [(lit "open", JBool false);
               (lit "timestamp", JStr (lit "2025-06-01T12:00:00"));
               (lit "signature", JStr (lit "sig"))] |}
    (lit "public_key.pem") = Ok true.
Proof.
  refine (proj2 (proj2 (@valve_properties_verify toy_key_files toy_signer
                          false (lit "2025-06-01T12:00:00")
                          (lit "private_key.pem") (lit "public_key.pem")
                          [(lit "open", JBool false);
                           (lit "timestamp",
                            JStr (lit "2025-06-01T12:00:00"));
                           (lit "signature", JStr (lit "sig"))]
                          toy_key_pair _)) _ _).
  - vm_compute. reflexivity.
  - apply Permutation_refl.
Defined.

(** ** The canonical payload is printable ASCII *)

Section AsciiFacts.
Import Json.

Lemma json_induction (P : json -> Prop) :
  P JNull -> (forall b, P (JBool b)) -> (forall n, P (JInt n)) ->
  (forall r, P (JFloat r)) -> (forall s, P (JStr s)) ->
  (forall items, Forall P items -> P (JList items)) ->
  (forall items, Forall (fun kv => P (snd kv)) items -> P (JDict items)) ->
  forall v, P v.
Proof.
  intros HN HB HI HF HS HL HD. fix IH 1.
  intros [| b | n | r | s | items | items].
  - exact HN.
  - apply HB.
  - apply HI.
  - apply HF.
  - apply HS.
  - apply HL. revert items. fix IHl 1.
    intros [| x l]; constructor; [apply IH | apply IHl].
  - apply HD. revert items. fix IHl 1.
    intros [| [k x] l]; constructor; [apply IH | apply IHl].
Qed.

Lemma printable_app (a b : str) :
  all_printable a -> all_printable b -> all_printable (a ++ b).
Proof. intros. apply Forall_app. auto. Qed.

Lemma printable_lit_digits (u : Decimal.uint) :
  all_printable (lit (NilEmpty.string_of_uint u)).
Proof.
  induction u; cbn [NilEmpty.string_of_uint]; try (constructor; fail);
    constructor; first [reflexivity | assumption].
Qed.

Lemma int_repr_printable (n : Z) : all_printable (int_repr n).
Proof.
  unfold int_repr, NilZero.string_of_int, NilZero.string_of_uint.
  destruct (Z.to_int n) as [u | u].
  - destruct u; try (repeat constructor; fail);
      apply (printable_lit_digits (_ u)).
  - constructor; [reflexivity |].
    destruct u; try (repeat constructor; fail);
      apply (printable_lit_digits (_ u)).
Qed.

Lemma hex_digit_printable (d : Z) :
  0 <= d < 16 -> printable (hex_digit d) = true.
Proof.
  intros H. unfold hex_digit, printable.
  destruct (Z.ltb_spec d 10); apply andb_true_iff; split; apply Z.leb_le;
    lia.
Qed.

Lemma u_escape_printable (n : Z) : all_printable (u_escape n).
Proof.
  unfold u_escape, hex4.
  repeat constructor; apply hex_digit_printable; apply Z.mod_pos_bound; lia.
Qed.

Lemma escape_cp_printable (c : Z) : all_printable (escape_cp c).
Proof.
  unfold escape_cp.
  repeat match goal with
         | |- all_printable (if ?b then _ else _) => destruct b eqn:?
         end;
    try (repeat constructor; fail).
  - constructor; [assumption | constructor].
  - apply u_escape_printable.
  - apply printable_app; apply u_escape_printable.
Qed.

Lemma encode_basestring_ascii_printable (s : str) :
  all_printable (encode_basestring_ascii s).
Proof.
  unfold encode_basestring_ascii.
  apply printable_app; [repeat constructor |].
  apply printable_app; [| repeat constructor].
  induction s as [| c s IH]; cbn [flat_map]; [constructor |].
  apply printable_app; [apply escape_cp_printable | exact IH].
Qed.

Lemma join_printable (sep : str) (parts : list str) :
  all_printable sep -> Forall all_printable parts ->
  all_printable (join sep parts).
Proof.
  intros Hs. induction 1 as [| p rest Hp Hr IH]; [constructor |].
  cbn [join]. destruct rest as [| q rest]; [exact Hp |].
  apply printable_app; [exact Hp |]. apply printable_app; [exact Hs |].
  exact IH.
Qed.

Lemma insert_item_Forall {V} (P : str * V -> Prop) kv (l : list (str * V)) :
  P kv -> Forall P l -> Forall P (insert_item kv l).
Proof.
  intros Hkv. induction 1 as [| h t Hh Ht IH]; cbn [insert_item].
  - repeat constructor. exact Hkv.
  - destruct (str_ltb (fst h) (fst kv)); repeat constructor; auto.
Qed.

Lemma sort_items_Forall {V} (P : str * V -> Prop) (l : list (str * V)) :
  Forall P l -> Forall P (sort_items l).
Proof.
  induction 1 as [| h t Hh Ht IH]; cbn [sort_items]; [constructor |].
  now apply insert_item_Forall.
Qed.

(** Whatever the strings and the keys of a value hold, its serialization is
    printable ASCII. *)
Lemma dumps_printable (v : json) :
  floats_printable v = true -> all_printable (dumps v).
Proof.
  induction v as [| b | n | r | s | items IH | items IH]
    using json_induction; cbn [floats_printable dumps]; intros Hf.
  - repeat constructor.
  - destruct b; repeat constructor.
  - apply int_repr_printable.
  - unfold all_printable. apply Forall_forall. intros c Hc.
    rewrite forallb_forall in Hf. now apply Hf.
  - apply encode_basestring_ascii_printable.
  - apply printable_app; [repeat constructor |].
    apply printable_app; [| repeat constructor].
    apply join_printable; [repeat constructor |].
    apply Forall_map. rewrite forallb_forall in Hf.
    rewrite Forall_forall in *. intros x Hx. apply IH; auto.
  - apply printable_app; [repeat constructor |].
    apply printable_app; [| repeat constructor].
    apply join_printable; [repeat constructor |].
    apply Forall_map.
    apply Forall_impl with
      (P := fun kv : str * str => all_printable (snd kv)).
    + intros [k x] Hx. cbn [fst snd] in *.
      apply printable_app; [apply encode_basestring_ascii_printable |].
      apply printable_app; [repeat constructor | exact Hx].
    + apply sort_items_Forall. apply Forall_map.
      rewrite forallb_forall in Hf. rewrite Forall_forall in *.
      intros [k x] Hx. cbn [snd]. apply (IH (k, x) Hx).
      exact (Hf (k, x) Hx).
Qed.

Lemma utf8_encode_ascii (s : str) :
  all_printable s -> Codec.utf8_encode s = Ok s.
Proof.
  induction 1 as [| c s Hc Hs IH]; [reflexivity |].
  cbn [Codec.utf8_encode]. rewrite IH. unfold Codec.utf8_encode_cp.
  unfold printable in Hc. apply andb_true_iff in Hc.
  destruct Hc as [H1 H2]. apply Z.leb_le in H1, H2.
  destruct (Z.ltb_spec c 0); [lia |].
  destruct (Z.ltb_spec c 128); [| lia]. reflexivity.
Qed.

Lemma without_signature_floats (p : props) :
  floats_printable (JDict p) = true ->
  floats_printable (JDict (without_signature p)) = true.
Proof.
  cbn [floats_printable]. rewrite !forallb_forall. intros H kv Hin.
  apply H. unfold without_signature in Hin. now apply filter_In in Hin.
Qed.

(** X15.  The serialization that is signed and verified cannot fail and is
    plain text: for every mapping (whatever code points its keys and strings
    hold, surrogates included) the signer's and the verifier's payloads are
    defined, they are the characters of the JSON text one byte each, and
    every byte is printable ASCII. *)
Theorem payload_bytes_are_printable (p : props) :
  floats_printable (JDict p) = true ->
  signer_payload_bytes p = Ok (dumps (JDict p)) /\
  verifier_payload_bytes p = Ok (dumps (JDict (without_signature p))) /\
  all_printable (dumps (JDict p)) /\
  all_printable (dumps (JDict (without_signature p))).
Proof.
  intros Hf. pose proof (without_signature_floats p Hf) as Hw.
  pose proof (dumps_printable (JDict p) Hf) as H1.
  pose proof (dumps_printable (JDict (without_signature p)) Hw) as H2.
  unfold signer_payload_bytes, verifier_payload_bytes.
  rewrite (utf8_encode_ascii _ H1), (utf8_encode_ascii _ H2). auto.
Qed.

End AsciiFacts.

Lemma payload_bytes_are_printable_witness :
  signer_payload_bytes [([55296; 233], JStr [128512]);
                        (lit "level", JFloat (lit "1.5"))]
  = Ok (Json.dumps (JDict [([55296; 233], JStr [128512]);
                           (lit "level", JFloat (lit "1.5"))])).
Proof.
  apply (payload_bytes_are_printable
           [([55296; 233], JStr [128512]);
            (lit "level", JFloat (lit "1.5"))]).
  reflexivity.
Defined.

(** ** The submodel name *)

Lemma last_segment_no_sep (sep : Z) (s : str) :
  forall acc, existsb (Z.eqb sep) s = false ->
              last_segment sep s acc = acc ++ s.
Proof.
  induction s as [| c s IH]; intros acc; cbn [existsb last_segment].
  - intros _. now rewrite app_nil_r.
  - intros H. apply orb_false_iff in H. destruct H as [Hc Hs].
    rewrite Z.eqb_sym, Hc. rewrite IH by exact Hs.
    now rewrite <- app_assoc.
Qed.

Lemma last_segment_app (sep : Z) (a b : str) :
  forall acc, existsb (Z.eqb sep) b = false ->
              last_segment sep (a ++ sep :: b) acc = b.
Proof.
  induction a as [| c a IH]; intros acc Hb; cbn [app last_segment].
  - rewrite Z.eqb_refl. now rewrite last_segment_no_sep.
  - destruct (c =? sep); now apply IH.
Qed.

Lemma last_segment_clean (sep : Z) (s : str) :
  forall acc, existsb (Z.eqb sep) acc = false ->
              existsb (Z.eqb sep) (last_segment sep s acc) = false.
Proof.
  induction s as [| c s IH]; intros acc Ha; cbn [last_segment];
    [exact Ha |].
  destruct (c =? sep) eqn:E; [now apply IH |].
  apply IH. rewrite existsb_app, Ha. cbn [existsb orb].
  rewrite Z.eqb_sym, E. reflexivity.
Qed.

(** X19.  The short name of a submodel is what follows the last colon of
    its id: for the submodel of a feature whose id holds no colon it is the
    feature id, whatever colons the thing id holds; in every case it holds
    no colon. *)
Theorem submodel_name_is_feature (thing_id feature_id : str) :
  (existsb (Z.eqb 58) feature_id = false ->
   submodel_name (submodel_id_of thing_id feature_id) = feature_id) /\
  existsb (Z.eqb 58)
    (submodel_name (submodel_id_of thing_id feature_id)) = false.
Proof.
  assert (Hc : existsb (Z.eqb 58) (submodel_id_of thing_id feature_id)
               = true).
  { unfold submodel_id_of. rewrite existsb_app. cbn. apply orb_true_r. }
  unfold submodel_name. rewrite Hc. split.
  - intros Hf. unfold submodel_id_of.
    change (lit ":" ++ feature_id) with (58 :: feature_id).
    now apply last_segment_app.
  - now apply last_segment_clean.
Qed.

Lemma submodel_name_is_feature_witness :
  submodel_name (submodel_id_of (lit "openplc:103b") (lit "valve"))
  = lit "valve".
Proof.
  apply (proj1 (submodel_name_is_feature (lit "openplc:103b") (lit "valve"))).
  reflexivity.
Defined.

(** ** The attack simulator *)

Section AttackFacts.

Context {network : Network}.

Lemma sends_try_requests {A} P (m h : io A) :
  sends P m -> sends P h -> sends P (Attack.try_requests m h).
Proof.
  intros Hm Hh. apply sends_intro. intros tr. unfold Attack.try_requests.
  destruct (Hm tr) as [Em Fm]. destruct (m tr) as [[a | e] tr1];
    cbn [snd] in *.
  - exists (sent_by m tr). auto.
  - destruct (Attack.is_request_exception e).
    + destruct (Hh tr1) as [Eh Fh].
      exists (sent_by m tr ++ sent_by h tr1). split.
      * rewrite Eh, Em at 1. now rewrite app_assoc.
      * apply Forall_app. auto.
    + exists (sent_by m tr). auto.
Qed.

Lemma to_basyx_intro (path : str) (m : method) (h : option str)
  (j : option payload) :
  Attack.to_basyx {| rq_method := m; rq_url := Attack.BASYX_URL ++ path;
                     rq_authorization := h; rq_json := j |}.
Proof. now exists path. Qed.

Ltac allowed_request :=
  split; [discriminate |];
  first
    [ left; unfold Attack.BASYX_SHELLS_ENDPOINT,
        Attack.BASYX_SUBMODELS_ENDPOINT;
      rewrite <- ?app_assoc; apply to_basyx_intro
    | right; split; reflexivity ].

Ltac allowed_step :=
  first
    [ apply sends_ret
    | apply sends_lift
    | apply sends_http; allowed_request
    | apply sends_bind; [| intros ?]
    | apply sends_try_requests
    | match goal with
      | |- sends _ (if ?c then _ else _) => destruct c
      end ].

Lemma get_basyx_shell_allowed v thing_id :
  sends (Attack.allowed v) (Attack.get_basyx_shell thing_id).
Proof.
  unfold Attack.get_basyx_shell, requests_get. repeat allowed_step.
Qed.

Lemma create_basyx_shell_allowed v thing_id :
  sends (Attack.allowed v) (Attack.create_basyx_shell thing_id).
Proof.
  unfold Attack.create_basyx_shell, requests_post. repeat allowed_step.
Qed.

Lemma get_basyx_submodel_allowed v submodel_id :
  sends (Attack.allowed v) (Attack.get_basyx_submodel submodel_id).
Proof.
  unfold Attack.get_basyx_submodel, requests_get. repeat allowed_step.
Qed.

Lemma create_basyx_submodel_allowed v thing_id submodel_id :
  sends (Attack.allowed v)
    (Attack.create_basyx_submodel thing_id submodel_id).
Proof.
  unfold Attack.create_basyx_submodel, requests_post. repeat allowed_step.
Qed.

Lemma update_basyx_element_allowed v submodel_id element_id value :
  sends (Attack.allowed v)
    (Attack.update_basyx_element submodel_id element_id value).
Proof.
  unfold Attack.update_basyx_element, requests_get, requests_post,
    requests_patch.
  repeat allowed_step.
Qed.

Lemma verify_ditto_thing_exists_allowed thing_id :
  sends (Attack.allowed true) (Attack.verify_ditto_thing_exists thing_id).
Proof.
  unfold Attack.verify_ditto_thing_exists, requests_get.
  repeat allowed_step.
Qed.

Lemma simulate_attack_allowed thing_id feature_id property_id value v :
  sends (Attack.allowed v)
    (Attack.simulate_attack thing_id feature_id property_id value v).
Proof.
  unfold Attack.simulate_attack.
  apply sends_bind.
  { destruct v; [| apply sends_ret].
    apply sends_bind; [apply verify_ditto_thing_exists_allowed |].
    intros a. apply sends_ret. }
  intros _.
  apply sends_bind; [apply get_basyx_shell_allowed | intros shell].
  apply sends_bind.
  { destruct (negb (found shell));
      [apply create_basyx_shell_allowed | apply sends_ret]. }
  intros ready. destruct (negb ready); [apply sends_ret |]. cbv zeta.
  apply sends_bind; [apply get_basyx_submodel_allowed | intros submodel].
  apply sends_bind.
  { destruct (negb (found submodel));
      [apply create_basyx_submodel_allowed | apply sends_ret]. }
  intros ready'. destruct (negb ready'); [apply sends_ret |].
  apply update_basyx_element_allowed.
Qed.

Lemma attack_target_allowed target :
  sends (Attack.allowed false) (Attack.attack_target target).
Proof.
  unfold Attack.attack_target.
  apply sends_try_io; [| intros e; apply sends_ret].
  destruct (negb (Attack.valid_target target)); [apply sends_ret |].
  apply simulate_attack_allowed.
Qed.

Lemma attack_targets_loop_allowed targets :
  forall results,
    sends (Attack.allowed false) (Attack.attack_targets_loop targets results).
Proof.
  induction targets as [| t rest IH]; intros results;
    cbn [Attack.attack_targets_loop].
  - apply sends_ret.
  - apply sends_bind; [apply attack_target_allowed | intros b]. apply IH.
Qed.


Lemma attack_target_ok target tr :
  exists b, fst (Attack.attack_target target tr) = Ok b.
Proof.
  unfold Attack.attack_target, try_io.
  match goal with
  | |- context [let (_, _) := ?m in _] => destruct m as [[b | e] tr1]
  | |- context [match ?m with (_, _) => _ end] =>
      destruct m as [[b | e] tr1]
  end; unfold ret; cbn [fst]; eauto.
Qed.

Lemma attack_targets_loop_counts targets :
  forall results tr,
  exists results',
    fst (Attack.attack_targets_loop targets results tr) = Ok results' /\
    (Attack.successful results' + Attack.failed results'
     = Attack.successful results + Attack.failed results
       + List.length targets)%nat /\
    Attack.total results' = Attack.total results.
Proof.
  induction targets as [| t rest IH]; intros results tr;
    cbn [Attack.attack_targets_loop].
  - exists results. cbn. repeat split. lia.
  - destruct (attack_target_ok t tr) as [b Hb].
    rewrite (bind_ok _ _ _ b Hb).
    destruct (IH (if b
                  then {| Attack.successful := S (Attack.successful results);
                          Attack.failed := Attack.failed results;
                          Attack.total := Attack.total results |}
                  else {| Attack.successful := Attack.successful results;
                          Attack.failed := S (Attack.failed results);
                          Attack.total := Attack.total results |})
                (snd (Attack.attack_target t tr)))
      as (r' & E & Hsum & Htot).
    exists r'. split; [exact E |].
    destruct b; cbn [Attack.successful Attack.failed Attack.total] in *;
      cbn [List.length]; split; [lia | exact Htot | lia | exact Htot].
Qed.

(** X17.  A cycle of the simulator accounts for every target: whatever the
    registries do and however the targets are configured, it returns its
    counters without raising, each target is counted once, as successful or
    as failed, and [total] is the number of targets. *)
Theorem attack_cycle_counts_every_target targets tr :
  exists results,
    fst (Attack.execute_attack_cycle targets tr) = Ok results /\
    (Attack.successful results + Attack.failed results
     = List.length targets)%nat /\
    Attack.total results = List.length targets.
Proof.
  unfold Attack.execute_attack_cycle.
  destruct (attack_targets_loop_counts targets
              {| Attack.successful := 0; Attack.failed := 0;
                 Attack.total := List.length targets |} tr)
    as (r & E & Hsum & Htot).
  exists r. cbn in Hsum, Htot. auto.
Qed.

Lemma attack_update_true submodel_id element_id value tr :
  fst (Attack.update_basyx_element submodel_id element_id value tr)
  = Ok true ->
  exists encoded lookup write,
    Codec.encode_id submodel_id = Ok encoded /\
    snd (Attack.update_basyx_element submodel_id element_id value tr)
    = tr ++ [lookup; write] /\
    (write = create_element_request Attack.BASYX_URL encoded element_id value
     \/ write
        = update_element_request Attack.BASYX_URL encoded element_id value).
Proof.
  unfold Attack.update_basyx_element, Attack.try_requests, bind, lift,
    requests_get, requests_post, requests_patch, http, ret.
  destruct (Codec.encode_id submodel_id) as [enc | e0].
  2:{ destruct (Attack.is_request_exception e0); discriminate. }
  destruct (send tr _) as [r | e1].
  2:{ destruct (Attack.is_request_exception e1); discriminate. }
  destruct (status_code r =? 404).
  - destruct (send (tr ++ _) _) as [r' | e2].
    2:{ destruct (Attack.is_request_exception e2); discriminate. }
    destruct (raise_for_status r') as [[] | e3].
    2:{ destruct (Attack.is_request_exception e3); discriminate. }
    intros _. cbn [snd]. rewrite <- app_assoc.
    eexists. eexists. eexists. split; [reflexivity |].
    split; [reflexivity |]. left. reflexivity.
  - destruct (send (tr ++ _) _) as [r' | e2].
    2:{ destruct (Attack.is_request_exception e2); discriminate. }
    destruct (raise_for_status r') as [[] | e3].
    2:{ destruct (Attack.is_request_exception e3); discriminate. }
    intros _. cbn [snd]. rewrite <- app_assoc.
    eexists. eexists. eexists. split; [reflexivity |].
    split; [reflexivity |]. right. reflexivity.
Qed.

Lemma extends {A} P (m : io A) tr r t :
  sends P m -> m tr = (r, t) -> exists s, t = tr ++ s.
Proof.
  intros H E. destruct (H tr) as [Hs _]. rewrite E in Hs. cbn [snd] in Hs.
  eauto.
Qed.

(** A successful attack ends with the upsert of the element. *)
Lemma simulate_attack_true thing_id feature_id property_id value v tr :
  fst (Attack.simulate_attack thing_id feature_id property_id value v tr)
  = Ok true ->
  exists s,
    Attack.simulate_attack thing_id feature_id property_id value v tr
    = Attack.update_basyx_element (submodel_id_of thing_id feature_id)
        property_id value (tr ++ s).
Proof.
  remember (Attack.simulate_attack thing_id feature_id property_id value v
              tr) as outcome eqn:E.
  intros H. symmetry in E. revert E.
  unfold Attack.simulate_attack. cbv zeta.
  set (check := if v
                then bind (Attack.verify_ditto_thing_exists thing_id)
                       (fun _ => ret tt)
                else ret tt).
  assert (Hcheck : sends (Attack.allowed v) check).
  { unfold check. destruct v; [| apply sends_ret].
    apply sends_bind; [apply verify_ditto_thing_exists_allowed |].
    intros a. apply sends_ret. }
  unfold bind at 1.
  destruct (check tr) as [[[] | e] t0] eqn:E0;
    [| intros <-; discriminate H].
  destruct (extends _ _ _ _ _ Hcheck E0) as [s0 ->].
  unfold bind at 1.
  destruct (Attack.get_basyx_shell thing_id (tr ++ s0))
    as [[shell | e] t1] eqn:E1; [| intros <-; discriminate H].
  destruct (extends _ _ _ _ _ (get_basyx_shell_allowed v thing_id) E1)
    as [s1 ->].
  unfold bind at 1.
  set (ensure := if negb (found shell)
                 then Attack.create_basyx_shell thing_id else ret true).
  assert (Hensure : sends (Attack.allowed v) ensure).
  { unfold ensure. destruct (negb (found shell));
      [apply create_basyx_shell_allowed | apply sends_ret]. }
  destruct (ensure ((tr ++ s0) ++ s1)) as [[ready | e] t2] eqn:E2;
    [| intros <-; discriminate H].
  destruct (extends _ _ _ _ _ Hensure E2) as [s2 ->].
  destruct ready; cbn [negb]; [| intros <-; discriminate H].
  unfold bind at 1.
  destruct (Attack.get_basyx_submodel (submodel_id_of thing_id feature_id)
              (((tr ++ s0) ++ s1) ++ s2))
    as [[submodel | e] t3] eqn:E3; [| intros <-; discriminate H].
  destruct (extends _ _ _ _ _
              (get_basyx_submodel_allowed v
                 (submodel_id_of thing_id feature_id)) E3) as [s3 ->].
  unfold bind at 1.
  set (ensure' := if negb (found submodel)
                  then Attack.create_basyx_submodel thing_id
                         (submodel_id_of thing_id feature_id)
                  else ret true).
  assert (Hensure' : sends (Attack.allowed v) ensure').
  { unfold ensure'. destruct (negb (found submodel));
      [apply create_basyx_submodel_allowed | apply sends_ret]. }
  destruct (ensure' ((((tr ++ s0) ++ s1) ++ s2) ++ s3))
    as [[ready | e] t4] eqn:E4; [| intros <-; discriminate H].
  destruct (extends _ _ _ _ _ Hensure' E4) as [s4 ->].
  destruct ready; cbn [negb]; [| intros <-; discriminate H].
  intros <-. exists (s0 ++ s1 ++ s2 ++ s3 ++ s4).
  now rewrite !app_assoc.
Qed.

(** X18.  An attack is reported successful only when the element was
    written: the last two requests of a successful attack are the lookup of
    the element and the request that creates it or updates its value, with
    the attacker's value, in the submodel of the thing and feature. *)
Theorem successful_attack_wrote_the_element
  thing_id feature_id property_id value verify_ditto tr :
  fst (Attack.simulate_attack thing_id feature_id property_id value
         verify_ditto tr) = Ok true ->
  exists encoded earlier lookup write,
    Codec.encode_id (submodel_id_of thing_id feature_id) = Ok encoded /\
    sent_by (Attack.simulate_attack thing_id feature_id property_id value
               verify_ditto) tr = earlier ++ [lookup; write] /\
    (write = create_element_request Attack.BASYX_URL encoded property_id
               value \/
     write = update_element_request Attack.BASYX_URL encoded property_id
               value).
Proof.
  intros H. destruct (simulate_attack_true _ _ _ _ _ _ H) as (s & Hs).
  rewrite Hs in H. apply attack_update_true in H.
  destruct H as (enc & lookup & write & He & Ht & Hw).
  exists enc, s, lookup, write. split; [exact He |]. split; [| exact Hw].
  apply sent_by_eq. rewrite Hs, Ht. now rewrite app_assoc.
Qed.

End AttackFacts.

Lemma successful_attack_wrote_the_element_witness :
  exists encoded earlier lookup write,
    Codec.encode_id (submodel_id_of (lit "plc") (lit "valve")) = Ok encoded /\
    sent_by (@Attack.simulate_attack empty_target (lit "plc") (lit "valve")
               (lit "open") (JStr (lit "ABCD")) false) []
    = earlier ++ [lookup; write] /\
    (write = create_element_request Attack.BASYX_URL encoded (lit "open")
               (JStr (lit "ABCD")) \/
     write = update_element_request Attack.BASYX_URL encoded (lit "open")
               (JStr (lit "ABCD"))).
Proof.
  apply (@successful_attack_wrote_the_element empty_target).
  vm_compute. reflexivity.
Defined.

Example attack_cycle_on_empty_target :
  fst (@Attack.execute_attack_cycle empty_target Attack.ATTACK_TARGETS [])
  = Ok {| Attack.successful := 1; Attack.failed := 0; Attack.total := 1 |}.
Proof. vm_compute. reflexivity. Qed.

Example attack_cycle_invalid_target :
  @Attack.execute_attack_cycle empty_target
    [{| Attack.tg_thing_id := Some (lit "plc");
        Attack.tg_feature_id := None;
        Attack.tg_property_id := Some (lit "open");
        Attack.tg_attack_value := Some (JBool true) |}] []
  = (Ok {| Attack.successful := 0; Attack.failed := 1; Attack.total := 1 |},
     []).
Proof. vm_compute. reflexivity. Qed.

(** ** A policy error and the export of a source *)

Section PolicyError.

Context {parser : IsoParser} {crypto : Crypto} {network : Network}.

Variable now : Z.
Variable config : Config.

Lemma get_ditto_things_trace source_url headers tr :
  snd (get_ditto_things source_url headers tr)
  = tr ++ [{| rq_method := GET; rq_url := source_url ++ lit "/things";
              rq_authorization := headers; rq_json := None |}].
Proof.
  unfold get_ditto_things, requests_get, http, bind, lift, ret.
  destruct (send tr _) as [r |]; [| reflexivity].
  destruct (raise_for_status r); [| reflexivity].
  now destruct (rs_json r).
Qed.

Lemma get_ditto_features_trace thing_id source_url headers tr :
  snd (get_ditto_features thing_id source_url headers tr)
  = tr ++ [{| rq_method := GET;
              rq_url := source_url ++ lit "/things/" ++ thing_id
                        ++ lit "/features";
              rq_authorization := headers; rq_json := None |}].
Proof.
  unfold get_ditto_features, requests_get, http, bind, lift, ret.
  destruct (send tr _) as [r |]; [| reflexivity].
  destruct (raise_for_status r); [| reflexivity].
  now destruct (rs_json r).
Qed.

(** X20.  An error of the resolver is not contained to the feature or the
    thing it arises on: when resolving the first feature of the first thing
    of a source raises (a matched rule without [downtime], a timestamp that
    does not parse), the export of that source ends there.  The source was
    asked for its things and for the features of that thing, and nothing is
    sent to the target registry for any thing of the source. *)
Theorem resolver_error_silences_source
  basyx_url source_config thing rest feature_id fd more e tr :
  fst (get_ditto_things (sr_source_url source_config)
         (headers_of (sr_auth_header source_config)) tr)
  = Ok (thing :: rest) ->
  fst (get_ditto_features (thingId thing) (sr_source_url source_config)
         (headers_of (sr_auth_header source_config))
         (tr ++ [things_request source_config]))
  = Ok ((feature_id, fd) :: more) ->
  get_export_config now (sr_source_url source_config) (thingId thing)
    feature_id config = Raise e ->
  export_source now config basyx_url source_config tr
  = (Ok tt,
     tr ++ [things_request source_config;
            features_request source_config thing]).
Proof.
  intros Ht Hf Hr. unfold export_source, try_io.
  pose proof (get_ditto_things_trace (sr_source_url source_config)
                (headers_of (sr_auth_header source_config)) tr) as Tt.
  fold (things_request source_config) in Tt.
  unfold bind at 1.
  destruct (get_ditto_things _ _ tr) as [r1 t1]. cbn [fst snd] in *.
  subst r1 t1. cbn [export_things].
  pose proof (get_ditto_features_trace (thingId thing)
                (sr_source_url source_config)
                (headers_of (sr_auth_header source_config))
                (tr ++ [things_request source_config])) as Tf.
  fold (features_request source_config thing) in Tf.
  unfold bind at 1.
  destruct (get_ditto_features _ _ _ (tr ++ [things_request source_config]))
    as [r2 t2].
  cbn [fst snd] in *. subst r2 t2. cbn [export_features].
  unfold bind at 1. unfold bind at 1.
  unfold export_feature. unfold bind at 1. unfold lift. rewrite Hr.
  unfold ret. now rewrite <- app_assoc.
Qed.

End PolicyError.

Lemma resolver_error_silences_source_witness :
  @export_source fromisoformat_basic toy_crypto ditto_with_plc sample_now
    no_downtime_config basyx (mk_source ditto_url []) []
  = (Ok tt,
     [things_request (mk_source ditto_url []);
      features_request (mk_source ditto_url [])
        {| thingId := lit "plc" |}]).
Proof.
  apply (@resolver_error_silences_source fromisoformat_basic toy_crypto
           ditto_with_plc sample_now no_downtime_config basyx
           (mk_source ditto_url []) {| thingId := lit "plc" |} []
           (lit "valve")
           {| f_properties := Some [(lit "open", JBool true);
                                    (lit "timestamp",
                                     JStr (lit "2025-06-01T12:00:00"));
                                    (lit "signature",
                                     JStr (lit "c2ln"))] |}
           [(lit "pump", {| f_properties := Some [(lit "level", JInt 3)] |})]
           TypeError []).
  - vm_compute. reflexivity.
  - vm_compute. reflexivity.
  - vm_compute. reflexivity.
Defined.
